(** * The LMDB-backed storage layer of goaccess (src/mdb.c)

    A shallow embedding of the typed accessor layer: the codec that turns C
    strings, [int] and [uint64_t] objects into [MDB_val] byte spans, the
    table registry ([db_storage], the five global tables), the typed
    accessors, the auto-increment interning path and the bulk export.

    C integers are Rocq integers ([Z]) with every conversion written out
    ([to_int], [to_uint32], [to_uint64]); memory reached through a pointer is
    the list of bytes that starts there; the globals of the translation
    unit and the contents of the environment are threaded explicitly; a
    call that ends in [FATAL] has the outcome [Exited].  *)

From Stdlib Require Import ZArith List Lia.
From Stdlib Require Import Strings.Byte Strings.String DecimalString.
From stdpp Require Import gmap list sorting.

Open Scope Z_scope.

(** ** Machine integers *)

Definition INT_MAX : Z := 2147483647.
Definition INT_MIN : Z := -2147483648.

(** Conversion of an integer value to [int] (32 bits, two's complement). *)
Definition to_int (z : Z) : Z := (z + 2 ^ 31) mod 2 ^ 32 - 2 ^ 31.
(** Conversion to [uint32_t] and to [uint64_t] / [size_t]. *)
Definition to_uint32 (z : Z) : Z := z mod 2 ^ 32.
Definition to_uint64 (z : Z) : Z := z mod 2 ^ 64.

Definition is_int (z : Z) : Prop := INT_MIN <= z <= INT_MAX.
Definition is_uint64 (z : Z) : Prop := 0 <= z < 2 ^ 64.

(** ** Bytes and object representations *)

#[global] Instance byte_eq_dec : EqDecision byte := Byte.byte_eq_dec.

Definition byte_of_N (n : N) : byte :=
  match Byte.of_N n with Some b => b | None => x00 end.

#[global] Program Instance byte_countable : Countable byte :=
  inj_countable' Byte.to_N byte_of_N _.
Next Obligation.
  intros b. unfold byte_of_N. now rewrite Byte.of_to_N.
Qed.

Definition byte_of_Z (z : Z) : byte := byte_of_N (Z.to_N z).
Definition Z_of_byte (b : byte) : Z := Z.of_N (Byte.to_N b).

(** The object representation of an integer of [n] bytes, least
    significant byte first (the native order of the targets goaccess is
    built for). *)
Fixpoint le_bytes (n : nat) (z : Z) : list byte :=
  match n with
  | O => []
  | S n' => byte_of_Z (z mod 256) :: le_bytes n' (z / 256)
  end.

Fixpoint le_value (bs : list byte) : Z :=
  match bs with
  | [] => 0
  | b :: bs' => Z_of_byte b + 256 * le_value bs'
  end.

Definition sizeof_int : nat := 4.
Definition sizeof_uint64 : nat := 8.

(** The bytes found at [&value] for [int value] and [uint64_t value]. *)
Definition int_bytes (v : Z) : list byte := le_bytes sizeof_int (to_uint32 v).
Definition uint64_bytes (v : Z) : list byte :=
  le_bytes sizeof_uint64 (to_uint64 v).

(** Reading an [int] and a [uint64_t] through a pointer into a value. *)
Definition load_int (p : list byte) : Z := to_int (le_value (take sizeof_int p)).
Definition load_uint64 (p : list byte) : Z := le_value (take sizeof_uint64 p).

(** [strlen]: the number of bytes before the first NUL. *)
Fixpoint strlen (s : list byte) : nat :=
  match s with
  | [] => O
  | b :: s' => if decide (b = x00) then O else S (strlen s')
  end.

(** [xstrdup]: the copy stops at the first NUL. *)
Definition xstrdup (p : list byte) : list byte := take (strlen p) p.

(** The memory of a string literal: its characters and the terminator. *)
Definition cstr (s : string) : list byte := list_byte_of_string s ++ [x00].

(** ** The engine's view of a key or a value *)

Record MDB_val := { mv_size : nat; mv_data : list byte }.

(** The span an [MDB_val] designates: [mv_size] bytes from [mv_data]. *)
Definition span (v : MDB_val) : list byte := take (mv_size v) (mv_data v).

Abbreviation table := (gmap (list byte) (list byte)).

Definition MDB_dbi := N.

(** The default key order of the engine: bytewise, a proper prefix first. *)
Fixpoint key_leb (a b : list byte) : bool :=
  match a, b with
  | [], _ => true
  | _ :: _, [] => false
  | x :: a', y :: b' =>
      if (Byte.to_N x <? Byte.to_N y)%N then true
      else if (Byte.to_N y <? Byte.to_N x)%N then false
      else key_leb a' b'
  end.

Definition entry_le (e1 e2 : list byte * list byte) : Prop :=
  key_leb (fst e1) (fst e2) = true.

#[global] Instance entry_le_dec : RelDecision entry_le.
Proof. intros e1 e2. unfold entry_le. apply _. Defined.

(** What a cursor walked with [MDB_NEXT] from the start yields. *)
Definition cursor_scan (t : table) : list (list byte * list byte) :=
  merge_sort entry_le (map_to_list t).

(** ** The schema *)

(** Modelled from the spec: the [GModule] enumeration of commons.h, which
    is not among the sources ("a closed, enumerable set known at startup").
    mdb.c names [VISITORS] only; the other tags stand for the remaining
    analysis dimensions. *)
Inductive GModule :=
  | VISITORS | REQUESTS | REQUESTS_STATIC | NOT_FOUND | HOSTS | OS | BROWSERS
  | VISIT_TIMES | VIRTUAL_HOSTS | REFERRERS | REFERRING_SITES | KEYPHRASES
  | STATUS_CODES | REMOTE_USER.

#[global] Instance GModule_eq_dec : EqDecision GModule.
Proof. solve_decision. Defined.

(** Modelled from the spec: the [GSMetric] enumeration of gstorage.h (the
    "14 fixed kinds" of metric), in the order [init_tables] lists them. *)
Inductive GSMetric :=
  | MTRC_KEYMAP | MTRC_ROOTMAP | MTRC_DATAMAP | MTRC_UNIQMAP | MTRC_ROOT
  | MTRC_HITS | MTRC_VISITORS | MTRC_BW | MTRC_CUMTS | MTRC_MAXTS
  | MTRC_METHODS | MTRC_PROTOCOLS | MTRC_AGENTS | MTRC_METADATA.

#[global] Instance GSMetric_eq_dec : EqDecision GSMetric.
Proof. solve_decision. Defined.

Definition GSMTRC_TOTAL : nat := 14.

(** A pointer is [None] when it is NULL. *)
Record GLMDBStorageMetric := {
  metric : GSMetric;
  dbname : option string;
  store : option MDB_dbi
}.

Record GLMDBStorage := {
  module : GModule;
  metrics : list GLMDBStorageMetric
}.

(** What [xcalloc] hands out: every field zero. *)
Definition zero_metric : GLMDBStorageMetric :=
  {| metric := MTRC_KEYMAP; dbname := None; store := None |}.
Definition zero_storage : GLMDBStorage :=
  {| module := VISITORS; metrics := replicate GSMTRC_TOTAL zero_metric |}.

(** The position of a module in the enumeration. *)
Definition module_index (m : GModule) : nat :=
  match m with
  | VISITORS => 0 | REQUESTS => 1 | REQUESTS_STATIC => 2 | NOT_FOUND => 3
  | HOSTS => 4 | OS => 5 | BROWSERS => 6 | VISIT_TIMES => 7
  | VIRTUAL_HOSTS => 8 | REFERRERS => 9 | REFERRING_SITES => 10
  | KEYPHRASES => 11 | STATUS_CODES => 12 | REMOTE_USER => 13
  end%nat.

Definition TOTAL_MODULES : nat := 14.

(** [storage[module]], for an array of [TOTAL_MODULES] elements. *)
Definition storage_at (storage : list GLMDBStorage) (m : GModule)
  : GLMDBStorage :=
  default zero_storage (storage !! module_index m).

(** The file-scope variables of mdb.c, and the environment
    [db_storage->env] refers to.  [db_storage] is an array with one
    element per module, indexed by the module's tag.  Of the environment:
    the names of the tables opened in it, in the order of their handles;
    the number of named tables it allows; what the table of each handle
    holds; and what the directory held under each name when the
    environment was opened. *)
Record Globals := {
  db_storage : option (list GLMDBStorage);
  ht_agent_keys : option MDB_dbi;
  ht_agent_vals : option MDB_dbi;
  ht_general_stats : option MDB_dbi;
  ht_hostnames : option MDB_dbi;
  ht_unique_keys : option MDB_dbi;
  env_names : list string;
  env_maxdbs : nat;
  env_dbs : gmap MDB_dbi table;
  env_dir : gmap string table
}.

(** A process that has not run [ginit_storage]: static storage is
    zero-initialised and no environment is open; [dir] is what the
    directory of the settings holds. *)
Definition boot (dir : gmap string table) : Globals :=
  {| db_storage := None; ht_agent_keys := None; ht_agent_vals := None;
     ht_general_stats := None; ht_hostnames := None; ht_unique_keys := None;
     env_names := []; env_maxdbs := 0; env_dbs := ∅; env_dir := dir |}.

(** The same over a directory that holds nothing yet. *)
Definition globals0 : Globals := boot ∅.

Definition tbl (g : Globals) (dbi : MDB_dbi) : table :=
  default ∅ (env_dbs g !! dbi).

Definition set_env (g : Globals) (e : gmap MDB_dbi table) : Globals :=
  {| db_storage := db_storage g; ht_agent_keys := ht_agent_keys g;
     ht_agent_vals := ht_agent_vals g;
     ht_general_stats := ht_general_stats g; ht_hostnames := ht_hostnames g;
     ht_unique_keys := ht_unique_keys g; env_names := env_names g;
     env_maxdbs := env_maxdbs g; env_dbs := e; env_dir := env_dir g |}.

Definition set_tbl (g : Globals) (dbi : MDB_dbi) (t : table) : Globals :=
  set_env g (<[dbi := t]> (env_dbs g)).

(** ** Computations over the globals *)

Definition Db (A : Type) : Type := Globals -> A * Globals.

Definition ret {A} (a : A) : Db A := fun g => (a, g).
Definition bind {A B} (m : Db A) (k : A -> Db B) : Db B :=
  fun g => let (a, g') := m g in k a g'.

Notation "'let*' x ':=' m 'in' k" := (bind m (fun x => k))
  (at level 10, x name, m at level 100, k at level 200).
Notation "'exec' m 'in' k" := (bind m (fun _ => k))
  (at level 10, m at level 100, k at level 200).

(** A call that can reach [FATAL] (error.h) either returns a value or
    stops the process there; the message is the format string passed. *)
Inductive Outcome (A : Type) :=
  | Returned (a : A)
  | Exited (msg : string).

Arguments Returned {A} a.
Arguments Exited {A} msg.

Definition returns {A} (a : A) : Db (Outcome A) := ret (Returned a).
Definition FATAL {A} (msg : string) : Db (Outcome A) := ret (Exited msg).

(** What follows a call is run only when the call returns. *)
Definition and_then {A B} (m : Db (Outcome A)) (k : A -> Db (Outcome B))
  : Db (Outcome B) :=
  let* o := m in
  match o with
  | Returned a => k a
  | Exited msg => ret (Exited msg)
  end.

Notation "'try*' x ':=' m 'in' k" := (and_then m (fun x => k))
  (at level 10, x name, m at level 100, k at level 200).
Notation "'try' m 'in' k" := (and_then m (fun _ => k))
  (at level 10, m at level 100, k at level 200).

(** ** The engine *)

(** The values of mdb.h. *)
Definition LMDB_ENV_MAX_DBS : nat := 256.
Definition LMDB_DB_SIZE : Z := 100000 * (1024 * 1024).

(** Modelled from the spec: the key-value engine (deps/liblmdb, not among
    the sources), as the spec assumes it: "environment-create/open/
    set-size/set-max-tables, transaction begin/commit, named-table
    open-or-create, get/put keyed by raw byte spans, cursor
    open/next/close, table stat (entry count), environment sync", where
    "these primitives are provided and fail with a distinguishable error
    code".  The return codes are the engine's own: 0 for success,
    [MDB_BAD_VALSIZE] for a key of no byte or of more bytes than the
    engine's maximum key size (511), in [mdb_get] as in [mdb_put],
    [MDB_DBS_FULL] when the environment has all the named tables open
    that it was set up for.  The handles of the named tables start at
    [CORE_DBS], the two below being the engine's own.  No other failure
    is modelled: the directory is taken to exist and to have room, so
    transactions, [mdb_stat] and [mdb_env_sync] always succeed,
    [txn_begin] and [txn_commit] leave no trace, and a call of the
    accessor layer is one step on [env_dbs]. *)
Definition MDB_SUCCESS : Z := 0.
Definition MDB_BAD_VALSIZE : Z := -30781.
Definition MDB_DBS_FULL : Z := -30791.
Definition MDB_MAXKEYSIZE : nat := 511.
Definition CORE_DBS : nat := 2.

Definition key_size_ok (n : nat) : bool :=
  (0 <? n)%nat && (n <=? MDB_MAXKEYSIZE)%nat.

(** [mdb_get]: the value when the return code is 0; the callers test
    for nothing else, and the code is not 0 when the key is not there
    and when its size is one that the engine refuses. *)
Definition mdb_get (dbi : MDB_dbi) (key : MDB_val) : Db (option (list byte)) :=
  fun g =>
    (if key_size_ok (mv_size key) then tbl g dbi !! span key else None, g).

(** [mdb_put] with flags 0: an existing value is replaced. *)
Definition mdb_put (dbi : MDB_dbi) (key data : MDB_val) : Db Z :=
  fun g =>
    if key_size_ok (mv_size key)
    then (MDB_SUCCESS, set_tbl g dbi (<[span key := span data]> (tbl g dbi)))
    else (MDB_BAD_VALSIZE, g).

(** [mdb_stat], field [ms_entries]. *)
Definition mdb_stat_entries (dbi : MDB_dbi) : Db Z :=
  fun g => (Z.of_nat (size (tbl g dbi)), g).

(** The position of a name among the names of the open tables. *)
Fixpoint name_index (names : list string) (name : string) : option nat :=
  match names with
  | [] => None
  | n :: names' =>
      if String.eqb n name then Some O
      else match name_index names' name with
           | Some i => Some (S i)
           | None => None
           end
  end.

Definition dbi_at (i : nat) : MDB_dbi := N.of_nat (CORE_DBS + i).

(** [mdb_dbi_open] with [MDB_CREATE]: a name that is open already gets
    its handle again; another name gets the next handle, and the table
    of that handle holds what the directory holds under the name,
    nothing when the name is new. *)
Definition mdb_dbi_open (name : string) : Db (Z * MDB_dbi) :=
  fun g =>
    match name_index (env_names g) name with
    | Some i => ((MDB_SUCCESS, dbi_at i), g)
    | None =>
        if (env_maxdbs g <=? length (env_names g))%nat
        then ((MDB_DBS_FULL, 0%N), g)
        else
          let dbi := dbi_at (length (env_names g)) in
          ((MDB_SUCCESS, dbi),
           {| db_storage := db_storage g; ht_agent_keys := ht_agent_keys g;
              ht_agent_vals := ht_agent_vals g;
              ht_general_stats := ht_general_stats g;
              ht_hostnames := ht_hostnames g;
              ht_unique_keys := ht_unique_keys g;
              env_names := env_names g ++ [name];
              env_maxdbs := env_maxdbs g;
              env_dbs := <[dbi := default ∅ (env_dir g !! name)]> (env_dbs g);
              env_dir := env_dir g |})
    end.

(** What the directory holds once the tables open under [names], from
    handle [dbi_at i] on, are written back under their names. *)
Fixpoint committed (g : Globals) (i : nat) (names : list string)
    (dir : gmap string table) : gmap string table :=
  match names with
  | [] => dir
  | n :: names' => committed g (S i) names' (<[n := tbl g (dbi_at i)]> dir)
  end.

Definition mdb_env_create : Db Z := ret MDB_SUCCESS.

Definition mdb_env_set_maxdbs (dbs : nat) : Db Z :=
  fun g =>
    (MDB_SUCCESS,
     {| db_storage := db_storage g; ht_agent_keys := ht_agent_keys g;
        ht_agent_vals := ht_agent_vals g;
        ht_general_stats := ht_general_stats g;
        ht_hostnames := ht_hostnames g; ht_unique_keys := ht_unique_keys g;
        env_names := env_names g; env_maxdbs := dbs; env_dbs := env_dbs g;
        env_dir := env_dir g |}).

Definition mdb_env_set_mapsize (size : Z) : Db Z := ret MDB_SUCCESS.

(** [mdb_env_open]: the environment now in use is a new one over the
    directory, with no table open; the directory holds what was committed
    through the environment used before. *)
Definition mdb_env_open : Db Z :=
  fun g =>
    (MDB_SUCCESS,
     {| db_storage := db_storage g; ht_agent_keys := ht_agent_keys g;
        ht_agent_vals := ht_agent_vals g;
        ht_general_stats := ht_general_stats g;
        ht_hostnames := ht_hostnames g; ht_unique_keys := ht_unique_keys g;
        env_names := []; env_maxdbs := env_maxdbs g; env_dbs := ∅;
        env_dir := committed g 0 (env_names g) (env_dir g) |}).

(** ** Table registry *)

(** [set_env_path] looks the directory up in the file system and stops
    the process when it is not there; the directory is taken to exist. *)
Definition create_environment : Db (Outcome unit) :=
  let* rc := mdb_env_create in
  if negb (rc =? 0) then FATAL "Unable to create DB environment: %s" else
  let* rc := mdb_env_set_maxdbs LMDB_ENV_MAX_DBS in
  if negb (rc =? 0) then FATAL "Unable to set environment max db: %s" else
  let* rc := mdb_env_set_mapsize LMDB_DB_SIZE in
  if negb (rc =? 0) then FATAL "Unable to set env map size: %s" else
  let* rc := mdb_env_open in
  if negb (rc =? 0) then FATAL "Unable to open environment: %s" else
  returns tt.

Definition create_datebase (name : string) : Db (Outcome (option MDB_dbi)) :=
  let* r := mdb_dbi_open name in
  if negb (fst r =? 0) then FATAL "Unable to open database: %s"
  else returns (Some (snd r)).

(** ["%s-m%d"] *)
Definition get_dbname (name : string) (m : GModule) : string :=
  (name ++ "-m" ++ NilEmpty.string_of_uint (Nat.to_uint (module_index m)))%string.

Definition set_db_storage (st : option (list GLMDBStorage)) : Db unit :=
  fun g =>
    (tt, {| db_storage := st; ht_agent_keys := ht_agent_keys g;
            ht_agent_vals := ht_agent_vals g;
            ht_general_stats := ht_general_stats g;
            ht_hostnames := ht_hostnames g;
            ht_unique_keys := ht_unique_keys g; env_names := env_names g;
            env_maxdbs := env_maxdbs g; env_dbs := env_dbs g;
            env_dir := env_dir g |}).

Definition set_global_tables (ak av gs hn uk : option MDB_dbi) : Db unit :=
  fun g =>
    (tt, {| db_storage := db_storage g; ht_agent_keys := ak;
            ht_agent_vals := av; ht_general_stats := gs; ht_hostnames := hn;
            ht_unique_keys := uk; env_names := env_names g;
            env_maxdbs := env_maxdbs g; env_dbs := env_dbs g;
            env_dir := env_dir g |}).

(** [xcalloc (size, sizeof (GLMDBStorage))] *)
Definition new_storage (size : nat) : option (list GLMDBStorage) :=
  Some (replicate size zero_storage).

(** An assignment to [db_storage[m]]. *)
Definition update_storage (m : GModule) (f : GLMDBStorage -> GLMDBStorage)
  : Db unit :=
  fun g => set_db_storage
    (match db_storage g with
     | Some st => Some (<[module_index m := f (storage_at st m)]> st)
     | None => None
     end) g.

Definition init_metrics : list GLMDBStorageMetric :=
  map (fun '(mt, name) => {| metric := mt; dbname := Some name; store := None |})
    [ (MTRC_KEYMAP, "db_keymap"); (MTRC_ROOTMAP, "db_rootmap");
      (MTRC_DATAMAP, "db_datamap"); (MTRC_UNIQMAP, "db_uniqmap");
      (MTRC_ROOT, "db_root"); (MTRC_HITS, "db_hits");
      (MTRC_VISITORS, "db_visitors"); (MTRC_BW, "db_bw");
      (MTRC_CUMTS, "db_cumts"); (MTRC_MAXTS, "db_maxts");
      (MTRC_METHODS, "db_methods"); (MTRC_PROTOCOLS, "db_protocols");
      (MTRC_AGENTS, "db_agents"); (MTRC_METADATA, "db_metadata") ]%string.

(** The loop of [init_tables], from index [i] on. *)
Fixpoint init_tables_from (m : GModule) (i : nat)
    (ms : list GLMDBStorageMetric) : Db (Outcome unit) :=
  match ms with
  | [] => returns tt
  | mtrc :: ms' =>
      try* st := create_datebase
                   (get_dbname (default EmptyString (dbname mtrc)) m) in
      exec update_storage m (fun s =>
             {| module := module s;
                metrics := <[i := {| metric := metric mtrc;
                                     dbname := dbname mtrc;
                                     store := st |}]> (metrics s) |}) in
      init_tables_from m (S i) ms'
  end.

Definition init_tables (m : GModule) : Db (Outcome unit) :=
  init_tables_from m 0 init_metrics.

(** [FOREACH_MODULE (idx, module_list)] *)
Fixpoint foreach_module (module_list : list GModule) : Db (Outcome unit) :=
  match module_list with
  | [] => returns tt
  | m :: rest =>
      exec update_storage m (fun s =>
             {| module := m; metrics := metrics s |}) in
      try init_tables m in
      foreach_module rest
  end.

(** An assignment to one of the five pointers to the global tables. *)
Definition set_ht_agent_keys (p : option MDB_dbi) : Db unit :=
  fun g => set_global_tables p (ht_agent_vals g) (ht_general_stats g)
             (ht_hostnames g) (ht_unique_keys g) g.
Definition set_ht_agent_vals (p : option MDB_dbi) : Db unit :=
  fun g => set_global_tables (ht_agent_keys g) p (ht_general_stats g)
             (ht_hostnames g) (ht_unique_keys g) g.
Definition set_ht_general_stats (p : option MDB_dbi) : Db unit :=
  fun g => set_global_tables (ht_agent_keys g) (ht_agent_vals g) p
             (ht_hostnames g) (ht_unique_keys g) g.
Definition set_ht_hostnames (p : option MDB_dbi) : Db unit :=
  fun g => set_global_tables (ht_agent_keys g) (ht_agent_vals g)
             (ht_general_stats g) p (ht_unique_keys g) g.
Definition set_ht_unique_keys (p : option MDB_dbi) : Db unit :=
  fun g => set_global_tables (ht_agent_keys g) (ht_agent_vals g)
             (ht_general_stats g) (ht_hostnames g) p g.

(** [module_list] is the list of enabled modules kept by the settings. *)
Definition ginit_storage (module_list : list GModule) : Db (Outcome unit) :=
  exec set_db_storage (new_storage TOTAL_MODULES) in
  try create_environment in
  try* ak := create_datebase "db_agent_keys" in
  exec set_ht_agent_keys ak in
  try* av := create_datebase "db_agent_vals" in
  exec set_ht_agent_vals av in
  try* gs := create_datebase "db_gen_stats" in
  exec set_ht_general_stats gs in
  try* hn := create_datebase "db_hostnames" in
  exec set_ht_hostnames hn in
  try* uk := create_datebase "db_unique_keys" in
  exec set_ht_unique_keys uk in
  foreach_module module_list.

(** The loop of [get_db] over [metrics[0 .. GSMTRC_TOTAL - 1]]. *)
Fixpoint get_db_loop (ms : list GLMDBStorageMetric) (mt : GSMetric)
  : option MDB_dbi :=
  match ms with
  | [] => None
  | mtrc :: ms' =>
      if decide (metric mtrc <> mt) then get_db_loop ms' mt else store mtrc
  end.

Definition get_db (g : Globals) (m : GModule) (mt : GSMetric)
  : option MDB_dbi :=
  match db_storage g with
  | None => None
  | Some st => get_db_loop (take GSMTRC_TOTAL (metrics (storage_at st m))) mt
  end.

(** [db_get_size] is only called with a handle that is not NULL. *)
Definition db_get_size (dbi : MDB_dbi) : Db Z := mdb_stat_entries dbi.

(** ** Typed accessors *)

Definition str_key (k : list byte) : MDB_val :=
  {| mv_data := k; mv_size := strlen k |}.
Definition int_key (k : Z) : MDB_val :=
  {| mv_data := int_bytes k; mv_size := sizeof_int |}.
Definition str_data (value : list byte) : MDB_val :=
  {| mv_data := value; mv_size := strlen value + 1 |}.
Definition int_data (value : Z) : MDB_val :=
  {| mv_data := int_bytes value; mv_size := sizeof_int |}.
Definition uint64_data (value : Z) : MDB_val :=
  {| mv_data := uint64_bytes value; mv_size := sizeof_uint64 |}.

Definition get_si32 (db : option MDB_dbi) (k : list byte) : Db Z :=
  match db with
  | None => ret (-1)
  | Some dbi =>
      let* r := mdb_get dbi (str_key k) in
      ret (match r with Some data => load_int data | None => -1 end)
  end.

Definition ins_si32 (db : option MDB_dbi) (k : list byte) (value : Z)
  : Db (Outcome Z) :=
  match db with
  | None => returns (-1)
  | Some dbi =>
      let* rc := mdb_put dbi (str_key k) (int_data value) in
      if negb (rc =? 0) then FATAL "Unable to access database path: %s"
      else returns 0
  end.

Definition ins_is32 (db : option MDB_dbi) (k : Z) (value : list byte)
  : Db (Outcome Z) :=
  match db with
  | None => returns (-1)
  | Some dbi =>
      let* rc := mdb_put dbi (int_key k) (str_data value) in
      if negb (rc =? 0) then FATAL "Unable to access database path: %s"
      else returns 0
  end.

Definition ins_si32_ai (db : option MDB_dbi) (key : list byte)
  : Db (Outcome Z) :=
  match db with
  | None => returns (-1)
  | Some dbi =>
      let* size := db_get_size dbi in
      let value := to_int (if 0 <? size then to_uint64 (size + 1) else 1) in
      try* r := ins_si32 db key value in
      if r =? -1 then returns (-1) else returns value
  end.

Definition ins_ii32 (db : option MDB_dbi) (k value : Z) : Db (Outcome Z) :=
  match db with
  | None => returns (-1)
  | Some dbi =>
      let* rc := mdb_put dbi (int_key k) (int_data value) in
      if negb (rc =? 0) then FATAL "Unable to access database path: %s"
      else returns 0
  end.

(** The sum is an [int]; it is written as the value it wraps to. *)
Definition inc_ii32 (db : option MDB_dbi) (k inc : Z) : Db (Outcome Z) :=
  match db with
  | None => returns (-1)
  | Some dbi =>
      let* r := mdb_get dbi (int_key k) in
      let ret_ := match r with
                  | Some data => to_int (load_int data + inc)
                  | None => inc
                  end in
      let* rc := mdb_put dbi (int_key k) (int_data ret_) in
      if negb (rc =? 0) then FATAL "Unable to access database path: %s"
      else returns 0
  end.

Definition inc_su64 (db : option MDB_dbi) (k : list byte) (inc : Z)
  : Db (Outcome Z) :=
  match db with
  | None => returns (-1)
  | Some dbi =>
      let* r := mdb_get dbi (str_key k) in
      let ret_ := match r with
                  | Some data => to_uint64 (load_uint64 data + inc)
                  | None => inc
                  end in
      let* rc := mdb_put dbi (str_key k) (uint64_data ret_) in
      if negb (rc =? 0) then FATAL "Unable to access database path: %s"
      else returns 0
  end.

Definition inc_iu64 (db : option MDB_dbi) (k inc : Z) : Db (Outcome Z) :=
  match db with
  | None => returns (-1)
  | Some dbi =>
      let* r := mdb_get dbi (int_key k) in
      let ret_ := match r with
                  | Some data => to_uint64 (load_uint64 data + inc)
                  | None => inc
                  end in
      let* rc := mdb_put dbi (int_key k) (uint64_data ret_) in
      if negb (rc =? 0) then FATAL "Unable to access database path: %s"
      else returns 0
  end.

(** [return -1] in a function returning [uint64_t]. *)
Definition get_iu64 (db : option MDB_dbi) (k : Z) : Db Z :=
  match db with
  | None => ret (to_uint64 (-1))
  | Some dbi =>
      let* r := mdb_get dbi (int_key k) in
      ret (match r with Some data => load_uint64 data | None => 0 end)
  end.

Definition ins_iu64 (db : option MDB_dbi) (k value : Z) : Db (Outcome Z) :=
  match db with
  | None => returns (-1)
  | Some dbi =>
      let* rc := mdb_put dbi (int_key k) (uint64_data value) in
      if negb (rc =? 0) then FATAL "Unable to access database path: %s"
      else returns 0
  end.

Definition get_ss32 (db : option MDB_dbi) (k : list byte)
  : Db (option (list byte)) :=
  match db with
  | None => ret None
  | Some dbi =>
      let* r := mdb_get dbi (str_key k) in
      ret (match r with Some data => Some (xstrdup data) | None => None end)
  end.

Definition get_is32 (db : option MDB_dbi) (k : Z) : Db (option (list byte)) :=
  match db with
  | None => ret None
  | Some dbi =>
      let* r := mdb_get dbi (int_key k) in
      ret (match r with Some data => Some (xstrdup data) | None => None end)
  end.

Definition get_ii32 (db : option MDB_dbi) (k : Z) : Db Z :=
  match db with
  | None => ret (-1)
  | Some dbi =>
      let* r := mdb_get dbi (int_key k) in
      ret (match r with Some data => load_int data | None => 0 end)
  end.

(** ** The public interface *)

(** Reading a file-scope variable. *)
Definition read {A} (f : Globals -> A) : Db A := fun g => (f g, g).

Definition db_insert_unique_key (key : list byte) : Db (Outcome Z) :=
  let* db := read ht_unique_keys in
  match db with
  | None => returns (-1)
  | Some _ =>
      let* value := get_si32 db key in
      if negb (value =? -1) then returns value else ins_si32_ai db key
  end.

Definition db_insert_agent_key (key : list byte) : Db (Outcome Z) :=
  let* db := read ht_agent_keys in
  match db with
  | None => returns (-1)
  | Some _ =>
      let* value := get_si32 db key in
      if negb (value =? -1) then returns value else ins_si32_ai db key
  end.

Definition db_insert_agent_value (key : Z) (value : list byte) : Db (Outcome Z) :=
  let* db := read ht_agent_vals in
  match db with
  | None => returns (-1)
  | Some _ => ins_is32 db key value
  end.

Definition db_insert_keymap (m : GModule) (key : list byte) : Db (Outcome Z) :=
  let* db := read (fun g => get_db g m MTRC_KEYMAP) in
  match db with
  | None => returns (-1)
  | Some _ =>
      let* value := get_si32 db key in
      if negb (value =? -1) then returns value else ins_si32_ai db key
  end.

Definition db_insert_uniqmap (m : GModule) (key : list byte) : Db (Outcome Z) :=
  let* db := read (fun g => get_db g m MTRC_UNIQMAP) in
  match db with
  | None => returns (-1)
  | Some _ =>
      let* value := get_si32 db key in
      if negb (value =? -1) then returns 0 else ins_si32_ai db key
  end.

Definition db_insert_datamap (m : GModule) (key : Z) (value : list byte)
  : Db (Outcome Z) :=
  let* db := read (fun g => get_db g m MTRC_DATAMAP) in
  match db with None => returns (-1) | Some _ => ins_is32 db key value end.

Definition db_insert_rootmap (m : GModule) (key : Z) (value : list byte)
  : Db (Outcome Z) :=
  let* db := read (fun g => get_db g m MTRC_ROOTMAP) in
  match db with None => returns (-1) | Some _ => ins_is32 db key value end.

Definition db_insert_root (m : GModule) (key value : Z) : Db (Outcome Z) :=
  let* db := read (fun g => get_db g m MTRC_ROOT) in
  match db with None => returns (-1) | Some _ => ins_ii32 db key value end.

Definition db_insert_hits (m : GModule) (key inc : Z) : Db (Outcome Z) :=
  let* db := read (fun g => get_db g m MTRC_HITS) in
  match db with None => returns (-1) | Some _ => inc_ii32 db key inc end.

Definition db_insert_visitor (m : GModule) (key inc : Z) : Db (Outcome Z) :=
  let* db := read (fun g => get_db g m MTRC_VISITORS) in
  match db with None => returns (-1) | Some _ => inc_ii32 db key inc end.

Definition db_insert_bw (m : GModule) (key inc : Z) : Db (Outcome Z) :=
  let* db := read (fun g => get_db g m MTRC_BW) in
  match db with None => returns (-1) | Some _ => inc_iu64 db key inc end.

Definition db_insert_cumts (m : GModule) (key inc : Z) : Db (Outcome Z) :=
  let* db := read (fun g => get_db g m MTRC_CUMTS) in
  match db with None => returns (-1) | Some _ => inc_iu64 db key inc end.

Definition db_insert_maxts (m : GModule) (key value : Z) : Db (Outcome Z) :=
  let* db := read (fun g => get_db g m MTRC_MAXTS) in
  match db with
  | None => returns (-1)
  | Some _ =>
      let* curvalue := get_iu64 db key in
      try (if curvalue <? value then ins_iu64 db key value else returns 0) in
      returns 0
  end.

Definition db_insert_method (m : GModule) (key : Z) (value : list byte)
  : Db (Outcome Z) :=
  let* db := read (fun g => get_db g m MTRC_METHODS) in
  match db with None => returns (-1) | Some _ => ins_is32 db key value end.

Definition db_insert_protocol (m : GModule) (key : Z) (value : list byte)
  : Db (Outcome Z) :=
  let* db := read (fun g => get_db g m MTRC_PROTOCOLS) in
  match db with None => returns (-1) | Some _ => ins_is32 db key value end.

Definition db_insert_meta_data (m : GModule) (key : list byte) (value : Z)
  : Db (Outcome Z) :=
  let* db := read (fun g => get_db g m MTRC_METADATA) in
  match db with None => returns (-1) | Some _ => inc_su64 db key value end.

Definition db_get_hostname (host : list byte) : Db (option (list byte)) :=
  let* db := read ht_hostnames in
  match db with None => ret None | Some _ => get_ss32 db host end.

Definition db_get_datamap (m : GModule) (key : Z) : Db (option (list byte)) :=
  let* db := read (fun g => get_db g m MTRC_DATAMAP) in
  match db with None => ret None | Some _ => get_is32 db key end.

Definition db_get_hits (m : GModule) (key : Z) : Db Z :=
  let* db := read (fun g => get_db g m MTRC_HITS) in
  match db with None => ret (-1) | Some _ => get_ii32 db key end.

Definition db_get_bw (m : GModule) (key : Z) : Db Z :=
  let* db := read (fun g => get_db g m MTRC_BW) in
  match db with None => ret 0 | Some _ => get_iu64 db key end.

Definition db_get_cumts (m : GModule) (key : Z) : Db Z :=
  let* db := read (fun g => get_db g m MTRC_CUMTS) in
  match db with None => ret 0 | Some _ => get_iu64 db key end.

Definition db_get_maxts (m : GModule) (key : Z) : Db Z :=
  let* db := read (fun g => get_db g m MTRC_MAXTS) in
  match db with None => ret 0 | Some _ => get_iu64 db key end.

Definition db_get_visitors (m : GModule) (key : Z) : Db Z :=
  let* db := read (fun g => get_db g m MTRC_VISITORS) in
  match db with None => ret (-1) | Some _ => get_ii32 db key end.

Definition db_get_method (m : GModule) (key : Z) : Db (option (list byte)) :=
  let* db := read (fun g => get_db g m MTRC_METHODS) in
  match db with None => ret None | Some _ => get_is32 db key end.

Definition db_get_protocol (m : GModule) (key : Z) : Db (option (list byte)) :=
  let* db := read (fun g => get_db g m MTRC_PROTOCOLS) in
  match db with None => ret None | Some _ => get_is32 db key end.

Definition db_get_root (m : GModule) (key : Z) : Db (option (list byte)) :=
  let* hashroot := read (fun g => get_db g m MTRC_ROOT) in
  let* hashrootmap := read (fun g => get_db g m MTRC_ROOTMAP) in
  match hashroot, hashrootmap with
  | Some _, Some _ =>
      let* root_key := get_ii32 hashroot key in
      if root_key =? 0 then ret None else get_is32 hashrootmap root_key
  | _, _ => ret None
  end.

(** The [size_t] result is returned as a [uint32_t]. *)
Definition db_get_size_uniqmap (m : GModule) : Db Z :=
  let* db := read (fun g => get_db g m MTRC_UNIQMAP) in
  match db with
  | None => ret 0
  | Some dbi => let* n := db_get_size dbi in ret (to_uint32 n)
  end.

Definition db_get_size_datamap (m : GModule) : Db Z :=
  let* db := read (fun g => get_db g m MTRC_DATAMAP) in
  match db with
  | None => ret 0
  | Some dbi => let* n := db_get_size dbi in ret (to_uint32 n)
  end.

(** ** Bulk export *)

(** Modelled from the spec: the raw-data holder of gstorage.h ("a
    self-contained array (module tag, count, typed items)"); the value of
    an item is a union of an [int] and a string pointer. *)
Inductive GRawDataType := INTEGER | STRING.

Inductive GRawDataValue :=
  | ivalue (v : Z)
  | svalue (s : list byte).

Record GRawDataItem := { key : Z; value : GRawDataValue }.

Record GRawData := {
  items : list GRawDataItem;
  raw_module : GModule;
  raw_idx : Z;
  raw_size : Z;
  raw_type : GRawDataType
}.

#[global] Instance GRawDataValue_eq_dec : EqDecision GRawDataValue.
Proof. solve_decision. Defined.
#[global] Instance GRawDataItem_eq_dec : EqDecision GRawDataItem.
Proof. solve_decision. Defined.

Definition zero_item : GRawDataItem := {| key := 0; value := ivalue 0 |}.

(** [new_grawdata_item] hands out [ht_size] zeroed items. *)
Definition init_new_raw_data (m : GModule) (ht_size : Z) (ty : GRawDataType)
  : GRawData :=
  {| items := replicate (Z.to_nat ht_size) zero_item; raw_module := m;
     raw_idx := 0; raw_size := ht_size; raw_type := ty |}.

(** One turn of the cursor loop: [items[idx]] is filled and [idx], an
    [int] in gstorage.h, moves on.  A write past the allocation,
    undefined in C, is dropped, and [idx++] at [INT_MAX], undefined as
    well, is taken to wrap as the conversions to [int] do. *)
Definition store_item (rd : GRawData) (it : GRawDataItem) : GRawData :=
  {| items := <[Z.to_nat (raw_idx rd) := it]> (items rd);
     raw_module := raw_module rd; raw_idx := to_int (raw_idx rd + 1);
     raw_size := raw_size rd; raw_type := raw_type rd |}.

Definition num_item (e : list byte * list byte) : GRawDataItem :=
  {| key := load_int (fst e); value := ivalue (load_int (snd e)) |}.
Definition str_item (e : list byte * list byte) : GRawDataItem :=
  {| key := load_int (fst e); value := svalue (snd e) |}.

Inductive GSortOrder := SORT_ASC | SORT_DESC.

Definition item_num (it : GRawDataItem) : Z :=
  match value it with ivalue v => v | svalue _ => 0 end.
Definition item_str (it : GRawDataItem) : list byte :=
  match value it with svalue s => xstrdup s | ivalue _ => [] end.

Definition num_le (o : GSortOrder) (a b : GRawDataItem) : Prop :=
  match o with
  | SORT_ASC => item_num a <= item_num b
  | SORT_DESC => item_num b <= item_num a
  end.

Definition str_le (o : GSortOrder) (a b : GRawDataItem) : Prop :=
  match o with
  | SORT_ASC => key_leb (item_str a) (item_str b) = true
  | SORT_DESC => key_leb (item_str b) (item_str a) = true
  end.

#[global] Instance num_le_dec o : RelDecision (num_le o).
Proof. intros a b. destruct o; simpl; apply _. Defined.
#[global] Instance str_le_dec o : RelDecision (str_le o).
Proof. intros a b. destruct o; simpl; apply _. Defined.

Definition sort_items (R : relation GRawDataItem) `{!RelDecision R}
    (rd : GRawData) (n : Z) : GRawData :=
  {| items := merge_sort R (take (Z.to_nat n) (items rd))
              ++ drop (Z.to_nat n) (items rd);
     raw_module := raw_module rd; raw_idx := raw_idx rd;
     raw_size := raw_size rd; raw_type := raw_type rd |}.

(** What the spec says of a sort of the first [n] items: "a
    type-appropriate sort (numeric-by-value or string-by-value) is applied
    to the in-memory array", "numeric ascending/descending as configured
    for numeric exports, lexicographic for string exports"; it works in
    place, on the items only. *)
Definition sorts (R : relation GRawDataItem)
    (f : GRawData -> Z -> GRawData) : Prop :=
  forall rd n, 0 <= n <= Z.of_nat (length (items rd)) ->
    raw_module (f rd n) = raw_module rd /\
    raw_idx (f rd n) = raw_idx rd /\
    raw_size (f rd n) = raw_size rd /\
    raw_type (f rd n) = raw_type rd /\
    Permutation (take (Z.to_nat n) (items (f rd n)))
                (take (Z.to_nat n) (items rd)) /\
    StronglySorted R (take (Z.to_nat n) (items (f rd n))) /\
    drop (Z.to_nat n) (items (f rd n)) = drop (Z.to_nat n) (items rd).

Section BulkExport.

(** Modelled from the spec: [sort_raw_num_data] and [sort_raw_str_data]
    of sort.c, which is not among the sources, are parameters of the
    export ("the sort algorithms applied to exported data" are out of
    scope: "assume a stable ordering primitive is supplied"). *)
Variable sort_raw_num_data sort_raw_str_data : GRawData -> Z -> GRawData.

Definition parse_raw_num_data (m : GModule) : Db (option GRawData) :=
  let* db := read (fun g => get_db g m MTRC_HITS) in
  match db with
  | None => ret None
  | Some dbi =>
      let* n := db_get_size dbi in
      let ht_size := to_uint32 n in
      let raw_data := init_new_raw_data m ht_size INTEGER in
      let* entries := read (fun g => cursor_scan (tbl g dbi)) in
      let raw_data :=
        fold_left (fun rd e => store_item rd (num_item e)) entries raw_data in
      ret (Some (sort_raw_num_data raw_data (raw_idx raw_data)))
  end.

Definition parse_raw_str_data (m : GModule) : Db (option GRawData) :=
  let* db := read (fun g => get_db g m MTRC_DATAMAP) in
  match db with
  | None => ret None
  | Some dbi =>
      let* n := db_get_size dbi in
      let ht_size := to_uint32 n in
      let raw_data := init_new_raw_data m ht_size STRING in
      let* entries := read (fun g => cursor_scan (tbl g dbi)) in
      let raw_data :=
        fold_left (fun rd e => store_item rd (str_item e)) entries raw_data in
      ret (Some (sort_raw_str_data raw_data (raw_idx raw_data)))
  end.

(** [db_storage->env] is read first: without storage the call does not
    return ([None]). *)
Definition db_parse_raw_data (m : GModule) (g : Globals)
  : option (option GRawData * Globals) :=
  match db_storage g with
  | None => None
  | Some _ =>
      Some (match m with
            | VISITORS => parse_raw_str_data m g
            | _ => parse_raw_num_data m g
            end)
  end.

End BulkExport.

(** ** Vocabulary of the statements *)

(** The bytes a string key is filed under. *)
Definition key_bytes (k : list byte) : list byte := span (str_key k).

(** A string key that the engine accepts: 1 to 511 bytes before the
    terminator. *)
Definition valid_key (k : list byte) : Prop :=
  (1 <= strlen k <= MDB_MAXKEYSIZE)%nat.

(** What a lookup by the string key [k] finds in the table of handle
    [d]. *)
Definition found (g : Globals) (d : MDB_dbi) (k : list byte)
  : option (list byte) :=
  fst (mdb_get d (str_key k) g).

(** The outcome of a writer whose [mdb_put] the engine has refused. *)
Definition put_refused : Outcome Z :=
  Exited "Unable to access database path: %s".

(** The globals once [v] is filed under [k] in the table of handle [d]. *)
Definition put (g : Globals) (d : MDB_dbi) (k v : list byte) : Globals :=
  set_tbl g d (<[k := v]> (tbl g d)).

(** The id [ins_si32_ai] computes for a table. *)
Definition next_id (t : table) : Z :=
  let size := Z.of_nat (size t) in
  to_int (if 0 <? size then to_uint64 (size + 1) else 1).

(** The four interning tables and the call that interns into each. *)
Inductive InternTable :=
  | KEYMAP_OF (m : GModule)
  | UNIQMAP_OF (m : GModule)
  | UNIQUE_KEYS
  | AGENT_KEYS.

Definition intern_db (g : Globals) (it : InternTable) : option MDB_dbi :=
  match it with
  | KEYMAP_OF m => get_db g m MTRC_KEYMAP
  | UNIQMAP_OF m => get_db g m MTRC_UNIQMAP
  | UNIQUE_KEYS => ht_unique_keys g
  | AGENT_KEYS => ht_agent_keys g
  end.

Definition db_intern (it : InternTable) (key : list byte) : Db (Outcome Z) :=
  match it with
  | KEYMAP_OF m => db_insert_keymap m key
  | UNIQMAP_OF m => db_insert_uniqmap m key
  | UNIQUE_KEYS => db_insert_unique_key key
  | AGENT_KEYS => db_insert_agent_key key
  end.

(** What a call returns for a key that has the id [v] already. *)
Definition present_result (it : InternTable) (v : Z) : Z :=
  match it with UNIQMAP_OF _ => 0 | _ => v end.

(** Calls made one after the other, results in order; a call that
    stops the process is the last. *)
Fixpoint serial {A} (f : A -> Db (Outcome Z)) (xs : list A)
  : Db (Outcome (list Z)) :=
  match xs with
  | [] => returns []
  | x :: xs' =>
      try* r := f x in
      try* rs := serial f xs' in
      returns (r :: rs)
  end.

Definition after {A} (m : Db A) (g : Globals) : Globals := snd (m g).
Definition result {A} (m : Db A) (g : Globals) : A := fst (m g).

Definition sum (ds : list Z) : Z := fold_right Z.add 0 ds.

(** Every running total of [p + d1 + ... + dn] is an [int]. *)
Fixpoint running_in_int (p : Z) (ds : list Z) : Prop :=
  match ds with
  | [] => True
  | d :: ds' => is_int (p + d) /\ running_in_int (p + d) ds'
  end.

(** The counter found under a key, 0 when there is none. *)
Definition stored_uint64 (t : table) (k : list byte) : Z :=
  match t !! k with Some data => load_uint64 data | None => 0 end.

(** The table [db_parse_raw_data] exports for a module, and the item an
    entry of it becomes. *)
Definition export_metric (m : GModule) : GSMetric :=
  match m with VISITORS => MTRC_DATAMAP | _ => MTRC_HITS end.
Definition export_type (m : GModule) : GRawDataType :=
  match m with VISITORS => STRING | _ => INTEGER end.
Definition export_value (m : GModule) (data : list byte) : GRawDataValue :=
  match m with
  | VISITORS => svalue data
  | _ => ivalue (load_int data)
  end.
Definition export_item (m : GModule) (e : list byte * list byte)
  : GRawDataItem :=
  {| key := load_int (fst e); value := export_value m (snd e) |}.
Definition export_le (num_order str_order : GSortOrder) (m : GModule)
  : relation GRawDataItem :=
  match m with VISITORS => str_le str_order | _ => num_le num_order end.

(** The answers of the per-module accessors when the module's tables do
    not resolve, and of the global ones when theirs do not. *)
Definition module_unavailable (g : Globals) (m : GModule) : Prop :=
  (forall k, db_insert_keymap m k g = (Returned (-1), g)) /\
  (forall k, db_insert_uniqmap m k g = (Returned (-1), g)) /\
  (forall k v, db_insert_datamap m k v g = (Returned (-1), g)) /\
  (forall k v, db_insert_rootmap m k v g = (Returned (-1), g)) /\
  (forall k v, db_insert_root m k v g = (Returned (-1), g)) /\
  (forall k v, db_insert_hits m k v g = (Returned (-1), g)) /\
  (forall k v, db_insert_visitor m k v g = (Returned (-1), g)) /\
  (forall k v, db_insert_bw m k v g = (Returned (-1), g)) /\
  (forall k v, db_insert_cumts m k v g = (Returned (-1), g)) /\
  (forall k v, db_insert_maxts m k v g = (Returned (-1), g)) /\
  (forall k v, db_insert_method m k v g = (Returned (-1), g)) /\
  (forall k v, db_insert_protocol m k v g = (Returned (-1), g)) /\
  (forall k v, db_insert_meta_data m k v g = (Returned (-1), g)) /\
  (forall k, db_get_hits m k g = (-1, g)) /\
  (forall k, db_get_visitors m k g = (-1, g)) /\
  (forall k, db_get_datamap m k g = (None, g)) /\
  (forall k, db_get_method m k g = (None, g)) /\
  (forall k, db_get_protocol m k g = (None, g)) /\
  (forall k, db_get_root m k g = (None, g)) /\
  (forall k, db_get_bw m k g = (0, g)) /\
  (forall k, db_get_cumts m k g = (0, g)) /\
  (forall k, db_get_maxts m k g = (0, g)) /\
  db_get_size_uniqmap m g = (0, g).

Definition global_unavailable (g : Globals) : Prop :=
  (forall k, db_insert_unique_key k g = (Returned (-1), g)) /\
  (forall k, db_insert_agent_key k g = (Returned (-1), g)) /\
  (forall k v, db_insert_agent_value k v g = (Returned (-1), g)) /\
  (forall h, db_get_hostname h g = (None, g)).

(** The ids of a table lie between 1 and its size. *)
Definition ids_dense (t : table) : Prop :=
  forall k data, t !! k = Some data -> 1 <= load_int data <= Z.of_nat (size t).

(** The key [k] has the id [id] in the table of handle [d]. *)
Definition has_id (g : Globals) (d : MDB_dbi) (k : list byte) (id : Z) : Prop :=
  exists data, found g d k = Some data /\ load_int data = id.

(** A call of any of the four interning functions. *)
Definition intern_call (c : InternTable * list byte) : Db (Outcome Z) :=
  db_intern (fst c) (snd c).

(** The int found under a key, 0 when there is none. *)
Definition stored_int (t : table) (k : list byte) : Z :=
  match t !! k with Some data => load_int data | None => 0 end.

(** The element of [db_storage] that belongs to a module. *)
Definition storage_of (g : Globals) (m : GModule) : option GLMDBStorage :=
  match db_storage g with Some st => Some (storage_at st m) | None => None end.

#[global] Instance export_le_dec no so m : RelDecision (export_le no so m).
Proof. destruct m; cbn [export_le]; apply _. Defined.

(** [ginit_storage] after the allocation of [db_storage]. *)
Definition open_tables (ml : list GModule) : Db (Outcome unit) :=
  try create_environment in
  try* ak := create_datebase "db_agent_keys" in
  exec set_ht_agent_keys ak in
  try* av := create_datebase "db_agent_vals" in
  exec set_ht_agent_vals av in
  try* gs := create_datebase "db_gen_stats" in
  exec set_ht_general_stats gs in
  try* hn := create_datebase "db_hostnames" in
  exec set_ht_hostnames hn in
  try* uk := create_datebase "db_unique_keys" in
  exec set_ht_unique_keys uk in
  foreach_module ml.

(** Storage initialised for three modules over a directory that held
    nothing: nothing is stored yet. *)
Definition started : Globals :=
  after (ginit_storage [VISITORS; REQUESTS; HOSTS]) globals0.

(** ** Vocabulary of the further properties *)

(** The calls of the interface that write. *)
Inductive WriteCall :=
  | W_unique_key (key : list byte)
  | W_agent_key (key : list byte)
  | W_agent_value (key : Z) (value : list byte)
  | W_keymap (m : GModule) (key : list byte)
  | W_uniqmap (m : GModule) (key : list byte)
  | W_datamap (m : GModule) (key : Z) (value : list byte)
  | W_rootmap (m : GModule) (key : Z) (value : list byte)
  | W_root (m : GModule) (key value : Z)
  | W_hits (m : GModule) (key inc : Z)
  | W_visitor (m : GModule) (key inc : Z)
  | W_bw (m : GModule) (key inc : Z)
  | W_cumts (m : GModule) (key inc : Z)
  | W_maxts (m : GModule) (key value : Z)
  | W_method (m : GModule) (key : Z) (value : list byte)
  | W_protocol (m : GModule) (key : Z) (value : list byte)
  | W_meta_data (m : GModule) (key : list byte) (value : Z).

Definition run_write (w : WriteCall) : Db (Outcome Z) :=
  match w with
  | W_unique_key k => db_insert_unique_key k
  | W_agent_key k => db_insert_agent_key k
  | W_agent_value k v => db_insert_agent_value k v
  | W_keymap m k => db_insert_keymap m k
  | W_uniqmap m k => db_insert_uniqmap m k
  | W_datamap m k v => db_insert_datamap m k v
  | W_rootmap m k v => db_insert_rootmap m k v
  | W_root m k v => db_insert_root m k v
  | W_hits m k i => db_insert_hits m k i
  | W_visitor m k i => db_insert_visitor m k i
  | W_bw m k i => db_insert_bw m k i
  | W_cumts m k i => db_insert_cumts m k i
  | W_maxts m k v => db_insert_maxts m k v
  | W_method m k v => db_insert_method m k v
  | W_protocol m k v => db_insert_protocol m k v
  | W_meta_data m k v => db_insert_meta_data m k v
  end.

(** The table a write call resolves, and the key span it passes. *)
Definition write_db (g : Globals) (w : WriteCall) : option MDB_dbi :=
  match w with
  | W_unique_key _ => ht_unique_keys g
  | W_agent_key _ => ht_agent_keys g
  | W_agent_value _ _ => ht_agent_vals g
  | W_keymap m _ => get_db g m MTRC_KEYMAP
  | W_uniqmap m _ => get_db g m MTRC_UNIQMAP
  | W_datamap m _ _ => get_db g m MTRC_DATAMAP
  | W_rootmap m _ _ => get_db g m MTRC_ROOTMAP
  | W_root m _ _ => get_db g m MTRC_ROOT
  | W_hits m _ _ => get_db g m MTRC_HITS
  | W_visitor m _ _ => get_db g m MTRC_VISITORS
  | W_bw m _ _ => get_db g m MTRC_BW
  | W_cumts m _ _ => get_db g m MTRC_CUMTS
  | W_maxts m _ _ => get_db g m MTRC_MAXTS
  | W_method m _ _ => get_db g m MTRC_METHODS
  | W_protocol m _ _ => get_db g m MTRC_PROTOCOLS
  | W_meta_data m _ _ => get_db g m MTRC_METADATA
  end.

Definition write_key (w : WriteCall) : list byte :=
  match w with
  | W_unique_key k | W_agent_key k | W_keymap _ k | W_uniqmap _ k
  | W_meta_data _ k _ => key_bytes k
  | W_agent_value k _ | W_datamap _ k _ | W_rootmap _ k _ | W_root _ k _
  | W_hits _ k _ | W_visitor _ k _ | W_bw _ k _ | W_cumts _ k _
  | W_maxts _ k _ | W_method _ k _ | W_protocol _ k _ => int_bytes k
  end.

(** The pointers of the registry: [db_storage] and the five pointers to
    the global tables. *)
Definition registry (g : Globals) :=
  (db_storage g, ht_agent_keys g, ht_agent_vals g, ht_general_stats g,
   ht_hostnames g, ht_unique_keys g).

(** The position of a metric in the enumeration. *)
Definition metric_index (mt : GSMetric) : nat :=
  match mt with
  | MTRC_KEYMAP => 0 | MTRC_ROOTMAP => 1 | MTRC_DATAMAP => 2
  | MTRC_UNIQMAP => 3 | MTRC_ROOT => 4 | MTRC_HITS => 5 | MTRC_VISITORS => 6
  | MTRC_BW => 7 | MTRC_CUMTS => 8 | MTRC_MAXTS => 9 | MTRC_METHODS => 10
  | MTRC_PROTOCOLS => 11 | MTRC_AGENTS => 12 | MTRC_METADATA => 13
  end%nat.

(** What [init_tables] leaves in [metrics] when the first table it opens
    gets the handle [n]. *)
Definition inited_metrics (n : nat) : list GLMDBStorageMetric :=
  imap (fun j mtrc => {| metric := metric mtrc; dbname := dbname mtrc;
                         store := Some (N.of_nat (n + j)) |}) init_metrics.

(** The environment in use was opened over the directory [dir], allows
    [LMDB_ENV_MAX_DBS] named tables and has the tables [names] open, each
    holding what the directory held under its name. *)
Definition env_opened (g : Globals) (dir : gmap string table)
    (names : list string) : Prop :=
  env_names g = names /\ env_maxdbs g = LMDB_ENV_MAX_DBS /\
  env_dir g = dir /\
  (forall i name, names !! i = Some name ->
     tbl g (dbi_at i) = default ∅ (dir !! name)).

(** The environment part of the globals. *)
Definition env_of (g : Globals) :=
  (env_names g, env_maxdbs g, env_dbs g, env_dir g).

(** The five pointers to the global tables. *)
Definition global_tables (g : Globals) :=
  (ht_agent_keys g, ht_agent_vals g, ht_general_stats g, ht_hostnames g,
   ht_unique_keys g).

(** No two keys of a table have the same id, and every number from 1 to
    the size of the table is the id of a key. *)
Definition ids_bijective (t : table) : Prop :=
  (forall k k' data data', t !! k = Some data -> t !! k' = Some data' ->
     load_int data = load_int data' -> k = k') /\
  (forall i, 1 <= i <= Z.of_nat (size t) ->
     exists k data, t !! k = Some data /\ load_int data = i).

(** The names of the five global tables (mdb.h) and the names that
    [init_tables] builds for a module. *)
Definition global_names : list string :=
  ["db_agent_keys"; "db_agent_vals"; "db_gen_stats"; "db_hostnames";
   "db_unique_keys"]%string.

Definition module_names (m : GModule) : list string :=
  map (fun mtrc => get_dbname (default EmptyString (dbname mtrc)) m)
    init_metrics.

Definition all_modules : list GModule :=
  [VISITORS; REQUESTS; REQUESTS_STATIC; NOT_FOUND; HOSTS; OS; BROWSERS;
   VISIT_TIMES; VIRTUAL_HOSTS; REFERRERS; REFERRING_SITES; KEYPHRASES;
   STATUS_CODES; REMOTE_USER].

(** The names that the rest of the loop of [init_tables] opens. *)
Definition names_of (m : GModule) (ms : list GLMDBStorageMetric)
  : list string :=
  map (fun mtrc => get_dbname (default EmptyString (dbname mtrc)) m) ms.

(** The name of the table of a metric of a module. *)
Definition table_name (m : GModule) (mt : GSMetric) : string :=
  default EmptyString (module_names m !! metric_index mt).

(** The raw data of a table without entries. *)
Definition empty_raw_data (m : GModule) : GRawData :=
  {| items := []; raw_module := m; raw_idx := 0; raw_size := 0;
     raw_type := export_type m |}.

(** The (module, metric) pair whose table a write call resolves; none
    for the calls on the global tables. *)
Definition write_target (w : WriteCall) : option (GModule * GSMetric) :=
  match w with
  | W_unique_key _ | W_agent_key _ | W_agent_value _ _ => None
  | W_keymap m _ => Some (m, MTRC_KEYMAP)
  | W_uniqmap m _ => Some (m, MTRC_UNIQMAP)
  | W_datamap m _ _ => Some (m, MTRC_DATAMAP)
  | W_rootmap m _ _ => Some (m, MTRC_ROOTMAP)
  | W_root m _ _ => Some (m, MTRC_ROOT)
  | W_hits m _ _ => Some (m, MTRC_HITS)
  | W_visitor m _ _ => Some (m, MTRC_VISITORS)
  | W_bw m _ _ => Some (m, MTRC_BW)
  | W_cumts m _ _ => Some (m, MTRC_CUMTS)
  | W_maxts m _ _ => Some (m, MTRC_MAXTS)
  | W_method m _ _ => Some (m, MTRC_METHODS)
  | W_protocol m _ _ => Some (m, MTRC_PROTOCOLS)
  | W_meta_data m _ _ => Some (m, MTRC_METADATA)
  end.

(** The globals after [ginit_storage], in a process started over the
    directory [dir], and any write calls. *)
Definition running (dir : gmap string table) (ml : list GModule)
    (ws : list WriteCall) : Globals :=
  after (serial run_write ws) (after (ginit_storage ml) (boot dir)).

(** A computation keeps [P] when [P] holds after it wherever it held
    before, whether it returns or stops. *)
Definition keeps {A} (P : Globals -> Prop) (a : Db A) : Prop :=
  forall g, P g -> P (after a g).

(** ** Tables too large to write out *)

(** A family of different string keys: the binary digits of a positive
    number as the characters '0' and '1', lowest digit first.  The key of
    [i] is short: a key of at most 33 bytes for [i] below 2^32. *)
Fixpoint digits (p : positive) : list byte :=
  match p with
  | xH => [x31]
  | xO q => x30 :: digits q
  | xI q => x31 :: digits q
  end.

Definition digit_key (i : nat) : list byte :=
  digits (Pos.of_succ_nat i) ++ [x00].

Definition digit_keys (n : nat) : list (list byte) :=
  map digit_key (seq 0 n).

(** The hits table of a run that has counted one hit under each of [n]
    int keys: 0, 1, and so on, the keys from 2^31 on being those whose
    four bytes are the same, INT_MIN and up. *)
Definition one_hit_each (n : nat) : table :=
  list_to_map
    (map (fun i : nat => (int_bytes (Z.of_nat i), int_bytes 1)) (seq 0 n)).

(** * Properties *)

(** ** Codec *)

Lemma Z_of_byte_of_Z (z : Z) : 0 <= z < 256 -> Z_of_byte (byte_of_Z z) = z.
Proof.
  intros Hz. unfold Z_of_byte, byte_of_Z, byte_of_N.
  destruct (Byte.of_N (Z.to_N z)) as [b|] eqn:E.
  - apply Byte.to_of_N in E. rewrite E. lia.
  - apply Byte.of_N_None_iff in E. lia.
Qed.

Lemma Z_of_byte_range (b : byte) : 0 <= Z_of_byte b < 256.
Proof.
  unfold Z_of_byte. pose proof (Byte.to_N_bounded b). lia.
Qed.

Lemma length_le_bytes (n : nat) (z : Z) : length (le_bytes n z) = n.
Proof. revert z. induction n as [|n IH]; intros z; simpl; [|rewrite IH]; reflexivity. Qed.

Lemma le_value_le_bytes (n : nat) (z : Z) :
  le_value (le_bytes n z) = z mod 256 ^ Z.of_nat n.
Proof.
  revert z. induction n as [|n IH]; intros z.
  - simpl. now rewrite Z.mod_1_r.
  - cbn [le_bytes le_value]. rewrite IH.
    rewrite Z_of_byte_of_Z by (apply Z.mod_pos_bound; lia).
    rewrite Nat2Z.inj_succ, Z.pow_succ_r by lia.
    rewrite Z.rem_mul_r by lia. lia.
Qed.

Lemma le_value_range (bs : list byte) :
  0 <= le_value bs < 256 ^ Z.of_nat (length bs).
Proof.
  induction bs as [|b bs IH].
  - simpl. lia.
  - cbn [le_value length]. pose proof (Z_of_byte_range b).
    rewrite Nat2Z.inj_succ, Z.pow_succ_r by lia. lia.
Qed.

Lemma to_int_id (z : Z) : is_int z -> to_int z = z.
Proof.
  unfold is_int, INT_MIN, INT_MAX, to_int. intros Hz.
  rewrite Z.mod_small; lia.
Qed.

Lemma to_int_range (z : Z) : is_int (to_int z).
Proof.
  unfold is_int, INT_MIN, INT_MAX, to_int.
  pose proof (Z.mod_pos_bound (z + 2 ^ 31) (2 ^ 32)). lia.
Qed.

Lemma to_int_to_uint32 (z : Z) : to_int (to_uint32 z) = to_int z.
Proof.
  unfold to_int, to_uint32.
  rewrite Zplus_mod_idemp_l. reflexivity.
Qed.

Lemma to_int_to_uint64 (z : Z) : to_int (to_uint64 z) = to_int z.
Proof.
  unfold to_int, to_uint64. f_equal.
  rewrite (Z.mod_eq z (2 ^ 64)) by lia.
  replace (z - 2 ^ 64 * (z / 2 ^ 64) + 2 ^ 31)
    with (z + 2 ^ 31 + (- (2 ^ 32 * (z / 2 ^ 64))) * 2 ^ 32) by lia.
  apply Z_mod_plus_full.
Qed.

Lemma load_int_bytes (v : Z) : load_int (int_bytes v) = to_int v.
Proof.
  unfold load_int, int_bytes.
  rewrite take_ge by (rewrite length_le_bytes; lia).
  rewrite le_value_le_bytes. unfold sizeof_int.
  change (256 ^ Z.of_nat 4) with (2 ^ 32).
  unfold to_uint32. rewrite Z.mod_mod by lia.
  apply to_int_to_uint32.
Qed.

Lemma load_uint64_bytes (v : Z) : load_uint64 (uint64_bytes v) = to_uint64 v.
Proof.
  unfold load_uint64, uint64_bytes.
  rewrite take_ge by (rewrite length_le_bytes; lia).
  rewrite le_value_le_bytes. unfold sizeof_uint64.
  change (256 ^ Z.of_nat 8) with (2 ^ 64).
  unfold to_uint64. now rewrite Z.mod_mod by lia.
Qed.

Lemma load_uint64_range (p : list byte) : is_uint64 (load_uint64 p).
Proof.
  unfold load_uint64, is_uint64.
  pose proof (le_value_range (take sizeof_uint64 p)) as H.
  assert (length (take sizeof_uint64 p) <= 8)%nat
    by (rewrite length_take; unfold sizeof_uint64; lia).
  assert (256 ^ Z.of_nat (length (take sizeof_uint64 p)) <= 256 ^ 8)
    by (apply Z.pow_le_mono_r; lia).
  change (2 ^ 64) with (256 ^ 8). lia.
Qed.

Lemma to_uint64_id (z : Z) : is_uint64 z -> to_uint64 z = z.
Proof. unfold is_uint64, to_uint64. intros H. now apply Z.mod_small. Qed.

Lemma span_int_key (k : Z) : span (int_key k) = int_bytes k.
Proof.
  unfold span, int_key; cbn [mv_size mv_data]. apply take_ge.
  unfold int_bytes. rewrite length_le_bytes. lia.
Qed.

Lemma span_int_data (v : Z) : span (int_data v) = int_bytes v.
Proof. apply span_int_key. Qed.

Lemma span_uint64_data (v : Z) : span (uint64_data v) = uint64_bytes v.
Proof.
  unfold span, uint64_data; cbn [mv_size mv_data]. apply take_ge.
  unfold uint64_bytes. rewrite length_le_bytes. lia.
Qed.

(** ** The globals and the tables *)

Lemma tbl_set_tbl (g : Globals) (d : MDB_dbi) (t : table) :
  tbl (set_tbl g d t) d = t.
Proof. unfold tbl, set_tbl; simpl. now rewrite lookup_insert_eq. Qed.

Lemma tbl_set_tbl_ne (g : Globals) (d d' : MDB_dbi) (t : table) :
  d <> d' -> tbl (set_tbl g d t) d' = tbl g d'.
Proof. intros Hd. unfold tbl, set_tbl; simpl. now rewrite lookup_insert_ne. Qed.

Lemma set_tbl_twice (g : Globals) (d : MDB_dbi) (t t' : table) :
  set_tbl (set_tbl g d t) d t' = set_tbl g d t'.
Proof. unfold set_tbl, set_env; simpl. now rewrite insert_insert_eq. Qed.

Lemma get_db_set_tbl (g : Globals) (d : MDB_dbi) (t : table) m mt :
  get_db (set_tbl g d t) m mt = get_db g m mt.
Proof. reflexivity. Qed.

Lemma intern_db_set_tbl (g : Globals) (d : MDB_dbi) (t : table) it :
  intern_db (set_tbl g d t) it = intern_db g it.
Proof. destruct it; reflexivity. Qed.

Lemma tbl_put (g : Globals) (d : MDB_dbi) (k v : list byte) :
  tbl (put g d k v) d = <[k := v]> (tbl g d).
Proof. apply tbl_set_tbl. Qed.

Lemma get_si32_eq (d : MDB_dbi) (k : list byte) (g : Globals) :
  get_si32 (Some d) k g =
  (match found g d k with
   | Some data => load_int data
   | None => -1
   end, g).
Proof. reflexivity. Qed.

(** The engine takes every int key, and a string key when it is valid. *)
Lemma key_size_ok_int (k : Z) : key_size_ok (mv_size (int_key k)) = true.
Proof. reflexivity. Qed.

Lemma key_size_ok_valid (k : list byte) :
  valid_key k -> key_size_ok (mv_size (str_key k)) = true.
Proof.
  unfold valid_key, key_size_ok. cbn [str_key mv_size]. intros [H1 H2].
  apply andb_true_intro. split.
  - apply Nat.ltb_lt. lia.
  - now apply Nat.leb_le.
Qed.

Lemma found_valid (g : Globals) (d : MDB_dbi) (k : list byte) :
  valid_key k -> found g d k = tbl g d !! key_bytes k.
Proof.
  intros Hv. unfold found, mdb_get. cbn [fst].
  now rewrite (key_size_ok_valid k Hv).
Qed.

Lemma found_Some (g : Globals) (d : MDB_dbi) (k data : list byte) :
  found g d k = Some data <->
  valid_key k /\ tbl g d !! key_bytes k = Some data.
Proof.
  unfold found, mdb_get, valid_key, key_size_ok. cbn [fst str_key mv_size].
  destruct (0 <? strlen k)%nat eqn:E1; destruct (strlen k <=? MDB_MAXKEYSIZE)%nat eqn:E2;
    cbn [andb];
    rewrite ?Nat.ltb_lt, ?Nat.ltb_ge, ?Nat.leb_le, ?Nat.leb_gt in *;
    (split; [intros H | intros [H1 H2]]);
    try discriminate; try lia; try (split; [lia | exact H]); try exact H2.
Qed.

Lemma key_size_ok_invalid (k : list byte) :
  ~ valid_key k -> key_size_ok (mv_size (str_key k)) = false.
Proof.
  unfold valid_key, key_size_ok. cbn [str_key mv_size]. intros H.
  apply andb_false_iff.
  destruct (0 <? strlen k)%nat eqn:E1; [right|now left].
  apply Nat.ltb_lt in E1. apply Nat.leb_gt. lia.
Qed.

#[global] Instance valid_key_dec (k : list byte) : Decision (valid_key k).
Proof. unfold valid_key. apply _. Defined.

Lemma found_invalid (g : Globals) (d : MDB_dbi) (k : list byte) :
  ~ valid_key k -> found g d k = None.
Proof.
  intros Hv. unfold found, mdb_get. cbn [fst].
  now rewrite (key_size_ok_invalid k Hv).
Qed.

Lemma mdb_put_int_key (d : MDB_dbi) (k : Z) (data : MDB_val) (g : Globals) :
  mdb_put d (int_key k) data g
  = (0, put g d (int_bytes k) (span data)).
Proof. unfold mdb_put, put. now rewrite key_size_ok_int, span_int_key. Qed.

Lemma ins_si32_eq (d : MDB_dbi) (k : list byte) (v : Z) (g : Globals) :
  ins_si32 (Some d) k v g =
  if key_size_ok (mv_size (str_key k))
  then (Returned 0, put g d (key_bytes k) (int_bytes v))
  else (put_refused, g).
Proof.
  unfold ins_si32, mdb_put, bind, put.
  destruct (key_size_ok (mv_size (str_key k))).
  - now rewrite span_int_data.
  - reflexivity.
Qed.

Lemma ins_si32_ai_eq (d : MDB_dbi) (k : list byte) (g : Globals) :
  ins_si32_ai (Some d) k g =
  if key_size_ok (mv_size (str_key k))
  then (Returned (next_id (tbl g d)),
        put g d (key_bytes k) (int_bytes (next_id (tbl g d))))
  else (put_refused, g).
Proof.
  unfold ins_si32_ai, and_then, db_get_size, mdb_stat_entries, bind.
  rewrite ins_si32_eq.
  destruct (key_size_ok (mv_size (str_key k))); reflexivity.
Qed.

Lemma db_intern_eq (it : InternTable) (g : Globals) (d : MDB_dbi)
    (k : list byte) :
  intern_db g it = Some d ->
  db_intern it k g =
  let fresh :=
    if key_size_ok (mv_size (str_key k))
    then (Returned (next_id (tbl g d)),
          put g d (key_bytes k) (int_bytes (next_id (tbl g d))))
    else (put_refused, g) in
  match found g d k with
  | Some data =>
      if load_int data =? -1 then fresh
      else (Returned (present_result it (load_int data)), g)
  | None => fresh
  end.
Proof.
  intros Hd.
  destruct it; simpl in Hd; cbn [db_intern];
    unfold db_insert_keymap, db_insert_uniqmap, db_insert_unique_key,
      db_insert_agent_key, bind, read; rewrite Hd;
    rewrite get_si32_eq; cbv zeta;
    (destruct (found g d k) as [data|] eqn:E;
     [ destruct (load_int data =? -1) eqn:E1; cbn [negb];
       [ apply ins_si32_ai_eq | reflexivity ]
     | change (-1 =? -1) with true; cbn [negb]; apply ins_si32_ai_eq ]).
Qed.

Lemma db_intern_none (it : InternTable) (g : Globals) (k : list byte) :
  intern_db g it = None -> db_intern it k g = (Returned (-1), g).
Proof.
  intros Hd.
  destruct it; simpl in Hd; cbn [db_intern];
    unfold db_insert_keymap, db_insert_uniqmap, db_insert_unique_key,
      db_insert_agent_key, bind, read; rewrite Hd; reflexivity.
Qed.

Lemma next_id_small (t : table) :
  Z.of_nat (size t) < INT_MAX -> next_id t = Z.of_nat (size t) + 1.
Proof.
  unfold next_id, INT_MAX. cbv zeta. intros Hs.
  destruct (0 <? Z.of_nat (size t)) eqn:E.
  - rewrite to_int_to_uint64. apply to_int_id.
    unfold is_int, INT_MIN, INT_MAX. lia.
  - apply Z.ltb_ge in E. rewrite to_int_id by (unfold is_int, INT_MIN, INT_MAX; lia).
    lia.
Qed.

(** Past that size the sum no longer fits the [int] it is assigned to. *)
Lemma next_id_INT_MAX (t : table) :
  Z.of_nat (size t) = INT_MAX -> next_id t = INT_MIN.
Proof.
  unfold next_id. cbv zeta. intros ->. reflexivity.
Qed.

Lemma db_intern_present (it : InternTable) (g : Globals) (d : MDB_dbi)
    (k data : list byte) :
  intern_db g it = Some d ->
  found g d k = Some data -> load_int data <> -1 ->
  db_intern it k g = (Returned (present_result it (load_int data)), g).
Proof.
  intros Hd Hk Hv. rewrite (db_intern_eq it g d k Hd). cbv zeta.
  rewrite Hk. apply Z.eqb_neq in Hv. now rewrite Hv.
Qed.

Lemma db_intern_absent (it : InternTable) (g : Globals) (d : MDB_dbi)
    (k : list byte) :
  intern_db g it = Some d ->
  tbl g d !! key_bytes k = None -> valid_key k ->
  db_intern it k g =
  (Returned (next_id (tbl g d)),
   put g d (key_bytes k) (int_bytes (next_id (tbl g d)))).
Proof.
  intros Hd Hk Hv. rewrite (db_intern_eq it g d k Hd). cbv zeta.
  now rewrite (found_valid g d k Hv), Hk, key_size_ok_valid.
Qed.

Lemma db_intern_refused (it : InternTable) (g : Globals) (d : MDB_dbi)
    (k : list byte) :
  intern_db g it = Some d ->
  result (get_si32 (Some d) k) g = -1 -> ~ valid_key k ->
  db_intern it k g = (put_refused, g).
Proof.
  intros Hd Hno Hv. unfold result in Hno. rewrite get_si32_eq in Hno.
  cbn [fst] in Hno. rewrite (db_intern_eq it g d k Hd). cbv zeta.
  rewrite key_size_ok_invalid by exact Hv.
  destruct (found g d k) as [data|]; [|reflexivity].
  now rewrite Hno.
Qed.

(** What an interning call does: it returns and changes nothing, or it
    stops and changes nothing, or it files a valid key that had no id
    under the next id. *)
Lemma db_intern_cases (it : InternTable) (k : list byte) (g : Globals) :
  (exists r, db_intern it k g = (r, g)) \/
  (exists d, intern_db g it = Some d /\ valid_key k /\
     result (get_si32 (Some d) k) g = -1 /\
     db_intern it k g =
     (Returned (next_id (tbl g d)),
      put g d (key_bytes k) (int_bytes (next_id (tbl g d))))).
Proof.
  destruct (intern_db g it) as [d|] eqn:Hd.
  2: { left. eexists. now apply db_intern_none. }
  assert (Hfresh : result (get_si32 (Some d) k) g = -1 ->
            (exists r, db_intern it k g = (r, g)) \/
            (exists d0, Some d = Some d0 /\ valid_key k /\
               result (get_si32 (Some d0) k) g = -1 /\
               db_intern it k g =
               (Returned (next_id (tbl g d0)),
                put g d0 (key_bytes k) (int_bytes (next_id (tbl g d0)))))).
  { intros Hno. destruct (decide (valid_key k)) as [Hv|Hv].
    - right. exists d. split; [reflexivity|]. split; [exact Hv|].
      split; [exact Hno|].
      unfold result in Hno. rewrite get_si32_eq in Hno. cbn [fst] in Hno.
      rewrite (db_intern_eq it g d k Hd). cbv zeta.
      rewrite key_size_ok_valid by exact Hv.
      destruct (found g d k) as [data|]; [|reflexivity].
      now rewrite Hno.
    - left. eexists. exact (db_intern_refused it g d k Hd Hno Hv). }
  destruct (found g d k) as [data|] eqn:Hk.
  - destruct (decide (load_int data = -1)) as [E|E].
    + apply Hfresh. unfold result. rewrite get_si32_eq. cbn [fst].
      now rewrite Hk.
    + left. eexists. now apply (db_intern_present it g d k data).
  - apply Hfresh. unfold result. rewrite get_si32_eq. cbn [fst].
    now rewrite Hk.
Qed.

Lemma intern_db_after (it it' : InternTable) (k : list byte) (g : Globals) :
  intern_db (after (db_intern it' k) g) it = intern_db g it.
Proof.
  unfold after.
  destruct (db_intern_cases it' k g) as [[r E]|(d & _ & _ & _ & E)];
    rewrite E; cbn [snd]; [reflexivity | apply intern_db_set_tbl].
Qed.

(** ** Insert-if-absent on the interning tables *)

(** C1, as amended: for each of db_insert_keymap, db_insert_uniqmap,
    db_insert_unique_key and db_insert_agent_key, a key that is present
    (the lookup finds it) with a stored value other than -1 leaves the
    globals (hence every table) as they were, and the call returns the
    stored value, except db_insert_uniqmap, which returns 0; a call
    changes something only when the lookup has reported no id for the
    key. *)
Theorem intern_present_key_untouched (it : InternTable) (g : Globals)
    (d : MDB_dbi) (k : list byte) :
  intern_db g it = Some d ->
  (forall data, found g d k = Some data -> load_int data <> -1 ->
     db_intern it k g = (Returned (present_result it (load_int data)), g)) /\
  (after (db_intern it k) g <> g ->
     result (get_si32 (Some d) k) g = -1).
Proof.
  intros Hd. split.
  - intros data Hk Hv. now apply (db_intern_present it g d k data).
  - intros Hch.
    destruct (db_intern_cases it k g) as [[r E]|(d' & Hd' & _ & Hno & _)].
    + exfalso. apply Hch. unfold after. now rewrite E.
    + congruence.
Qed.

(** ** Serial calls *)

Lemma and_then_returned {A B} (m : Db (Outcome A)) (k : A -> Db (Outcome B))
    (g g' : Globals) (a : A) :
  m g = (Returned a, g') -> and_then m k g = k a g'.
Proof. intros E. unfold and_then, bind. now rewrite E. Qed.

Lemma and_then_exited {A B} (m : Db (Outcome A)) (k : A -> Db (Outcome B))
    (g g' : Globals) (msg : string) :
  m g = (Exited msg, g') -> and_then m k g = (Exited msg, g').
Proof. intros E. unfold and_then, bind. now rewrite E. Qed.

Lemma serial_cons_returned {A} (f : A -> Db (Outcome Z)) (x : A)
    (xs : list A) (g : Globals) (r : Z) :
  result (f x) g = Returned r ->
  result (serial f (x :: xs)) g
  = match result (serial f xs) (after (f x) g) with
    | Returned rs => Returned (r :: rs)
    | Exited msg => Exited msg
    end /\
  after (serial f (x :: xs)) g = after (serial f xs) (after (f x) g).
Proof.
  unfold result, after. cbn [serial]. unfold and_then, bind, returns, ret.
  destruct (f x g) as [o g1]. cbn [fst snd]. intros ->.
  destruct (serial f xs g1) as [[rs|msg] g2]; split; reflexivity.
Qed.

Lemma serial_cons_exited {A} (f : A -> Db (Outcome Z)) (x : A)
    (xs : list A) (g : Globals) (msg : string) :
  result (f x) g = Exited msg ->
  serial f (x :: xs) g = (Exited msg, after (f x) g).
Proof.
  unfold result, after. cbn [serial]. unfold and_then, bind, returns, ret.
  destruct (f x g) as [o g1]. cbn [fst snd]. now intros ->.
Qed.

Lemma after_serial_cons_cases {A} (f : A -> Db (Outcome Z)) (x : A)
    (xs : list A) (g : Globals) :
  after (serial f (x :: xs)) g = after (serial f xs) (after (f x) g) \/
  after (serial f (x :: xs)) g = after (f x) g.
Proof.
  destruct (result (f x) g) as [r|msg] eqn:E.
  - left. now apply (serial_cons_returned f x xs g r).
  - right. unfold after at 1.
    now rewrite (serial_cons_exited f x xs g msg E).
Qed.

(** What every call keeps is kept by calls made one after the other,
    whether or not one of them stops the process. *)
Lemma serial_invariant {A} (f : A -> Db (Outcome Z)) (P : Globals -> Prop) :
  (forall x g, P g -> P (after (f x) g)) ->
  forall xs g, P g -> P (after (serial f xs) g).
Proof.
  intros Hstep xs. induction xs as [|x xs IH]; intros g Hg.
  - exact Hg.
  - destruct (after_serial_cons_cases f x xs g) as [E|E]; rewrite E.
    + apply IH. now apply Hstep.
    + now apply Hstep.
Qed.

(** Calls that always return are all made. *)
Lemma after_serial_cons {A} (f : A -> Db (Outcome Z)) (x : A) (xs : list A)
    (g : Globals) :
  (exists r, result (f x) g = Returned r) ->
  after (serial f (x :: xs)) g = after (serial f xs) (after (f x) g).
Proof. intros [r E]. now apply (serial_cons_returned f x xs g r). Qed.

(** ** Auto-increment ids *)

Lemma serial_fresh_ids (it : InternTable) (d : MDB_dbi) (ks : list (list byte)) :
  forall g : Globals,
  intern_db g it = Some d ->
  Forall valid_key ks ->
  NoDup (map key_bytes ks) ->
  (forall k, In k ks -> tbl g d !! key_bytes k = None) ->
  Z.of_nat (size (tbl g d)) + Z.of_nat (length ks) <= INT_MAX ->
  result (serial (db_intern it) ks) g =
  Returned (map Z.of_nat (seq (S (size (tbl g d))) (length ks))).
Proof.
  induction ks as [|k ks IH]; intros g Hd Hval Hnd Hfresh Hsz.
  - reflexivity.
  - cbn [length seq map].
    assert (Hk : tbl g d !! key_bytes k = None) by (apply Hfresh; now left).
    apply Forall_cons in Hval as [Hvk Hval].
    pose proof (db_intern_absent it g d k Hd Hk Hvk) as Habs.
    cbn [length] in Hsz.
    rewrite next_id_small in Habs by lia.
    assert (Hr : result (db_intern it k) g
                 = Returned (Z.of_nat (size (tbl g d)) + 1))
      by (unfold result; now rewrite Habs).
    destruct (serial_cons_returned (db_intern it) k ks g _ Hr) as [-> _].
    unfold after. rewrite Habs. cbn [snd].
    cbn [map] in Hnd. apply NoDup_cons in Hnd as [Hnotin Hnd].
    set (g1 := put g d (key_bytes k) (int_bytes (Z.of_nat (size (tbl g d)) + 1))).
    assert (Ht1 : tbl g1 d = <[key_bytes k := int_bytes (Z.of_nat (size (tbl g d)) + 1)]> (tbl g d))
      by apply tbl_put.
    assert (Hs1 : size (tbl g1 d) = S (size (tbl g d)))
      by (rewrite Ht1; now apply map_size_insert_None).
    specialize (IH g1). rewrite Hs1 in IH. rewrite IH.
    + f_equal. f_equal. lia.
    + unfold g1, put. now rewrite intern_db_set_tbl.
    + exact Hval.
    + exact Hnd.
    + intros k' Hin. rewrite Ht1. rewrite lookup_insert_ne.
      * apply Hfresh. now right.
      * intros Heq. apply Hnotin. rewrite Heq.
        apply list_elem_of_In. now apply in_map.
    + lia.
Qed.

(** C3, as amended: interning a key of 1 to 511 bytes that has no id,
    into a table that holds fewer than INT_MAX entries, files the key
    under table size + 1 and returns that id; started on an empty table,
    the first fresh key gets 1, the second 2, and so on. *)
Theorem intern_fresh_key_next_id (it : InternTable) (g : Globals)
    (d : MDB_dbi) :
  intern_db g it = Some d ->
  (forall k, valid_key k -> result (get_si32 (Some d) k) g = -1 ->
     Z.of_nat (size (tbl g d)) < INT_MAX ->
     db_intern it k g =
     (Returned (Z.of_nat (size (tbl g d)) + 1),
      put g d (key_bytes k) (int_bytes (Z.of_nat (size (tbl g d)) + 1)))) /\
  (forall ks, tbl g d = ∅ -> Forall valid_key ks ->
     NoDup (map key_bytes ks) ->
     Z.of_nat (length ks) <= INT_MAX ->
     result (serial (db_intern it) ks) g =
     Returned (map Z.of_nat (seq 1 (length ks)))).
Proof.
  intros Hd. split.
  - intros k Hv Hno Hsz. unfold result in Hno. rewrite get_si32_eq in Hno.
    cbn [fst] in Hno.
    rewrite (db_intern_eq it g d k Hd). cbv zeta.
    rewrite next_id_small by exact Hsz.
    rewrite key_size_ok_valid by exact Hv.
    destruct (found g d k) as [data|]; [|reflexivity].
    rewrite Hno. reflexivity.
  - intros ks Hempty Hval Hnd Hlen.
    rewrite (serial_fresh_ids it d ks g Hd Hval Hnd).
    + now rewrite Hempty, map_size_empty.
    + intros k _. now rewrite Hempty, lookup_empty.
    + rewrite Hempty, map_size_empty. lia.
Qed.

Lemma intern_db_after_serial_intern (it it' : InternTable)
    (ks : list (list byte)) (g : Globals) :
  intern_db (after (serial (db_intern it') ks) g) it = intern_db g it.
Proof.
  apply (serial_invariant (db_intern it')
           (fun g' => intern_db g' it = intern_db g it)); [|reflexivity].
  intros k g' H. now rewrite intern_db_after.
Qed.

(** A table whose ids are dense, and that has room for one more, keeps
    them dense through an interning call. *)
Lemma ids_dense_after_intern (it : InternTable) (d : MDB_dbi) (k : list byte)
    (g : Globals) :
  intern_db g it = Some d ->
  ids_dense (tbl g d) ->
  Z.of_nat (size (tbl g d)) < INT_MAX ->
  ids_dense (tbl (after (db_intern it k) g) d).
Proof.
  intros Hd Hinv Hsz. unfold after.
  destruct (db_intern_cases it k g) as [[r E]|(d' & Hd' & Hv & Hno & E)];
    rewrite E; cbn [snd]; [exact Hinv|].
  assert (d' = d) as -> by congruence.
  unfold result in Hno. rewrite get_si32_eq, (found_valid g d k Hv) in Hno.
  cbn [fst] in Hno.
  rewrite tbl_put, next_id_small by lia.
  destruct (tbl g d !! key_bytes k) as [data|] eqn:Hk.
  { destruct (Hinv _ _ Hk) as [Hlo _]. lia. }
  intros k' data'. rewrite map_size_insert_None by exact Hk.
  destruct (decide (key_bytes k = k')) as [<-|Hne].
  - rewrite lookup_insert_eq. intros [= <-].
    rewrite load_int_bytes, to_int_id
      by (unfold is_int, INT_MIN, INT_MAX in *; lia).
    lia.
  - rewrite lookup_insert_ne by exact Hne. intros Hk'.
    apply Hinv in Hk'. lia.
Qed.

Lemma size_after_intern (it : InternTable) (d : MDB_dbi) (k : list byte)
    (g : Globals) :
  intern_db g it = Some d ->
  (size (tbl g d) <= size (tbl (after (db_intern it k) g) d)
   <= S (size (tbl g d)))%nat.
Proof.
  intros Hd. unfold after.
  destruct (db_intern_cases it k g) as [[r E]|(d' & Hd' & _ & Hno & E)];
    rewrite E; cbn [snd]; [lia|].
  assert (d' = d) as -> by congruence. rewrite tbl_put.
  destruct (tbl g d !! key_bytes k) eqn:Hk.
  - erewrite map_size_insert_Some by eauto. lia.
  - rewrite map_size_insert_None by exact Hk. lia.
Qed.

Lemma serial_ids_dense (it : InternTable) (d : MDB_dbi) (ks : list (list byte)) :
  forall g : Globals,
  intern_db g it = Some d ->
  ids_dense (tbl g d) ->
  Z.of_nat (size (tbl g d)) + Z.of_nat (length ks) <= INT_MAX ->
  ids_dense (tbl (after (serial (db_intern it) ks) g) d).
Proof.
  induction ks as [|k ks IH]; intros g Hd Hinv Hsz.
  - exact Hinv.
  - cbn [length] in Hsz.
    assert (Hd1 : intern_db (after (db_intern it k) g) it = Some d)
      by now rewrite intern_db_after.
    pose proof (ids_dense_after_intern it d k g Hd Hinv ltac:(lia)) as Hinv1.
    pose proof (size_after_intern it d k g Hd) as Hs1.
    destruct (after_serial_cons_cases (db_intern it) k ks g) as [E|E];
      rewrite E; [|exact Hinv1].
    apply IH; [exact Hd1 | exact Hinv1 | lia].
Qed.

(** C9, as amended: ids interned one after the other into an empty
    table, INT_MAX calls at most, are all at least 1; the lookup by string
    key then answers -1 for the keys that it does not find and for no
    other. *)
Theorem interned_ids_at_least_1 (it : InternTable) (g : Globals)
    (d : MDB_dbi) (ks : list (list byte)) :
  intern_db g it = Some d ->
  tbl g d = ∅ ->
  Z.of_nat (length ks) <= INT_MAX ->
  let g' := after (serial (db_intern it) ks) g in
  (forall k data, tbl g' d !! k = Some data -> 1 <= load_int data) /\
  (forall k, result (get_si32 (Some d) k) g' = -1 <-> found g' d k = None).
Proof.
  intros Hd Hempty Hlen g'.
  assert (Hinv : ids_dense (tbl g' d)).
  { apply serial_ids_dense; auto.
    - intros k data. now rewrite Hempty, lookup_empty.
    - rewrite Hempty, map_size_empty. lia. }
  split.
  - intros k data Hk. now apply (Hinv k data).
  - intros k. unfold result. rewrite get_si32_eq. cbn [fst].
    destruct (found g' d k) as [data|] eqn:Hk.
    + apply found_Some in Hk as [_ Hk].
      apply Hinv in Hk. split; [lia | discriminate].
    + split; reflexivity.
Qed.

(** ** Interning is stable *)

Lemma has_id_after_intern (g : Globals) (d : MDB_dbi) (k : list byte) (id : Z)
    (it' : InternTable) (k' : list byte) :
  id <> -1 -> has_id g d k id -> has_id (after (db_intern it' k') g) d k id.
Proof.
  intros Hid (data & Hk & Hv). unfold after.
  destruct (db_intern_cases it' k' g) as [[r E]|(d' & Hd' & Hv' & Hno & E)];
    rewrite E; cbn [snd]; [now exists data|].
  unfold result in Hno. rewrite get_si32_eq, (found_valid g d' k' Hv') in Hno.
  cbn [fst] in Hno.
  apply found_Some in Hk as [Hvk Hk].
  exists data. split; [|exact Hv]. apply found_Some. split; [exact Hvk|].
  destruct (decide (d' = d)) as [->|Hdd].
  - rewrite tbl_put, lookup_insert_ne; [exact Hk|].
    intros Heq. rewrite Heq, Hk in Hno. congruence.
  - unfold put. now rewrite tbl_set_tbl_ne.
Qed.

Lemma has_id_after_serial (d : MDB_dbi) (k : list byte) (id : Z)
    (cs : list (InternTable * list byte)) :
  forall g, id <> -1 -> has_id g d k id ->
  has_id (after (serial intern_call cs) g) d k id.
Proof.
  intros g Hid. apply (serial_invariant intern_call (fun g => has_id g d k id)).
  intros c g' H. now apply has_id_after_intern.
Qed.

Lemma intern_db_after_serial (it : InternTable)
    (cs : list (InternTable * list byte)) :
  forall g, intern_db (after (serial intern_call cs) g) it = intern_db g it.
Proof.
  intros g.
  apply (serial_invariant intern_call
           (fun g' => intern_db g' it = intern_db g it)); [|reflexivity].
  intros c g' H. unfold intern_call. now rewrite intern_db_after.
Qed.

(** C4, as amended: once a call has given the key [k], which had no id,
    the id [id] (a result other than -1), then after any further
    interning calls, on any table and key, db_insert_keymap,
    db_insert_unique_key and db_insert_agent_key return [id] for [k]
    again; db_insert_uniqmap returns 0 for it, while the id found under
    [k] is still [id]. *)
Theorem intern_stable_after_first (it : InternTable) (g : Globals)
    (k : list byte) (id : Z) (cs : list (InternTable * list byte)) :
  result (get_si32 (intern_db g it) k) g = -1 ->
  result (db_intern it k) g = Returned id ->
  id <> -1 ->
  let g2 := after (serial intern_call cs) (after (db_intern it k) g) in
  result (db_intern it k) g2 = Returned (present_result it id) /\
  result (get_si32 (intern_db g2 it) k) g2 = id.
Proof.
  intros Hnone Hres Hid g2.
  destruct (intern_db g it) as [d|] eqn:Hd.
  2: { unfold result in Hres. rewrite (db_intern_none it g k Hd) in Hres.
       cbn in Hres. congruence. }
  assert (H1 : has_id (after (db_intern it k) g) d k id).
  { unfold result in Hres, Hnone. unfold after.
    rewrite get_si32_eq in Hnone. cbn [fst] in Hnone.
    rewrite (db_intern_eq it g d k Hd) in *. cbv zeta in *.
    assert (Hfresh : valid_key k ->
              has_id (put g d (key_bytes k) (int_bytes (next_id (tbl g d)))) d k
                (next_id (tbl g d))).
    { intros Hvk. exists (int_bytes (next_id (tbl g d))). split.
      - rewrite (found_valid _ d k Hvk), tbl_put. apply lookup_insert_eq.
      - rewrite load_int_bytes. apply to_int_id.
        unfold next_id. apply to_int_range. }
    destruct (decide (valid_key k)) as [Hvk|Hvk].
    + rewrite (key_size_ok_valid k Hvk) in *.
      destruct (found g d k) as [data|] eqn:Hk;
        [rewrite Hnone in *; change (-1 =? -1) with true in *|];
        cbn [fst snd] in *; injection Hres as <-; now apply Hfresh.
    + rewrite (key_size_ok_invalid k Hvk), (found_invalid g d k Hvk) in *.
      discriminate Hres. }
  assert (H2 : has_id g2 d k id) by now apply has_id_after_serial.
  assert (Hd2 : intern_db g2 it = Some d).
  { unfold g2. now rewrite intern_db_after_serial, intern_db_after. }
  destruct H2 as (data & Hk2 & Hv2). rewrite Hd2. unfold result. split.
  - rewrite (db_intern_present it g2 d k data Hd2 Hk2) by congruence.
    cbn [fst]. now rewrite Hv2.
  - rewrite get_si32_eq. cbn [fst]. now rewrite Hk2.
Qed.

(** ** Counters *)

Lemma get_ii32_eq (d : MDB_dbi) (k : Z) (g : Globals) :
  get_ii32 (Some d) k g = (stored_int (tbl g d) (int_bytes k), g).
Proof.
  unfold get_ii32, mdb_get, bind, ret, stored_int. now rewrite span_int_key.
Qed.

Lemma get_iu64_eq (d : MDB_dbi) (k : Z) (g : Globals) :
  get_iu64 (Some d) k g = (stored_uint64 (tbl g d) (int_bytes k), g).
Proof.
  unfold get_iu64, mdb_get, bind, ret, stored_uint64. now rewrite span_int_key.
Qed.

Lemma stored_int_range (t : table) (k : list byte) : is_int (stored_int t k).
Proof.
  unfold stored_int. destruct (t !! k); [apply to_int_range|].
  unfold is_int, INT_MIN, INT_MAX; lia.
Qed.

Lemma stored_uint64_range (t : table) (k : list byte) :
  is_uint64 (stored_uint64 t k).
Proof.
  unfold stored_uint64. destruct (t !! k); [apply load_uint64_range|].
  unfold is_uint64; lia.
Qed.

Lemma to_int_add_l (a b : Z) : to_int (to_int a + b) = to_int (a + b).
Proof.
  unfold to_int.
  replace ((a + 2 ^ 31) mod 2 ^ 32 - 2 ^ 31 + b + 2 ^ 31)
    with ((a + 2 ^ 31) mod 2 ^ 32 + b) by lia.
  rewrite Zplus_mod_idemp_l. f_equal. f_equal. lia.
Qed.

Lemma to_uint64_add_l (a b : Z) : to_uint64 (to_uint64 a + b) = to_uint64 (a + b).
Proof. unfold to_uint64. apply Zplus_mod_idemp_l. Qed.

Lemma inc_ii32_eq (d : MDB_dbi) (k inc : Z) (g : Globals) :
  exists v, inc_ii32 (Some d) k inc g
            = (Returned 0, put g d (int_bytes k) (int_bytes v))
            /\ to_int v = to_int (stored_int (tbl g d) (int_bytes k) + inc).
Proof.
  unfold inc_ii32, mdb_get, bind, ret, stored_int.
  rewrite span_int_key. setoid_rewrite mdb_put_int_key.
  setoid_rewrite span_int_data.
  destruct (tbl g d !! int_bytes k) as [data|].
  - eexists. split; [reflexivity|]. apply to_int_id, to_int_range.
  - eexists. split; [reflexivity|]. reflexivity.
Qed.

Lemma inc_iu64_eq (d : MDB_dbi) (k inc : Z) (g : Globals) :
  exists v, inc_iu64 (Some d) k inc g
            = (Returned 0, put g d (int_bytes k) (uint64_bytes v))
            /\ to_uint64 v = to_uint64 (stored_uint64 (tbl g d) (int_bytes k) + inc).
Proof.
  unfold inc_iu64, mdb_get, bind, ret, stored_uint64.
  rewrite span_int_key. setoid_rewrite mdb_put_int_key.
  setoid_rewrite span_uint64_data.
  destruct (tbl g d !! int_bytes k) as [data|].
  - eexists. split; [reflexivity|]. unfold to_uint64. apply Z.mod_mod. lia.
  - eexists. split; [reflexivity|]. reflexivity.
Qed.

Lemma inc_su64_eq (d : MDB_dbi) (k : list byte) (inc : Z) (g : Globals) :
  valid_key k ->
  exists v, inc_su64 (Some d) k inc g
            = (Returned 0, put g d (key_bytes k) (uint64_bytes v))
            /\ to_uint64 v = to_uint64 (stored_uint64 (tbl g d) (key_bytes k) + inc).
Proof.
  intros Hv.
  unfold inc_su64, mdb_get, mdb_put, bind, ret, put, stored_uint64, key_bytes.
  rewrite key_size_ok_valid by exact Hv.
  setoid_rewrite span_uint64_data.
  destruct (tbl g d !! span (str_key k)) as [data|].
  - eexists. split; [reflexivity|]. unfold to_uint64. apply Z.mod_mod. lia.
  - eexists. split; [reflexivity|]. reflexivity.
Qed.

Lemma inc_su64_refused (d : MDB_dbi) (k : list byte) (inc : Z) (g : Globals) :
  ~ valid_key k -> inc_su64 (Some d) k inc g = (put_refused, g).
Proof.
  intros Hv. unfold inc_su64, mdb_get, mdb_put, bind.
  now rewrite key_size_ok_invalid by exact Hv.
Qed.

Lemma stored_int_put (g : Globals) (d : MDB_dbi) (k : list byte) (v : Z) :
  stored_int (tbl (put g d k (int_bytes v)) d) k = to_int v.
Proof.
  unfold stored_int. now rewrite tbl_put, lookup_insert_eq, load_int_bytes.
Qed.

Lemma stored_uint64_put (g : Globals) (d : MDB_dbi) (k : list byte) (v : Z) :
  stored_uint64 (tbl (put g d k (uint64_bytes v)) d) k = to_uint64 v.
Proof.
  unfold stored_uint64. now rewrite tbl_put, lookup_insert_eq, load_uint64_bytes.
Qed.

(** A counter that every call moves by its argument, up to [wrap]. *)
Lemma serial_accumulate (P : Globals -> Prop) (get : Globals -> Z)
    (f : Z -> Db (Outcome Z)) (wrap : Z -> Z) :
  (forall g x, P g -> exists r, result (f x) g = Returned r) ->
  (forall g x, P g -> P (after (f x) g) /\ get (after (f x) g) = wrap (get g + x)) ->
  (forall g, P g -> wrap (get g) = get g) ->
  (forall a b, wrap (wrap a + b) = wrap (a + b)) ->
  forall ds g, P g ->
    P (after (serial f ds) g) /\
    get (after (serial f ds) g) = wrap (get g + sum ds).
Proof.
  intros Hret Hstep Hfix Hwrap ds. induction ds as [|x ds IH]; intros g HP.
  - cbn. split; [exact HP|]. rewrite Z.add_0_r. symmetry. now apply Hfix.
  - rewrite after_serial_cons by (now apply Hret).
    destruct (Hstep g x HP) as [HP1 Hget].
    destruct (IH _ HP1) as [HP2 IH2]. split; [exact HP2|].
    rewrite IH2, Hget, Hwrap. cbn [sum fold_right].
    f_equal. fold (sum ds). lia.
Qed.

Lemma running_in_int_total (p : Z) (ds : list Z) :
  is_int p -> running_in_int p ds -> is_int (p + sum ds).
Proof.
  revert p. induction ds as [|x ds IH]; intros p Hp Hrun.
  - cbn. now rewrite Z.add_0_r.
  - destruct Hrun as [H1 H2]. cbn [sum fold_right]. fold (sum ds).
    replace (p + (x + sum ds)) with (p + x + sum ds) by lia.
    now apply IH.
Qed.

Lemma inc_ii32_step (d : MDB_dbi) (k x : Z) (g : Globals) :
  let g' := after (inc_ii32 (Some d) k x) g in
  result (inc_ii32 (Some d) k x) g = Returned 0 /\
  (forall m mt, get_db g' m mt = get_db g m mt) /\
  stored_int (tbl g' d) (int_bytes k)
  = to_int (stored_int (tbl g d) (int_bytes k) + x).
Proof.
  destruct (inc_ii32_eq d k x g) as (v & E & Hv). unfold after, result.
  rewrite E. cbn [fst snd]. split; [reflexivity|].
  split; [reflexivity|]. now rewrite stored_int_put.
Qed.

Lemma inc_iu64_step (d : MDB_dbi) (k x : Z) (g : Globals) :
  let g' := after (inc_iu64 (Some d) k x) g in
  result (inc_iu64 (Some d) k x) g = Returned 0 /\
  (forall m mt, get_db g' m mt = get_db g m mt) /\
  stored_uint64 (tbl g' d) (int_bytes k)
  = to_uint64 (stored_uint64 (tbl g d) (int_bytes k) + x).
Proof.
  destruct (inc_iu64_eq d k x g) as (v & E & Hv). unfold after, result.
  rewrite E. cbn [fst snd]. split; [reflexivity|].
  split; [reflexivity|]. now rewrite stored_uint64_put.
Qed.

Lemma inc_su64_step (d : MDB_dbi) (k : list byte) (x : Z) (g : Globals) :
  valid_key k ->
  let g' := after (inc_su64 (Some d) k x) g in
  result (inc_su64 (Some d) k x) g = Returned 0 /\
  (forall m mt, get_db g' m mt = get_db g m mt) /\
  stored_uint64 (tbl g' d) (key_bytes k)
  = to_uint64 (stored_uint64 (tbl g d) (key_bytes k) + x).
Proof.
  intros Hk.
  destruct (inc_su64_eq d k x g Hk) as (v & E & Hv). unfold after, result.
  rewrite E. cbn [fst snd]. split; [reflexivity|].
  split; [reflexivity|]. now rewrite stored_uint64_put.
Qed.

(** The counter tables: the metric, the call that adds to it and the call
    that reads it back. *)
Lemma int_counter_sum (mt : GSMetric)
    (ins : GModule -> Z -> Z -> Db (Outcome Z))
    (getter : GModule -> Z -> Db Z) (m : GModule) (key : Z) (d : MDB_dbi) :
  (forall g x, get_db g m mt = Some d ->
     ins m key x g = inc_ii32 (Some d) key x g) ->
  (forall g, get_db g m mt = Some d ->
     getter m key g = get_ii32 (Some d) key g) ->
  forall ds g, get_db g m mt = Some d ->
    result (getter m key) (after (serial (ins m key) ds) g)
    = to_int (result (getter m key) g + sum ds).
Proof.
  intros Hins Hget ds g Hd.
  destruct (serial_accumulate (fun g => get_db g m mt = Some d)
              (fun g => stored_int (tbl g d) (int_bytes key))
              (ins m key) to_int) with (ds := ds) (g := g) as [HP Hsum].
  - intros g0 x H0. unfold result. rewrite (Hins g0 x H0). exists 0.
    now destruct (inc_ii32_step d key x g0) as [Hr _].
  - intros g0 x H0. unfold after. rewrite (Hins g0 x H0).
    destruct (inc_ii32_step d key x g0) as (_ & Hdb & Hst). unfold after in *.
    split; [now rewrite Hdb | exact Hst].
  - intros g0 _. apply to_int_id, stored_int_range.
  - apply to_int_add_l.
  - exact Hd.
  - unfold result. rewrite (Hget _ HP), (Hget _ Hd), !get_ii32_eq.
    cbn [fst]. exact Hsum.
Qed.

Lemma uint64_counter_sum (mt : GSMetric)
    (ins : GModule -> Z -> Z -> Db (Outcome Z))
    (getter : GModule -> Z -> Db Z) (m : GModule) (key : Z) (d : MDB_dbi) :
  (forall g x, get_db g m mt = Some d ->
     ins m key x g = inc_iu64 (Some d) key x g) ->
  (forall g, get_db g m mt = Some d ->
     getter m key g = get_iu64 (Some d) key g) ->
  forall ds g, get_db g m mt = Some d ->
    result (getter m key) (after (serial (ins m key) ds) g)
    = to_uint64 (result (getter m key) g + sum ds).
Proof.
  intros Hins Hget ds g Hd.
  destruct (serial_accumulate (fun g => get_db g m mt = Some d)
              (fun g => stored_uint64 (tbl g d) (int_bytes key))
              (ins m key) to_uint64) with (ds := ds) (g := g) as [HP Hsum].
  - intros g0 x H0. unfold result. rewrite (Hins g0 x H0). exists 0.
    now destruct (inc_iu64_step d key x g0) as [Hr _].
  - intros g0 x H0. unfold after. rewrite (Hins g0 x H0).
    destruct (inc_iu64_step d key x g0) as (_ & Hdb & Hst). unfold after in *.
    split; [now rewrite Hdb | exact Hst].
  - intros g0 _. apply to_uint64_id, stored_uint64_range.
  - apply to_uint64_add_l.
  - exact Hd.
  - unfold result. rewrite (Hget _ HP), (Hget _ Hd), !get_iu64_eq.
    cbn [fst]. exact Hsum.
Qed.

Ltac resolve_db H :=
  intros; unfold db_insert_hits, db_insert_visitor, db_insert_bw,
    db_insert_cumts, db_insert_maxts, db_insert_meta_data, db_get_hits,
    db_get_visitors, db_get_bw, db_get_cumts, db_get_maxts, bind, read;
  match goal with
  | Hd : get_db _ _ _ = _ |- _ => rewrite Hd
  end; reflexivity.

(** C2, as amended: after the increments d1..dn were applied one after
    the other to one key, db_get_bw and db_get_cumts read back the value
    read before (0 for a key that was absent) plus d1 + ... + dn, reduced
    modulo 2^64, and so does the counter of db_insert_meta_data, whose key
    is a string, of 1 to 511 bytes; db_get_hits and db_get_visitors read
    back the value read before plus d1 + ... + dn whenever every running
    total is an int. *)
Theorem accumulate_sum (m : GModule) (g : Globals) (ds : list Z) :
  (forall key, get_db g m MTRC_HITS <> None -> Forall is_int ds ->
     running_in_int (result (db_get_hits m key) g) ds ->
     result (db_get_hits m key) (after (serial (db_insert_hits m key) ds) g)
     = result (db_get_hits m key) g + sum ds) /\
  (forall key, get_db g m MTRC_VISITORS <> None -> Forall is_int ds ->
     running_in_int (result (db_get_visitors m key) g) ds ->
     result (db_get_visitors m key)
       (after (serial (db_insert_visitor m key) ds) g)
     = result (db_get_visitors m key) g + sum ds) /\
  (forall key, get_db g m MTRC_BW <> None ->
     result (db_get_bw m key) (after (serial (db_insert_bw m key) ds) g)
     = (result (db_get_bw m key) g + sum ds) mod 2 ^ 64) /\
  (forall key, get_db g m MTRC_CUMTS <> None ->
     result (db_get_cumts m key) (after (serial (db_insert_cumts m key) ds) g)
     = (result (db_get_cumts m key) g + sum ds) mod 2 ^ 64) /\
  (forall key d, get_db g m MTRC_METADATA = Some d -> valid_key key ->
     stored_uint64
       (tbl (after (serial (db_insert_meta_data m key) ds) g) d) (key_bytes key)
     = (stored_uint64 (tbl g d) (key_bytes key) + sum ds) mod 2 ^ 64).
Proof.
  repeat split.
  - intros key Hd _ Hrun.
    destruct (get_db g m MTRC_HITS) as [d|] eqn:E; [clear Hd|congruence].
    rewrite (int_counter_sum MTRC_HITS db_insert_hits db_get_hits
               m key d) by (try exact E; resolve_db E).
    apply to_int_id, running_in_int_total; [|exact Hrun].
    unfold result, db_get_hits, bind, read. rewrite E, get_ii32_eq.
    apply stored_int_range.
  - intros key Hd _ Hrun.
    destruct (get_db g m MTRC_VISITORS) as [d|] eqn:E; [clear Hd|congruence].
    rewrite (int_counter_sum MTRC_VISITORS db_insert_visitor db_get_visitors
               m key d) by (try exact E; resolve_db E).
    apply to_int_id, running_in_int_total; [|exact Hrun].
    unfold result, db_get_visitors, bind, read. rewrite E, get_ii32_eq.
    apply stored_int_range.
  - intros key Hd.
    destruct (get_db g m MTRC_BW) as [d|] eqn:E; [clear Hd|congruence].
    now rewrite (uint64_counter_sum MTRC_BW db_insert_bw db_get_bw m key d)
      by (try exact E; resolve_db E).
  - intros key Hd.
    destruct (get_db g m MTRC_CUMTS) as [d|] eqn:E; [clear Hd|congruence].
    now rewrite (uint64_counter_sum MTRC_CUMTS db_insert_cumts db_get_cumts
                   m key d) by (try exact E; resolve_db E).
  - intros key d Hd Hkey.
    destruct (serial_accumulate (fun g => get_db g m MTRC_METADATA = Some d)
                (fun g => stored_uint64 (tbl g d) (key_bytes key))
                (db_insert_meta_data m key) to_uint64)
      with (ds := ds) (g := g) as [HP Hsum].
    + intros g0 x H0. unfold result, db_insert_meta_data, bind, read.
      rewrite H0. exists 0.
      now destruct (inc_su64_step d key x g0 Hkey) as [Hr _].
    + intros g0 x H0. unfold after, db_insert_meta_data, bind, read.
      rewrite H0.
      destruct (inc_su64_step d key x g0 Hkey) as (_ & Hdb & Hst).
      unfold after in *.
      split; [now rewrite Hdb | exact Hst].
    + intros g0 _. apply to_uint64_id, stored_uint64_range.
    + apply to_uint64_add_l.
    + exact Hd.
    + exact Hsum.
Qed.

(** ** Maximum tracking *)






(** ** The root of a key *)

Lemma ins_ii32_eq (d : MDB_dbi) (k v : Z) (g : Globals) :
  ins_ii32 (Some d) k v g = (Returned 0, put g d (int_bytes k) (int_bytes v)).
Proof.
  unfold ins_ii32, bind. rewrite mdb_put_int_key.
  now rewrite span_int_data.
Qed.

Lemma get_db_put (g : Globals) (d : MDB_dbi) (k v : list byte) m mt :
  get_db (put g d k v) m mt = get_db g m mt.
Proof. reflexivity. Qed.

(** C10: db_get_root answers NULL whenever the int read from the root
    table for the key is 0, in particular right after db_insert_root has
    stored 0 for it; when both tables resolve and the int read is not 0,
    the answer is the rootmap lookup under that int. *)
Theorem db_get_root_zero_is_null (m : GModule) (g : Globals) (key : Z) :
  (result (get_ii32 (get_db g m MTRC_ROOT) key) g = 0 ->
     db_get_root m key g = (None, g)) /\
  result (db_get_root m key) (after (db_insert_root m key 0) g) = None /\
  (forall hashroot hashrootmap,
     get_db g m MTRC_ROOT = Some hashroot ->
     get_db g m MTRC_ROOTMAP = Some hashrootmap ->
     let root_key := result (get_ii32 (Some hashroot) key) g in
     root_key <> 0 ->
     db_get_root m key g = get_is32 (Some hashrootmap) root_key g).
Proof.
  repeat split.
  - unfold result, db_get_root, bind, read.
    destruct (get_db g m MTRC_ROOT) as [hr|]; [|reflexivity].
    destruct (get_db g m MTRC_ROOTMAP) as [hrm|]; [|reflexivity].
    rewrite get_ii32_eq. cbn [fst]. intros ->. reflexivity.
  - destruct (get_db g m MTRC_ROOT) as [hr|] eqn:Hr.
    + assert (Hg : after (db_insert_root m key 0) g
                   = put g hr (int_bytes key) (int_bytes 0)).
      { unfold after, db_insert_root, bind, read. rewrite Hr.
        now rewrite ins_ii32_eq. }
      rewrite Hg. unfold result, db_get_root, bind, read.
      rewrite !get_db_put, Hr.
      destruct (get_db g m MTRC_ROOTMAP) as [hrm|]; [|reflexivity].
      rewrite get_ii32_eq. cbn [fst snd].
      now rewrite stored_int_put.
    + unfold result, after, db_insert_root, db_get_root, returns, bind, read.
      rewrite Hr. cbn [ret snd fst]. now rewrite Hr.
  - intros hr hrm Hr Hrm root_key Hne. unfold root_key in *.
    unfold db_get_root, bind, read. rewrite Hr, Hrm.
    unfold result in *. destruct (get_ii32 (Some hr) key g) as [rk g1] eqn:E.
    rewrite get_ii32_eq in E. injection E as <- <-. cbn [fst] in *.
    apply Z.eqb_neq in Hne. now rewrite Hne.
Qed.

(** ** How strings are filed *)

Lemma strlen_le (k : list byte) : (strlen k <= length k)%nat.
Proof.
  induction k as [|b k IH]; cbn [strlen length]; [lia|].
  destruct (decide (b = x00)); lia.
Qed.


Lemma xstrdup_no_NUL (k : list byte) : ~ In x00 (xstrdup k).
Proof.
  unfold xstrdup. induction k as [|b k IH]; cbn [strlen]; [tauto|].
  destruct (decide (b = x00)) as [->|Hb]; cbn [take In]; [tauto|].
  intros [H|H]; [congruence | tauto].
Qed.

Lemma length_xstrdup (k : list byte) : length (xstrdup k) = strlen k.
Proof.
  unfold xstrdup. rewrite length_take. pose proof (strlen_le k). lia.
Qed.

Lemma take_terminator (v : list byte) :
  In x00 v -> take (strlen v + 1) v = xstrdup v ++ [x00].
Proof.
  unfold xstrdup. induction v as [|b v IH]; cbn [strlen In]; [tauto|].
  intros H. destruct (decide (b = x00)) as [->|Hb]; [reflexivity|].
  destruct H as [H|H]; [congruence|].
  cbn [Nat.add take app]. f_equal. now apply IH.
Qed.



(** ** Unavailable tables *)

Lemma module_unavailable_intro (g : Globals) (m : GModule) :
  (forall mt, get_db g m mt = None) -> module_unavailable g m.
Proof.
  intros H. unfold module_unavailable.
  repeat apply conj; intros;
    unfold db_insert_keymap, db_insert_uniqmap, db_insert_datamap,
      db_insert_rootmap, db_insert_root, db_insert_hits, db_insert_visitor,
      db_insert_bw, db_insert_cumts, db_insert_maxts, db_insert_method,
      db_insert_protocol, db_insert_meta_data, db_get_hits, db_get_visitors,
      db_get_datamap, db_get_method, db_get_protocol, db_get_root, db_get_bw,
      db_get_cumts, db_get_maxts, db_get_size_uniqmap, bind, read;
    rewrite !H; reflexivity.
Qed.

Lemma global_unavailable_intro (g : Globals) :
  ht_unique_keys g = None -> ht_agent_keys g = None ->
  ht_agent_vals g = None -> ht_hostnames g = None ->
  global_unavailable g.
Proof.
  intros H1 H2 H3 H4. unfold global_unavailable.
  repeat apply conj; intros;
    unfold db_insert_unique_key, db_insert_agent_key, db_insert_agent_value,
      db_get_hostname, bind, read;
    rewrite ?H1, ?H2, ?H3, ?H4; reflexivity.
Qed.

Lemma module_index_inj (m m' : GModule) :
  module_index m = module_index m' -> m = m'.
Proof. destruct m, m'; cbn; intros E; try reflexivity; discriminate. Qed.

Lemma get_db_storage_of (g : Globals) (m : GModule) (mt : GSMetric) :
  get_db g m mt =
  match storage_of g m with
  | Some s => get_db_loop (take GSMTRC_TOTAL (metrics s)) mt
  | None => None
  end.
Proof. unfold get_db, storage_of. now destruct (db_storage g). Qed.

Lemma after_bind {A B} (a : Db A) (k : A -> Db B) (g : Globals) :
  after (bind a k) g = after (k (result a g)) (after a g).
Proof. unfold after, result, bind. now destruct (a g). Qed.

Lemma after_and_then {A B} (a : Db (Outcome A)) (k : A -> Db (Outcome B))
    (g : Globals) :
  after (and_then a k) g
  = match result a g with
    | Returned x => after (k x) (after a g)
    | Exited _ => after a g
    end.
Proof.
  unfold after, result, and_then, bind. destruct (a g) as [[x|msg] g1];
    reflexivity.
Qed.

Lemma keeps_bind {A B} (P : Globals -> Prop) (a : Db A) (k : A -> Db B) :
  keeps P a -> (forall x, keeps P (k x)) -> keeps P (bind a k).
Proof.
  intros Ha Hk g Hg. rewrite after_bind. apply Hk. now apply Ha.
Qed.

Lemma keeps_and_then {A B} (P : Globals -> Prop) (a : Db (Outcome A))
    (k : A -> Db (Outcome B)) :
  keeps P a -> (forall x, keeps P (k x)) -> keeps P (and_then a k).
Proof.
  intros Ha Hk g Hg. rewrite after_and_then.
  destruct (result a g); [apply Hk|]; now apply Ha.
Qed.

Lemma keeps_ret {A} (P : Globals -> Prop) (a : A) : keeps P (ret a).
Proof. intros g Hg. exact Hg. Qed.

Lemma keeps_if {A} (P : Globals -> Prop) (b : bool) (x y : Db A) :
  keeps P x -> keeps P y -> keeps P (if b then x else y).
Proof. now destruct b. Qed.

(** What depends on [db_storage] alone is kept by the engine and by the
    assignments to the other pointers. *)
Lemma keeps_create_datebase (P : Globals -> Prop) (name : string) :
  (forall g g', db_storage g' = db_storage g -> P g -> P g') ->
  keeps P (create_datebase name).
Proof.
  intros HP g Hg. apply (HP g); [|exact Hg].
  unfold after, create_datebase, mdb_dbi_open, bind.
  destruct (name_index (env_names g) name); [reflexivity|].
  destruct (env_maxdbs g <=? length (env_names g))%nat; reflexivity.
Qed.

Lemma keeps_create_environment (P : Globals -> Prop) :
  (forall g g', db_storage g' = db_storage g -> P g -> P g') ->
  keeps P create_environment.
Proof. intros HP g Hg. now apply (HP g). Qed.

Lemma storage_of_create (name : string) (g : Globals) (m : GModule) :
  storage_of (after (create_datebase name) g) m = storage_of g m.
Proof.
  apply (keeps_create_datebase
           (fun g' => storage_of g' m = storage_of g m)); [|reflexivity].
  intros g1 g2 E. unfold storage_of. now rewrite E.
Qed.

Lemma storage_of_update (m' : GModule) f (g : Globals) (m : GModule) :
  m <> m' -> storage_of (after (update_storage m' f) g) m = storage_of g m.
Proof.
  intros Hne. unfold storage_of, after, update_storage, set_db_storage.
  cbn [snd db_storage]. destruct (db_storage g) as [st|]; [|reflexivity].
  unfold storage_at. rewrite list_lookup_insert_ne; [reflexivity|].
  intros E. apply Hne. symmetry. now apply module_index_inj.
Qed.

Lemma storage_of_init_tables_from (m' m : GModule) (ms : list GLMDBStorageMetric) :
  m <> m' -> forall i g,
  storage_of (after (init_tables_from m' i ms) g) m = storage_of g m.
Proof.
  intros Hne. induction ms as [|mtrc ms IH]; intros i g.
  - reflexivity.
  - cbn [init_tables_from]. rewrite after_and_then.
    destruct (result (create_datebase _) g) as [st|msg].
    + rewrite !after_bind, IH.
      rewrite storage_of_update by exact Hne. apply storage_of_create.
    + apply storage_of_create.
Qed.

Lemma storage_of_foreach_module (ml : list GModule) (m : GModule) :
  ~ In m ml -> forall g,
  storage_of (after (foreach_module ml) g) m = storage_of g m.
Proof.
  induction ml as [|m' ml IH]; intros Hnotin g.
  - reflexivity.
  - cbn [foreach_module]. rewrite after_bind, after_and_then.
    assert (Hne : m <> m') by (intros ->; apply Hnotin; now left).
    destruct (result (init_tables m') _) as [[]|msg].
    + rewrite IH by (intros Hin; apply Hnotin; now right).
      unfold init_tables. rewrite storage_of_init_tables_from by exact Hne.
      now apply storage_of_update.
    + unfold init_tables. rewrite storage_of_init_tables_from by exact Hne.
      now apply storage_of_update.
Qed.

Lemma ginit_storage_eq (ml : list GModule) :
  ginit_storage ml
  = exec set_db_storage (new_storage TOTAL_MODULES) in open_tables ml.
Proof. unfold ginit_storage, open_tables. reflexivity. Qed.

Lemma storage_of_open_tables (ml : list GModule) (m : GModule) (g : Globals) :
  ~ In m ml -> storage_of (after (open_tables ml) g) m = storage_of g m.
Proof.
  intros Hnotin.
  assert (HP : forall g1 g2, db_storage g2 = db_storage g1 ->
            storage_of g1 m = storage_of g m ->
            storage_of g2 m = storage_of g m).
  { intros g1 g2 E. unfold storage_of. now rewrite E. }
  assert (Hset : forall (f : option MDB_dbi -> Db unit) p,
            (forall q g1, db_storage (after (f q) g1) = db_storage g1) ->
            keeps (fun g' => storage_of g' m = storage_of g m) (f p)).
  { intros f p Hf g1 H1. apply (HP g1); [apply Hf | exact H1]. }
  assert (Hk : keeps (fun g' => storage_of g' m = storage_of g m)
                 (open_tables ml)); [|now apply Hk].
  unfold open_tables.
  apply keeps_and_then; [now apply keeps_create_environment | intros _].
  repeat (apply keeps_and_then;
          [now apply keeps_create_datebase | intros ?];
          apply keeps_bind; [apply Hset; reflexivity | intros _]).
  intros g1 H1. now rewrite storage_of_foreach_module.
Qed.

Lemma get_db_unregistered (ml : list GModule) (m : GModule) (mt : GSMetric)
    (dir : gmap string table) :
  ~ In m ml -> get_db (after (ginit_storage ml) (boot dir)) m mt = None.
Proof.
  intros Hnotin. rewrite get_db_storage_of, ginit_storage_eq, after_bind.
  rewrite storage_of_open_tables by exact Hnotin.
  clear Hnotin. destruct m; cbn; now destruct mt.
Qed.

(** C7, as amended: when the tables of a module do not resolve, which is
    the case before ginit_storage has run and, after it, for a module
    that is not in the module list, every db_insert call and db_get_hits
    and db_get_visitors answer -1, the string getters answer NULL, and
    db_get_bw, db_get_cumts, db_get_maxts and db_get_size_uniqmap answer
    0; the accessors of the global tables answer -1 or NULL before
    ginit_storage; in each case the call returns and changes nothing. *)
Theorem unavailable_tables (g : Globals) (m : GModule) :
  ((forall mt, get_db g m mt = None) -> module_unavailable g m) /\
  (db_storage g = None -> forall mt, get_db g m mt = None) /\
  (forall ml, ~ In m ml ->
     module_unavailable (after (ginit_storage ml) globals0) m) /\
  (ht_unique_keys g = None -> ht_agent_keys g = None ->
   ht_agent_vals g = None -> ht_hostnames g = None -> global_unavailable g) /\
  module_unavailable globals0 m /\ global_unavailable globals0.
Proof.
  split; [|split; [|split; [|split; [|split]]]].
  - apply module_unavailable_intro.
  - intros H mt. unfold get_db. now rewrite H.
  - intros ml Hnotin. apply module_unavailable_intro.
    intros mt. now apply (get_db_unregistered ml m mt ∅).
  - apply global_unavailable_intro.
  - now apply module_unavailable_intro.
  - now apply global_unavailable_intro.
Qed.

(** ** Export *)

Lemma key_leb_total (a b : list byte) : key_leb a b = true \/ key_leb b a = true.
Proof.
  revert b. induction a as [|x a IH]; intros [|y b]; cbn [key_leb]; auto.
  destruct (Byte.to_N x <? Byte.to_N y)%N eqn:E1; [auto|].
  destruct (Byte.to_N y <? Byte.to_N x)%N eqn:E2; [auto|].
  apply IH.
Qed.

Lemma key_leb_trans (a b c : list byte) :
  key_leb a b = true -> key_leb b c = true -> key_leb a c = true.
Proof.
  revert b c. induction a as [|x a IH]; intros [|y b] [|z c];
    cbn [key_leb]; try (intros; auto; discriminate).
  destruct (Byte.to_N x <? Byte.to_N y)%N eqn:E1;
    destruct (Byte.to_N y <? Byte.to_N x)%N eqn:E2;
    destruct (Byte.to_N y <? Byte.to_N z)%N eqn:E3;
    destruct (Byte.to_N z <? Byte.to_N y)%N eqn:E4;
    destruct (Byte.to_N x <? Byte.to_N z)%N eqn:E5;
    destruct (Byte.to_N z <? Byte.to_N x)%N eqn:E6;
    try (intros; auto; discriminate);
    try (rewrite ?N.ltb_lt, ?N.ltb_ge in *; lia).
  apply IH.
Qed.

#[global] Instance export_le_total no so m : Total (export_le no so m).
Proof.
  intros a b. destruct m, no, so; cbn [export_le num_le str_le];
    try lia; apply key_leb_total.
Qed.

#[global] Instance export_le_trans no so m : Transitive (export_le no so m).
Proof.
  intros a b c. destruct m, no, so; cbn [export_le num_le str_le];
    try lia; eauto using key_leb_trans.
Qed.

Lemma fold_store_item (f : list byte * list byte -> GRawDataItem)
    (es : list (list byte * list byte)) :
  forall (rd : GRawData) (done : list GRawDataItem) (r : nat),
  items rd = done ++ replicate (length es + r) zero_item ->
  raw_idx rd = Z.of_nat (length done) ->
  Z.of_nat (length done) + Z.of_nat (length es) <= INT_MAX ->
  let rd' := fold_left (fun rd e => store_item rd (f e)) es rd in
  items rd' = done ++ map f es ++ replicate r zero_item /\
  raw_idx rd' = Z.of_nat (length done) + Z.of_nat (length es) /\
  raw_module rd' = raw_module rd /\ raw_size rd' = raw_size rd /\
  raw_type rd' = raw_type rd.
Proof.
  induction es as [|e es IH]; intros rd done r Hit Hidx Hcap; cbv zeta.
  - cbn [fold_left map length app Nat.add] in *. repeat split; [exact Hit | lia].
  - cbn [fold_left]. cbn [length] in Hcap.
    destruct (IH (store_item rd (f e)) (done ++ [f e]) r) as (H1 & H2 & H3 & H4 & H5).
    + unfold store_item. cbn [items]. rewrite Hit, Hidx, Nat2Z.id.
      cbn [length Nat.add replicate].
      rewrite insert_app_r_alt by lia. rewrite Nat.sub_diag. cbn [insert list_insert].
      now rewrite <- app_assoc.
    + unfold store_item. cbn [raw_idx]. rewrite Hidx, length_app. cbn [length].
      rewrite to_int_id by (unfold is_int, INT_MIN, INT_MAX in *; lia). lia.
    + rewrite length_app. cbn [length]. lia.
    + repeat split.
      * rewrite H1. rewrite <- app_assoc. reflexivity.
      * rewrite H2, length_app. cbn [length]. lia.
      * exact H3.
      * exact H4.
      * exact H5.
Qed.

Lemma length_cursor_scan (t : table) : length (cursor_scan t) = size t.
Proof.
  unfold cursor_scan. rewrite merge_sort_Permutation.
  apply length_map_to_list.
Qed.

(** What the cursor loop leaves: one item per entry, in the order of the
    scan, and [idx] at their number. *)
Lemma filled_raw_data (f : list byte * list byte -> GRawDataItem)
    (m : GModule) (ty : GRawDataType) (t : table) :
  Z.of_nat (size t) <= INT_MAX ->
  let raw_data :=
    fold_left (fun rd e => store_item rd (f e)) (cursor_scan t)
      (init_new_raw_data m (to_uint32 (Z.of_nat (size t))) ty) in
  items raw_data = map f (cursor_scan t) /\
  raw_idx raw_data = Z.of_nat (size t) /\
  raw_module raw_data = m /\ raw_size raw_data = Z.of_nat (size t) /\
  raw_type raw_data = ty.
Proof.
  intros Hcap. cbv zeta.
  pose proof (length_cursor_scan t) as Hlen.
  assert (Hu : to_uint32 (Z.of_nat (size t)) = Z.of_nat (size t)).
  { unfold to_uint32. apply Z.mod_small. unfold INT_MAX in Hcap. lia. }
  rewrite Hu.
  destruct (fold_store_item f (cursor_scan t)
              (init_new_raw_data m (Z.of_nat (size t)) ty) [] 0%nat)
    as (H1 & H2 & H3 & H4 & H5).
  - cbn [init_new_raw_data items app]. now rewrite Nat2Z.id, Hlen, Nat.add_0_r.
  - reflexivity.
  - cbn [length]. rewrite Hlen. lia.
  - cbn [app replicate] in H1. rewrite app_nil_r in H1.
    rewrite Hlen in H2. change (Z.of_nat (length [])) with 0 in H2.
    rewrite Z.add_0_l in H2.
    split; [exact H1|]. split; [exact H2|]. split; [exact H3|].
    split; [exact H4 | exact H5].
Qed.

(** A sort of all the items of raw data. *)
Lemma sorts_all (R : relation GRawDataItem)
    (f : GRawData -> Z -> GRawData) (rd : GRawData) :
  sorts R f ->
  raw_idx rd = Z.of_nat (length (items rd)) ->
  raw_module (f rd (raw_idx rd)) = raw_module rd /\
  raw_idx (f rd (raw_idx rd)) = raw_idx rd /\
  raw_size (f rd (raw_idx rd)) = raw_size rd /\
  raw_type (f rd (raw_idx rd)) = raw_type rd /\
  Permutation (items (f rd (raw_idx rd))) (items rd) /\
  StronglySorted R (items (f rd (raw_idx rd))).
Proof.
  intros Hsort Hidx.
  assert (Hn : 0 <= raw_idx rd <= Z.of_nat (length (items rd))) by lia.
  destruct (Hsort rd (raw_idx rd) Hn) as (H1 & H2 & H3 & H4 & H5 & H6 & H7).
  remember (f rd (raw_idx rd)) as rd' eqn:Erd. clear Erd Hn Hsort.
  rewrite Hidx, Nat2Z.id in H5, H6, H7.
  rewrite (drop_ge (items rd)) in H7 by lia.
  rewrite (take_ge (items rd)) in H5 by lia.
  assert (E : take (length (items rd)) (items rd') = items rd').
  { rewrite <- (take_drop (length (items rd)) (items rd')) at 2.
    rewrite H7. now rewrite app_nil_r. }
  rewrite E in H5, H6.
  repeat split; assumption.
Qed.

(** The merge sort of the first [n] items is such a sort. *)
Lemma sort_items_sorts (R : relation GRawDataItem) `{!RelDecision R}
    `{!Transitive R} `{!Total R} :
  sorts R (sort_items R).
Proof.
  intros rd n Hn. unfold sort_items.
  cbn [items raw_module raw_idx raw_size raw_type].
  assert (Hlen : length (merge_sort R (take (Z.to_nat n) (items rd)))
                 = Z.to_nat n).
  { rewrite merge_sort_Permutation, length_take. lia. }
  do 4 (split; [reflexivity|]).
  rewrite take_app_length' by (symmetry; exact Hlen).
  rewrite drop_app_length' by (symmetry; exact Hlen).
  split; [apply merge_sort_Permutation|].
  split; [|reflexivity].
  apply StronglySorted_merge_sort; assumption.
Qed.

#[global] Instance num_le_total o : Total (num_le o).
Proof. exact (export_le_total o SORT_ASC REQUESTS). Qed.
#[global] Instance num_le_trans o : Transitive (num_le o).
Proof. exact (export_le_trans o SORT_ASC REQUESTS). Qed.
#[global] Instance str_le_total o : Total (str_le o).
Proof. exact (export_le_total SORT_ASC o VISITORS). Qed.
#[global] Instance str_le_trans o : Transitive (str_le o).
Proof. exact (export_le_trans SORT_ASC o VISITORS). Qed.

Lemma cursor_scan_Permutation (t : table) :
  Permutation (cursor_scan t) (map_to_list t).
Proof. apply merge_sort_Permutation. Qed.

Lemma db_parse_raw_data_eq
    (sort_num sort_str : GRawData -> Z -> GRawData) (m : GModule)
    (g : Globals) (d : MDB_dbi) :
  get_db g m (export_metric m) = Some d ->
  db_parse_raw_data sort_num sort_str m g
  = let raw_data :=
      fold_left (fun rd e => store_item rd (export_item m e))
        (cursor_scan (tbl g d))
        (init_new_raw_data m (to_uint32 (Z.of_nat (size (tbl g d))))
           (export_type m)) in
    Some (Some (match m with VISITORS => sort_str | _ => sort_num end
                  raw_data (raw_idx raw_data)), g).
Proof.
  intros Hd. unfold db_parse_raw_data.
  assert (Hst : db_storage g <> None).
  { intros E. unfold get_db in Hd. now rewrite E in Hd. }
  destruct (db_storage g) as [st|] eqn:E; [clear Hst|congruence].
  destruct m; cbn [export_metric export_type] in *;
    unfold parse_raw_str_data, parse_raw_num_data, bind, read, ret,
      db_get_size, mdb_stat_entries;
    rewrite Hd; reflexivity.
Qed.

(** C6, as amended: for a module whose exported table resolves and holds
    at most INT_MAX entries, db_parse_raw_data returns raw data of the
    module with exactly as many items as the table has entries; the items
    are, in some order, the entries of the table (the datamap, as
    strings, for VISITORS and the hits, as ints, for every other module),
    so what is filed under an int key shows up with that key and the
    value last written; and, the sort primitives doing what the spec says
    of them, the items are sorted by value in the configured direction,
    by number or by string. *)
Theorem export_complete_sorted (num_order str_order : GSortOrder)
    (sort_num sort_str : GRawData -> Z -> GRawData)
    (m : GModule) (g : Globals) (d : MDB_dbi) :
  sorts (num_le num_order) sort_num ->
  sorts (str_le str_order) sort_str ->
  get_db g m (export_metric m) = Some d ->
  Z.of_nat (size (tbl g d)) <= INT_MAX ->
  exists rd,
    db_parse_raw_data sort_num sort_str m g = Some (Some rd, g) /\
    raw_module rd = m /\ raw_type rd = export_type m /\
    raw_size rd = Z.of_nat (size (tbl g d)) /\
    raw_idx rd = Z.of_nat (size (tbl g d)) /\
    length (items rd) = size (tbl g d) /\
    Permutation (items rd)
      (map (fun e => {| key := load_int (fst e);
                        value := export_value m (snd e) |})
         (map_to_list (tbl g d))) /\
    StronglySorted (export_le num_order str_order m) (items rd) /\
    (forall k data, is_int k -> tbl g d !! int_bytes k = Some data ->
       In {| key := k; value := export_value m data |} (items rd)).
Proof.
  intros Hnum Hstr Hd Hcap.
  rewrite (db_parse_raw_data_eq sort_num sort_str m g d Hd). cbv zeta.
  destruct (filled_raw_data (export_item m) m (export_type m) (tbl g d) Hcap)
    as (F1 & F2 & F3 & F4 & F5).
  set (raw_data := fold_left _ _ _) in *.
  assert (Hidx : raw_idx raw_data = Z.of_nat (length (items raw_data))).
  { rewrite F1, F2, length_map, length_cursor_scan. reflexivity. }
  assert (Hs : sorts (export_le num_order str_order m)
                 (match m with VISITORS => sort_str | _ => sort_num end))
    by (destruct m; assumption).
  destruct (sorts_all _ _ raw_data Hs Hidx) as (S1 & S2 & S3 & S4 & S5 & S6).
  set (rd := match m with VISITORS => sort_str | _ => sort_num end
               raw_data (raw_idx raw_data)) in *.
  assert (Hperm : Permutation (items rd)
            (map (export_item m) (map_to_list (tbl g d)))).
  { rewrite S5, F1. apply Permutation_map, cursor_scan_Permutation. }
  exists rd. split; [reflexivity|].
  split; [congruence|]. split; [congruence|]. split; [congruence|].
  split; [congruence|].
  split; [rewrite Hperm, length_map; apply length_map_to_list|].
  split; [exact Hperm|]. split; [exact S6|].
  intros k data Hk Hin. apply (Permutation_in _ (Permutation_sym Hperm)).
  replace {| key := k; value := export_value m data |}
    with (export_item m (int_bytes k, data)).
  - apply in_map. apply list_elem_of_In. now apply elem_of_map_to_list.
  - unfold export_item. cbn [fst snd]. now rewrite load_int_bytes, to_int_id.
Qed.

(** * Further properties *)

(** ** What a write touches *)

Lemma registry_put (g : Globals) (d : MDB_dbi) (k v : list byte) :
  registry (put g d k v) = registry g.
Proof. reflexivity. Qed.

Lemma lookup_put_other (g : Globals) (d d' : MDB_dbi) (k k' v : list byte) :
  d <> d' \/ k' <> k -> tbl (put g d k v) d' !! k' = tbl g d' !! k'.
Proof.
  intros H. destruct (decide (d = d')) as [<-|Hd].
  - rewrite tbl_put. destruct H as [H|H]; [congruence|].
    apply lookup_insert_ne. congruence.
  - unfold put. now rewrite tbl_set_tbl_ne.
Qed.

Lemma ins_is32_eq (d : MDB_dbi) (k : Z) (v : list byte) (g : Globals) :
  ins_is32 (Some d) k v g
  = (Returned 0, put g d (int_bytes k) (span (str_data v))).
Proof. unfold ins_is32, bind. now rewrite mdb_put_int_key. Qed.

Lemma ins_iu64_eq (d : MDB_dbi) (k v : Z) (g : Globals) :
  ins_iu64 (Some d) k v g
  = (Returned 0, put g d (int_bytes k) (uint64_bytes v)).
Proof.
  unfold ins_iu64, bind. rewrite mdb_put_int_key.
  now rewrite span_uint64_data.
Qed.

(** Every write call either leaves the globals as they are or files one
    value under its key in its table. *)
Lemma run_write_cases (w : WriteCall) (g : Globals) :
  after (run_write w) g = g \/
  exists d v, write_db g w = Some d /\
              after (run_write w) g = put g d (write_key w) v.
Proof.
  assert (Hintern : forall it k,
            after (db_intern it k) g = g \/
            exists d v, intern_db g it = Some d /\
                        after (db_intern it k) g = put g d (key_bytes k) v).
  { intros it k. unfold after.
    destruct (db_intern_cases it k g) as [[r E]|(d & Hd & _ & _ & E)];
      rewrite E; cbn [snd]; eauto. }
  destruct w; cbn [run_write write_db write_key];
    try match goal with
        | |- context [db_insert_unique_key ?k] => exact (Hintern UNIQUE_KEYS k)
        | |- context [db_insert_agent_key ?k] => exact (Hintern AGENT_KEYS k)
        | |- context [db_insert_keymap ?m ?k] => exact (Hintern (KEYMAP_OF m) k)
        | |- context [db_insert_uniqmap ?m ?k] =>
            exact (Hintern (UNIQMAP_OF m) k)
        end.
  all: unfold after, db_insert_agent_value, db_insert_datamap,
         db_insert_rootmap, db_insert_root, db_insert_hits, db_insert_visitor,
         db_insert_bw, db_insert_cumts, db_insert_maxts, db_insert_method,
         db_insert_protocol, db_insert_meta_data, and_then, bind, read.
  all: match goal with
       | |- _ \/ (exists d v, ?X = Some d /\ _) =>
           destruct X as [d|] eqn:Hd; cbv beta iota; [|left; reflexivity]
       end.
  all: try (rewrite ins_is32_eq; right; eauto).
  all: try (rewrite ins_ii32_eq; right; eauto).
  all: try match goal with
       | |- context [inc_ii32 (Some ?d) ?k ?i ?g] =>
           destruct (inc_ii32_eq d k i g) as (v & E & _); rewrite E;
           right; eauto
       | |- context [inc_iu64 (Some ?d) ?k ?i ?g] =>
           destruct (inc_iu64_eq d k i g) as (v & E & _); rewrite E;
           right; eauto
       | |- context [inc_su64 (Some ?d) ?k ?i ?g] =>
           destruct (decide (valid_key k)) as [Hk|Hk];
           [ destruct (inc_su64_eq d k i g Hk) as (v & E & _); rewrite E;
             right; eauto
           | rewrite (inc_su64_refused d k i g Hk); now left ]
       end.
  rewrite get_iu64_eq.
  match goal with
  | |- context [if ?c then _ else _] => destruct c; [|now left]
  end.
  rewrite ins_iu64_eq. right; eauto.
Qed.

Lemma run_write_frame (w : WriteCall) (g : Globals) :
  registry (after (run_write w) g) = registry g /\
  (forall d k, write_db g w <> Some d \/ k <> write_key w ->
     tbl (after (run_write w) g) d !! k = tbl g d !! k).
Proof.
  destruct (run_write_cases w g) as [E|(d & v & Hd & E)]; rewrite E.
  - split; reflexivity.
  - split; [apply registry_put|]. intros d' k' H. apply lookup_put_other.
    destruct H as [H|H]; [left; congruence | now right].
Qed.

(** X1: a write call never changes the pointers of the registry, and of
    all the entries of all the tables it changes at most the one filed
    under its key in the table it resolves. *)
Theorem write_changes_one_entry (w : WriteCall) (g : Globals) :
  let g' := after (run_write w) g in
  registry g' = registry g /\
  (forall d k, write_db g w <> Some d \/ k <> write_key w ->
     tbl g' d !! k = tbl g d !! k).
Proof. apply run_write_frame. Qed.

(** ** The registry after [ginit_storage] *)

Lemma module_index_lt (m : GModule) : (module_index m < TOTAL_MODULES)%nat.
Proof. unfold TOTAL_MODULES. destruct m; cbn; lia. Qed.

Lemma metric_index_lt (mt : GSMetric) : (metric_index mt < GSMTRC_TOTAL)%nat.
Proof. unfold GSMTRC_TOTAL. destruct mt; cbn; lia. Qed.

Lemma metric_index_inj (mt mt' : GSMetric) :
  metric_index mt = metric_index mt' -> mt = mt'.
Proof. destruct mt, mt'; cbn; intros E; try reflexivity; discriminate. Qed.

(** The names of the tables. *)
Lemma all_names_NoDup :
  NoDup (global_names ++ concat (map module_names all_modules)).
Proof. apply (bool_decide_unpack _). vm_compute. exact I. Qed.

Lemma all_modules_complete (m : GModule) : m ∈ all_modules.
Proof. apply (bool_decide_unpack _). destruct m; vm_compute; exact I. Qed.

Lemma concat_map_submseteq {A B} (f : A -> list B) (l k : list A) :
  l ⊆+ k -> concat (map f l) ⊆+ concat (map f k).
Proof.
  induction 1 as [|x l1 l2 _ IH|x y l|x l1 l2 _ IH|l1 l2 l3 _ IH1 _ IH2];
    cbn [map concat].
  - constructor.
  - now apply submseteq_skips_l.
  - apply Permutation_submseteq. rewrite !app_assoc.
    apply Permutation_app_tail, Permutation_app_comm.
  - now apply submseteq_inserts_l.
  - now transitivity (concat (map f l2)).
Qed.

Lemma names_NoDup (ml : list GModule) :
  NoDup ml -> NoDup (global_names ++ concat (map module_names ml)).
Proof.
  intros Hnd.
  assert (Hsub : global_names ++ concat (map module_names ml)
                 ⊆+ global_names ++ concat (map module_names all_modules)).
  { apply submseteq_skips_l, concat_map_submseteq.
    apply NoDup_submseteq; [exact Hnd|].
    intros m _. apply all_modules_complete. }
  apply submseteq_Permutation in Hsub as [k Hk].
  pose proof all_names_NoDup as H. rewrite Hk in H.
  now apply NoDup_app in H as [H _].
Qed.

Lemma length_module_names (m : GModule) :
  length (module_names m) = GSMTRC_TOTAL.
Proof. reflexivity. Qed.

Lemma length_concat_module_names (ml : list GModule) :
  length (concat (map module_names ml)) = (GSMTRC_TOTAL * length ml)%nat.
Proof.
  induction ml as [|m ml IH]; [reflexivity|].
  cbn [map concat length]. rewrite length_app, IH, length_module_names. lia.
Qed.

Lemma names_length (ml : list GModule) :
  NoDup ml ->
  (length (global_names ++ concat (map module_names ml))
   <= 5 + GSMTRC_TOTAL * TOTAL_MODULES)%nat.
Proof.
  intros Hnd. rewrite length_app, length_concat_module_names.
  assert (length ml <= length all_modules)%nat.
  { apply submseteq_length, NoDup_submseteq; [exact Hnd|].
    intros m _. apply all_modules_complete. }
  change (length all_modules) with TOTAL_MODULES in H.
  change (length global_names) with 5%nat. unfold GSMTRC_TOTAL. lia.
Qed.

(** ** Opening tables *)

Lemma name_index_None (names : list string) (name : string) :
  ~ In name names -> name_index names name = None.
Proof.
  induction names as [|n names IH]; cbn [name_index In]; [reflexivity|].
  intros H. destruct (String.eqb n name) eqn:E.
  - apply String.eqb_eq in E. tauto.
  - rewrite IH by tauto. reflexivity.
Qed.

Lemma dbi_at_inj (i j : nat) : dbi_at i = dbi_at j -> i = j.
Proof. unfold dbi_at. lia. Qed.

Lemma env_opened_same_env (g g' : Globals) (dir : gmap string table)
    (names : list string) :
  env_of g' = env_of g -> env_opened g dir names -> env_opened g' dir names.
Proof.
  unfold env_of, env_opened, tbl. intros [= E1 E2 E3 E4].
  now rewrite E1, E2, E3, E4.
Qed.

Lemma run_eq {A} (m : Db A) (g : Globals) : m g = (result m g, after m g).
Proof. unfold result, after. now destruct (m g). Qed.

(** A name that is not open gets the next handle, and the table of that
    handle holds what the directory holds under the name. *)
Lemma create_datebase_new (name : string) (g : Globals)
    (dir : gmap string table) (names : list string) :
  env_opened g dir names -> ~ In name names ->
  (length names < LMDB_ENV_MAX_DBS)%nat ->
  let g' := after (create_datebase name) g in
  result (create_datebase name) g
  = Returned (Some (dbi_at (length names))) /\
  env_opened g' dir (names ++ [name]) /\
  db_storage g' = db_storage g /\ global_tables g' = global_tables g.
Proof.
  intros (Hn & Hmax & Hdir & Htbl) Hnotin Hroom. cbv zeta.
  unfold result, after, create_datebase, mdb_dbi_open, bind.
  rewrite Hn, (name_index_None names name Hnotin), Hmax.
  assert (E : (LMDB_ENV_MAX_DBS <=? length names)%nat = false)
    by (apply Nat.leb_gt; exact Hroom).
  rewrite E. cbn [fst snd negb Z.eqb MDB_SUCCESS returns ret].
  split; [reflexivity|]. split; [|split; reflexivity].
  unfold env_opened. cbn [env_names env_maxdbs env_dir].
  split; [reflexivity|]. split; [reflexivity|]. split; [exact Hdir|].
  intros i nm Hi. unfold tbl at 1. cbn [env_dbs].
  destruct (decide (i = length names)) as [->|Hne].
  - rewrite lookup_insert_eq. cbn [default].
    rewrite lookup_app_r, Nat.sub_diag in Hi by lia.
    cbn in Hi. injection Hi as <-. now rewrite Hdir.
  - rewrite lookup_insert_ne
      by (intros E'; apply dbi_at_inj in E'; congruence).
    apply Htbl. rewrite lookup_app_l in Hi; [exact Hi|].
    apply lookup_lt_Some in Hi. rewrite length_app in Hi. cbn in Hi. lia.
Qed.

Lemma update_storage_eq (m : GModule) f (g : Globals) (st : list GLMDBStorage) :
  db_storage g = Some st ->
  db_storage (after (update_storage m f) g)
  = Some (<[module_index m := f (storage_at st m)]> st) /\
  env_of (after (update_storage m f) g) = env_of g /\
  global_tables (after (update_storage m f) g) = global_tables g.
Proof.
  intros Hst. unfold after, update_storage, set_db_storage, global_tables,
    env_of.
  cbn [snd db_storage env_dbs env_names env_maxdbs env_dir ht_agent_keys
       ht_agent_vals ht_general_stats ht_hostnames ht_unique_keys].
  now rewrite Hst.
Qed.

Lemma storage_at_insert (st : list GLMDBStorage) (m : GModule) (s : GLMDBStorage) :
  (module_index m < length st)%nat ->
  storage_at (<[module_index m := s]> st) m = s.
Proof.
  intros H. unfold storage_at. now rewrite list_lookup_insert_eq.
Qed.

Lemma storage_at_insert_ne (st : list GLMDBStorage) (m m' : GModule)
    (s : GLMDBStorage) :
  m' <> m -> storage_at (<[module_index m := s]> st) m' = storage_at st m'.
Proof.
  intros H. unfold storage_at. rewrite list_lookup_insert_ne; [reflexivity|].
  intros E. apply H. symmetry. now apply module_index_inj.
Qed.

Lemma init_tables_from_spec (m : GModule) (dir : gmap string table)
    (ms : list GLMDBStorageMetric) :
  forall (i : nat) (g : Globals) (names : list string)
         (st : list GLMDBStorage),
  env_opened g dir names -> db_storage g = Some st ->
  NoDup (names ++ names_of m ms) ->
  (length (names ++ names_of m ms) <= LMDB_ENV_MAX_DBS)%nat ->
  (module_index m < length st)%nat ->
  (i + length ms <= length (metrics (storage_at st m)))%nat ->
  exists st',
    let g' := after (init_tables_from m i ms) g in
    result (init_tables_from m i ms) g = Returned tt /\
    env_opened g' dir (names ++ names_of m ms) /\
    db_storage g' = Some st' /\
    global_tables g' = global_tables g /\
    length st' = length st /\
    (forall m', m' <> m -> storage_at st' m' = storage_at st m') /\
    length (metrics (storage_at st' m)) = length (metrics (storage_at st m)) /\
    (forall p, (p < i)%nat ->
       metrics (storage_at st' m) !! p = metrics (storage_at st m) !! p) /\
    (forall j mtrc, ms !! j = Some mtrc ->
       metrics (storage_at st' m) !! (i + j)%nat
       = Some {| metric := metric mtrc; dbname := dbname mtrc;
                 store := Some (dbi_at (length names + j)) |}).
Proof.
  induction ms as [|mtrc ms IH]; intros i g names st Hopen Hst Hnd Hroom Hm Hlen.
  - exists st. cbn [init_tables_from length names_of map].
    unfold after, result, returns, ret. cbn [fst snd].
    rewrite app_nil_r.
    split; [reflexivity|]. split; [exact Hopen|].
    repeat split; auto; intros j x Hj; discriminate.
  - cbn [init_tables_from length names_of map] in *.
    fold (names_of m ms) in *.
    remember (get_dbname (default EmptyString (dbname mtrc)) m) as name
      eqn:Ename.
    assert (Hnotin : ~ In name names).
    { apply NoDup_app in Hnd as (_ & Hdisj & _). intros Hin.
      apply (Hdisj name); [now apply list_elem_of_In | left]. }
    assert (Hlt : (length names < LMDB_ENV_MAX_DBS)%nat).
    { rewrite length_app in Hroom. cbn [length] in Hroom. lia. }
    destruct (create_datebase_new name g dir names Hopen Hnotin Hlt)
      as (Hr & Hopen1 & Hst1 & Hgt1).
    remember (after (create_datebase name) g) as g1 eqn:Eg1.
    unfold result, after.
    rewrite (and_then_returned _ _ g g1 (Some (dbi_at (length names))))
      by (rewrite run_eq, Hr, Eg1; reflexivity).
    clear Eg1 Hr. rewrite Hst in Hst1.
    remember (fun s => {| module := module s;
                          metrics := <[i := {| metric := metric mtrc;
                                               dbname := dbname mtrc;
                                               store := Some (dbi_at (length names)) |}]>
                                       (metrics s) |}) as f eqn:Ef.
    destruct (update_storage_eq m f g1 st Hst1) as (Hst2 & Henv2 & Hgt2).
    remember (after (update_storage m f) g1) as g2 eqn:Eg2.
    remember (<[module_index m := f (storage_at st m)]> st) as st2 eqn:Est2.
    assert (Hopen2 : env_opened g2 dir (names ++ [name]))
      by now apply (env_opened_same_env g1).
    assert (Hat2 : storage_at st2 m = f (storage_at st m))
      by (rewrite Est2; now apply storage_at_insert).
    assert (Hlen2 : length st2 = length st)
      by (rewrite Est2; apply length_insert).
    assert (Hother2 : forall m', m' <> m ->
              storage_at st2 m' = storage_at st m')
      by (intros m' Hne; rewrite Est2; now apply storage_at_insert_ne).
    assert (Hbind : (exec update_storage m f in init_tables_from m (S i) ms) g1
                    = init_tables_from m (S i) ms g2).
    { unfold bind. rewrite (run_eq (update_storage m f) g1), <- Eg2.
      reflexivity. }
    rewrite Hbind. clear Hbind Eg2 Est2.
    destruct (IH (S i) g2 (names ++ [name]) st2 Hopen2 Hst2) as (st' & H).
    + now rewrite <- app_assoc.
    + now rewrite <- app_assoc.
    + now rewrite Hlen2.
    + rewrite Hat2, Ef. cbn [metrics]. rewrite length_insert. lia.
    + cbv zeta in H. unfold result, after in H.
      destruct H as (H0 & H1 & H2 & H3 & H4 & H5 & H6 & H7 & H8).
      exists st'. cbv zeta.
      split; [exact H0|]. split; [now rewrite <- app_assoc in H1|].
      split; [exact H2|]. split; [now rewrite H3, Hgt2, Hgt1|].
      split; [now rewrite H4|].
      split; [intros m' Hne; now rewrite H5, Hother2|].
      split; [rewrite H6, Hat2, Ef; cbn [metrics]; apply length_insert|].
      split.
      * intros p Hp. rewrite H7 by lia. rewrite Hat2, Ef. cbn [metrics].
        apply list_lookup_insert_ne. lia.
      * intros [|j] x Hj.
        -- cbn in Hj. injection Hj as <-. rewrite !Nat.add_0_r.
           rewrite H7 by lia. rewrite Hat2, Ef. cbn [metrics].
           apply list_lookup_insert_eq. lia.
        -- cbn in Hj. replace (i + S j)%nat with (S i + j)%nat by lia.
           rewrite (H8 j x Hj). do 3 f_equal. rewrite length_app.
           cbn [length]. f_equal. lia.
Qed.

Lemma length_inited_metrics (n : nat) : length (inited_metrics n) = GSMTRC_TOTAL.
Proof. reflexivity. Qed.

Lemma init_tables_spec (m : GModule) (dir : gmap string table) (g : Globals)
    (names : list string) (st : list GLMDBStorage) :
  env_opened g dir names -> db_storage g = Some st ->
  NoDup (names ++ module_names m) ->
  (length (names ++ module_names m) <= LMDB_ENV_MAX_DBS)%nat ->
  (module_index m < length st)%nat ->
  length (metrics (storage_at st m)) = GSMTRC_TOTAL ->
  exists st',
    let g' := after (init_tables m) g in
    result (init_tables m) g = Returned tt /\
    env_opened g' dir (names ++ module_names m) /\
    db_storage g' = Some st' /\
    global_tables g' = global_tables g /\
    length st' = length st /\
    (forall m', m' <> m -> storage_at st' m' = storage_at st m') /\
    metrics (storage_at st' m) = inited_metrics (CORE_DBS + length names).
Proof.
  intros Hopen Hst Hnd Hroom Hm Hlen.
  destruct (init_tables_from_spec m dir init_metrics 0 g names st Hopen Hst
              Hnd Hroom Hm)
    as (st' & H0 & H1 & H2 & H3 & H4 & H5 & H6 & _ & H8).
  { rewrite Hlen. reflexivity. }
  exists st'. cbv zeta. unfold init_tables.
  split; [exact H0|]. split; [exact H1|]. repeat split; auto.
  apply list_eq. intros j.
  destruct (init_metrics !! j) as [mtrc|] eqn:Hj.
  - pose proof (H8 j mtrc Hj) as E. cbn [Nat.add] in E. rewrite E.
    unfold inited_metrics.
    rewrite list_lookup_imap, Hj. cbn. unfold dbi_at. do 3 f_equal; lia.
  - apply lookup_ge_None in Hj.
    rewrite (proj2 (lookup_ge_None _ _)) by (rewrite H6, Hlen; exact Hj).
    symmetry. apply lookup_ge_None. rewrite length_inited_metrics. exact Hj.
Qed.

Lemma get_db_loop_inited (n : nat) (mt : GSMetric) :
  get_db_loop (take GSMTRC_TOTAL (inited_metrics n)) mt
  = Some (N.of_nat (n + metric_index mt)).
Proof. destruct mt; reflexivity. Qed.

Lemma storage_of_Some (g : Globals) (st : list GLMDBStorage) (m : GModule) :
  db_storage g = Some st -> storage_of g m = Some (storage_at st m).
Proof. intros H. unfold storage_of. now rewrite H. Qed.

Lemma foreach_module_spec (dir : gmap string table) (ml : list GModule) :
  NoDup ml ->
  forall (g : Globals) (names : list string) (st : list GLMDBStorage),
  env_opened g dir names -> db_storage g = Some st ->
  length st = TOTAL_MODULES ->
  NoDup (names ++ concat (map module_names ml)) ->
  (length (names ++ concat (map module_names ml)) <= LMDB_ENV_MAX_DBS)%nat ->
  (forall m, In m ml -> length (metrics (storage_at st m)) = GSMTRC_TOTAL) ->
  exists st',
    let g' := after (foreach_module ml) g in
    result (foreach_module ml) g = Returned tt /\
    env_opened g' dir (names ++ concat (map module_names ml)) /\
    db_storage g' = Some st' /\
    global_tables g' = global_tables g /\
    (forall i m, ml !! i = Some m ->
       metrics (storage_at st' m)
       = inited_metrics (CORE_DBS + length names + GSMTRC_TOTAL * i)).
Proof.
  induction ml as [|m ml IH];
    intros Hnd g names st Hopen Hst Hlen Hnames Hroom Hms.
  - exists st. cbn [foreach_module length map concat].
    unfold after, result, returns, ret. cbn [fst snd].
    rewrite app_nil_r.
    split; [reflexivity|]. split; [exact Hopen|]. repeat split; auto.
    intros i m Hi. discriminate.
  - apply NoDup_cons in Hnd as [Hnotin Hnd].
    cbn [foreach_module map concat] in *.
    rewrite app_assoc in Hnames, Hroom.
    remember (fun s => {| module := m; metrics := metrics s |}) as f eqn:Ef.
    destruct (update_storage_eq m f g st Hst) as (Hst1 & Henv1 & Hgt1).
    remember (after (update_storage m f) g) as g1 eqn:Eg1.
    remember (<[module_index m := f (storage_at st m)]> st) as st1 eqn:Est1.
    assert (Hm : (module_index m < length st)%nat)
      by (rewrite Hlen; apply module_index_lt).
    assert (Hopen1 : env_opened g1 dir names)
      by now apply (env_opened_same_env g).
    assert (Hat1 : storage_at st1 m = f (storage_at st m))
      by (rewrite Est1; now apply storage_at_insert).
    assert (Hlen1 : length st1 = length st)
      by (rewrite Est1; apply length_insert).
    assert (Hother1 : forall m', m' <> m -> storage_at st1 m' = storage_at st m')
      by (intros m' Hne; rewrite Est1; now apply storage_at_insert_ne).
    assert (Hbind : (exec update_storage m f in
                     try init_tables m in foreach_module ml) g
                    = (try init_tables m in foreach_module ml) g1).
    { unfold bind at 1. rewrite (run_eq (update_storage m f) g), <- Eg1.
      reflexivity. }
    unfold result, after. rewrite Hbind. clear Hbind Eg1 Est1.
    destruct (init_tables_spec m dir g1 names st1 Hopen1 Hst1)
      as (st2 & H0 & H1 & H2 & H3 & H4 & H5 & H6).
    { apply NoDup_app in Hnames as (H & _ & _). exact H. }
    { rewrite length_app in Hroom. lia. }
    { now rewrite Hlen1. }
    { rewrite Hat1, Ef. cbn [metrics]. apply Hms. now left. }
    remember (after (init_tables m) g1) as g2 eqn:Eg2.
    rewrite (and_then_returned _ _ g1 g2 tt)
      by (rewrite run_eq, H0, Eg2; reflexivity).
    clear H0.
    destruct (IH Hnd g2 (names ++ module_names m) st2 H1 H2)
      as (st3 & K0 & K1 & K2 & K3 & K4).
    { now rewrite H4, Hlen1. }
    { exact Hnames. }
    { exact Hroom. }
    { intros m' Hin.
      assert (Hne : m' <> m).
      { intros ->. apply Hnotin. now apply list_elem_of_In. }
      rewrite H5, Hother1 by exact Hne. apply Hms. now right. }
    unfold result, after in K0, K1, K2, K3.
    exists st3. split; [exact K0|]. split; [|split; [|split]].
    + rewrite app_assoc. exact K1.
    + exact K2.
    + rewrite K3, H3, Hgt1. reflexivity.
    + intros [|i] m' Hi.
      * assert (Hmm : m' = m) by (cbn in Hi; congruence). subst m'.
        rewrite Nat.mul_0_r, Nat.add_0_r.
        assert (Hkeep : storage_of (after (foreach_module ml) g2) m
                        = storage_of g2 m).
        { apply storage_of_foreach_module. intros Hin.
          apply Hnotin. now apply list_elem_of_In. }
        unfold after in Hkeep.
        rewrite (storage_of_Some _ st3 m K2) in Hkeep.
        rewrite (storage_of_Some g2 st2 m H2) in Hkeep.
        injection Hkeep as Hkeep. rewrite Hkeep. exact H6.
      * assert (Hi' : ml !! i = Some m') by exact Hi.
        rewrite (K4 i m' Hi'). f_equal.
        rewrite length_app, length_module_names. lia.
Qed.

(** One of the five assignments [ht_... = create_datebase (...)]. *)
Lemma open_global_table (name : string) (set : option MDB_dbi -> Db unit)
    (k : Db (Outcome unit)) (g : Globals) (dir : gmap string table)
    (names : list string) :
  env_opened g dir names -> ~ In name names ->
  (length names < LMDB_ENV_MAX_DBS)%nat ->
  (forall p g1, env_of (after (set p) g1) = env_of g1 /\
                db_storage (after (set p) g1) = db_storage g1) ->
  let g' := after (set (Some (dbi_at (length names))))
              (after (create_datebase name) g) in
  (try* p := create_datebase name in exec set p in k) g = k g' /\
  env_opened g' dir (names ++ [name]) /\
  db_storage g' = db_storage g /\
  global_tables (after (create_datebase name) g) = global_tables g.
Proof.
  intros Hopen Hnotin Hroom Hset. cbv zeta.
  destruct (create_datebase_new name g dir names Hopen Hnotin Hroom)
    as (Hr & Hopen1 & Hst1 & Hgt1).
  destruct (Hset (Some (dbi_at (length names)))
              (after (create_datebase name) g)) as [He Hs].
  split; [|split; [|split]].
  - rewrite (and_then_returned _ _ g (after (create_datebase name) g)
               (Some (dbi_at (length names))))
      by (now rewrite run_eq, Hr).
    unfold bind. now rewrite run_eq.
  - now apply (env_opened_same_env (after (create_datebase name) g)).
  - now rewrite Hs.
  - exact Hgt1.
Qed.

(** [ginit_storage] in a process that has just started, over any
    directory: it returns, with the five global tables under the first
    handles and the tables of the listed modules after them, each
    holding what the directory held under its name. *)
Lemma ginit_storage_spec (dir : gmap string table) (ml : list GModule) :
  NoDup ml ->
  let g := after (ginit_storage ml) (boot dir) in
  result (ginit_storage ml) (boot dir) = Returned tt /\
  global_tables g = (Some 2%N, Some 3%N, Some 4%N, Some 5%N, Some 6%N) /\
  env_opened g dir (global_names ++ concat (map module_names ml)) /\
  (forall i m mt, ml !! i = Some m ->
     get_db g m mt
     = Some (N.of_nat (7 + GSMTRC_TOTAL * i + metric_index mt))).
Proof.
  intros Hnd. cbv zeta.
  pose proof (names_NoDup ml Hnd) as Hnames.
  pose proof (names_length ml Hnd) as Hroom.
  remember (concat (map module_names ml)) as rest eqn:Erest.
  assert (Hroom' : (length (global_names ++ rest) <= LMDB_ENV_MAX_DBS)%nat).
  { unfold GSMTRC_TOTAL, TOTAL_MODULES, LMDB_ENV_MAX_DBS in *. lia. }
  clear Hroom.
  remember (after (set_db_storage (new_storage TOTAL_MODULES)) (boot dir))
    as g0 eqn:E0.
  remember (after create_environment g0) as ge eqn:Ee.
  assert (H0 : env_opened ge dir []).
  { rewrite Ee, E0. unfold env_opened. repeat split.
    intros i name Hi. discriminate. }
  assert (S0 : db_storage ge = Some (replicate TOTAL_MODULES zero_storage))
    by (rewrite Ee, E0; reflexivity).
  assert (G0 : global_tables ge = (None, None, None, None, None))
    by (rewrite Ee, E0; reflexivity).
  assert (Hrun : ginit_storage ml (boot dir)
                 = (try* ak := create_datebase "db_agent_keys" in
                    exec set_ht_agent_keys ak in
                    try* av := create_datebase "db_agent_vals" in
                    exec set_ht_agent_vals av in
                    try* gs := create_datebase "db_gen_stats" in
                    exec set_ht_general_stats gs in
                    try* hn := create_datebase "db_hostnames" in
                    exec set_ht_hostnames hn in
                    try* uk := create_datebase "db_unique_keys" in
                    exec set_ht_unique_keys uk in
                    foreach_module ml) ge).
  { rewrite ginit_storage_eq. unfold bind at 1.
    rewrite (run_eq (set_db_storage _) (boot dir)), <- E0.
    unfold open_tables. unfold and_then at 1, bind at 1.
    rewrite (run_eq create_environment g0), <- Ee.
    assert (Re : result create_environment g0 = Returned tt) by reflexivity.
    now rewrite Re. }
  clear Ee E0 g0.
  assert (Hroom5 : forall n, (n < 5)%nat -> (n < LMDB_ENV_MAX_DBS)%nat)
    by (unfold LMDB_ENV_MAX_DBS; lia).
  match type of Hrun with
  | _ = (try* p := create_datebase _ in exec _ p in ?k) _ =>
      destruct (open_global_table "db_agent_keys" set_ht_agent_keys k ge dir
                  [] H0)
        as (R1 & H1 & S1 & C1);
        [cbn; intuition discriminate | apply Hroom5; cbn; lia
        | intros p gx; split; reflexivity |]
  end.
  rewrite R1 in Hrun; clear R1.
  remember (after (set_ht_agent_keys (Some (dbi_at (length []))))
              (after (create_datebase "db_agent_keys") ge)) as g1 eqn:E1.
  assert (G1 : global_tables g1 = (Some 2%N, None, None, None, None)).
  { rewrite E1. unfold global_tables in C1, G0 |- *.
    rewrite G0 in C1. injection C1 as K1 K2 K3 K4 K5.
    unfold after, set_ht_agent_keys, set_global_tables.
    cbn [snd ht_agent_keys ht_agent_vals ht_general_stats ht_hostnames
         ht_unique_keys].
    unfold after in K1, K2, K3, K4, K5.
    rewrite ?K1, ?K2, ?K3, ?K4, ?K5. reflexivity. }
  rewrite S0 in S1. clear E1 C1. cbn [app] in H1.
  match type of Hrun with
  | _ = (try* p := create_datebase _ in exec _ p in ?k) _ =>
      destruct (open_global_table "db_agent_vals" set_ht_agent_vals k g1 dir
                  ["db_agent_keys"%string] H1)
        as (R2 & H2 & S2 & C2);
        [cbn; intuition discriminate | apply Hroom5; cbn; lia
        | intros p gx; split; reflexivity |]
  end.
  rewrite R2 in Hrun; clear R2.
  remember (after (set_ht_agent_vals (Some (dbi_at (length ["db_agent_keys"%string]))))
              (after (create_datebase "db_agent_vals") g1)) as g2 eqn:E2.
  assert (G2 : global_tables g2 = (Some 2%N, Some 3%N, None, None, None)).
  { rewrite E2. unfold global_tables in C2, G1 |- *.
    rewrite G1 in C2. injection C2 as K1 K2 K3 K4 K5.
    unfold after, set_ht_agent_vals, set_global_tables.
    cbn [snd ht_agent_keys ht_agent_vals ht_general_stats ht_hostnames
         ht_unique_keys].
    unfold after in K1, K2, K3, K4, K5.
    rewrite ?K1, ?K2, ?K3, ?K4, ?K5. reflexivity. }
  rewrite S1 in S2. clear E2 C2. cbn [app] in H2.
  match type of Hrun with
  | _ = (try* p := create_datebase _ in exec _ p in ?k) _ =>
      destruct (open_global_table "db_gen_stats" set_ht_general_stats k g2 dir
                  ["db_agent_keys"; "db_agent_vals"]%string H2)
        as (R3 & H3 & S3 & C3);
        [cbn; intuition discriminate | apply Hroom5; cbn; lia
        | intros p gx; split; reflexivity |]
  end.
  rewrite R3 in Hrun; clear R3.
  remember (after (set_ht_general_stats (Some (dbi_at (length ["db_agent_keys"; "db_agent_vals"]%string))))
              (after (create_datebase "db_gen_stats") g2)) as g3 eqn:E3.
  assert (G3 : global_tables g3 = (Some 2%N, Some 3%N, Some 4%N, None, None)).
  { rewrite E3. unfold global_tables in C3, G2 |- *.
    rewrite G2 in C3. injection C3 as K1 K2 K3 K4 K5.
    unfold after, set_ht_general_stats, set_global_tables.
    cbn [snd ht_agent_keys ht_agent_vals ht_general_stats ht_hostnames
         ht_unique_keys].
    unfold after in K1, K2, K3, K4, K5.
    rewrite ?K1, ?K2, ?K3, ?K4, ?K5. reflexivity. }
  rewrite S2 in S3. clear E3 C3. cbn [app] in H3.
  match type of Hrun with
  | _ = (try* p := create_datebase _ in exec _ p in ?k) _ =>
      destruct (open_global_table "db_hostnames" set_ht_hostnames k g3 dir
                  ["db_agent_keys"; "db_agent_vals"; "db_gen_stats"]%string H3)
        as (R4 & H4 & S4 & C4);
        [cbn; intuition discriminate | apply Hroom5; cbn; lia
        | intros p gx; split; reflexivity |]
  end.
  rewrite R4 in Hrun; clear R4.
  remember (after (set_ht_hostnames (Some (dbi_at (length ["db_agent_keys"; "db_agent_vals"; "db_gen_stats"]%string))))
              (after (create_datebase "db_hostnames") g3)) as g4 eqn:E4.
  assert (G4 : global_tables g4 = (Some 2%N, Some 3%N, Some 4%N, Some 5%N, None)).
  { rewrite E4. unfold global_tables in C4, G3 |- *.
    rewrite G3 in C4. injection C4 as K1 K2 K3 K4 K5.
    unfold after, set_ht_hostnames, set_global_tables.
    cbn [snd ht_agent_keys ht_agent_vals ht_general_stats ht_hostnames
         ht_unique_keys].
    unfold after in K1, K2, K3, K4, K5.
    rewrite ?K1, ?K2, ?K3, ?K4, ?K5. reflexivity. }
  rewrite S3 in S4. clear E4 C4. cbn [app] in H4.
  match type of Hrun with
  | _ = (try* p := create_datebase _ in exec _ p in ?k) _ =>
      destruct (open_global_table "db_unique_keys" set_ht_unique_keys k g4 dir
                  ["db_agent_keys"; "db_agent_vals"; "db_gen_stats"; "db_hostnames"]%string H4)
        as (R5 & H5 & S5 & C5);
        [cbn; intuition discriminate | apply Hroom5; cbn; lia
        | intros p gx; split; reflexivity |]
  end.
  rewrite R5 in Hrun; clear R5.
  remember (after (set_ht_unique_keys (Some (dbi_at (length ["db_agent_keys"; "db_agent_vals"; "db_gen_stats"; "db_hostnames"]%string))))
              (after (create_datebase "db_unique_keys") g4)) as g5 eqn:E5.
  assert (G5 : global_tables g5 = (Some 2%N, Some 3%N, Some 4%N, Some 5%N, Some 6%N)).
  { rewrite E5. unfold global_tables in C5, G4 |- *.
    rewrite G4 in C5. injection C5 as K1 K2 K3 K4 K5.
    unfold after, set_ht_unique_keys, set_global_tables.
    cbn [snd ht_agent_keys ht_agent_vals ht_general_stats ht_hostnames
         ht_unique_keys].
    unfold after in K1, K2, K3, K4, K5.
    rewrite ?K1, ?K2, ?K3, ?K4, ?K5. reflexivity. }
  rewrite S4 in S5. clear E5 C5. cbn [app] in H5.
  change (["db_agent_keys"; "db_agent_vals"; "db_gen_stats"; "db_hostnames";
           "db_unique_keys"]%string) with global_names in H5.
  destruct (foreach_module_spec dir ml Hnd g5 global_names
              (replicate TOTAL_MODULES zero_storage) H5 S5)
    as (st' & K0 & K1 & K2 & K3 & K4).
  - apply length_replicate.
  - now rewrite <- Erest.
  - now rewrite <- Erest.
  - intros m _. now destruct m.
  - unfold result, after in *. rewrite Hrun.
    split; [exact K0|]. split; [now rewrite K3|].
    split; [now rewrite Erest|].
    intros i m mt Hi. unfold get_db. rewrite K2, (K4 i m Hi).
    rewrite get_db_loop_inited. reflexivity.
Qed.

Lemma get_db_registered (dir : gmap string table) (ml : list GModule)
    (m : GModule) (mt : GSMetric) (d : MDB_dbi) :
  NoDup ml ->
  get_db (after (ginit_storage ml) (boot dir)) m mt = Some d ->
  exists i, ml !! i = Some m /\
            d = N.of_nat (7 + GSMTRC_TOTAL * i + metric_index mt).
Proof.
  intros Hnd Hd. destruct (decide (m ∈ ml)) as [Hin|Hnotin].
  - apply list_elem_of_lookup in Hin as [i Hi].
    exists i. split; [exact Hi|].
    destruct (ginit_storage_spec dir ml Hnd) as (_ & _ & _ & H).
    rewrite (H i m mt Hi) in Hd. congruence.
  - rewrite (get_db_unregistered ml m mt) in Hd; [discriminate|].
    intros Hin. apply Hnotin. now apply list_elem_of_In.
Qed.

Lemma lookup_concat_module_names (ml : list GModule) (i : nat) (m : GModule)
    (j : nat) :
  ml !! i = Some m -> (j < GSMTRC_TOTAL)%nat ->
  concat (map module_names ml) !! (GSMTRC_TOTAL * i + j)%nat
  = module_names m !! j.
Proof.
  revert i. induction ml as [|m' ml IH]; intros i Hi Hj; [discriminate|].
  cbn [map concat]. destruct i as [|i].
  - cbn in Hi. injection Hi as ->. rewrite Nat.mul_0_r, Nat.add_0_l.
    apply lookup_app_l. now rewrite length_module_names.
  - cbn in Hi. rewrite lookup_app_r by (rewrite length_module_names; lia).
    rewrite length_module_names.
    replace (GSMTRC_TOTAL * S i + j - GSMTRC_TOTAL)%nat
      with (GSMTRC_TOTAL * i + j)%nat by lia.
    now apply IH.
Qed.

Lemma lookup_table_name (m : GModule) (mt : GSMetric) :
  module_names m !! metric_index mt = Some (table_name m mt).
Proof.
  unfold table_name.
  destruct (module_names m !! metric_index mt) eqn:E; [reflexivity|].
  apply lookup_ge_None in E. rewrite length_module_names in E.
  pose proof (metric_index_lt mt). lia.
Qed.

(** X2: ginit_storage, run over a module list without repetitions in a
    process that has just started, returns; every listed module then
    resolves each of the 14 metrics to a table and no other module
    resolves any; no table is shared between two (module, metric) pairs
    or with one of the five global tables, which have the first five
    handles of the environment; and every table holds what the directory
    held under its name, nothing when the name is new. *)
Theorem ginit_storage_registry (dir : gmap string table)
    (ml : list GModule) :
  NoDup ml ->
  let g := after (ginit_storage ml) (boot dir) in
  result (ginit_storage ml) (boot dir) = Returned tt /\
  (forall m mt, In m ml ->
     exists d, get_db g m mt = Some d /\
               tbl g d = default ∅ (dir !! table_name m mt)) /\
  (forall m mt, ~ In m ml -> get_db g m mt = None) /\
  (forall m m' mt mt' d,
     get_db g m mt = Some d -> get_db g m' mt' = Some d ->
     m = m' /\ mt = mt') /\
  global_tables g = (Some 2%N, Some 3%N, Some 4%N, Some 5%N, Some 6%N) /\
  (forall i name, global_names !! i = Some name ->
     tbl g (dbi_at i) = default ∅ (dir !! name)) /\
  (forall m mt d, get_db g m mt = Some d -> (6 < d)%N).
Proof.
  intros Hnd. cbv zeta.
  destruct (ginit_storage_spec dir ml Hnd) as (Hret & Hg & Hopen & Hres).
  destruct Hopen as (_ & _ & _ & Htbl).
  split; [exact Hret|]. split; [|split; [|split; [|split; [|split]]]].
  - intros m mt Hin.
    apply list_elem_of_In, list_elem_of_lookup in Hin as [i Hi].
    eexists. split; [apply (Hres i m mt Hi)|].
    pose proof (metric_index_lt mt) as Hlt.
    replace (N.of_nat (7 + GSMTRC_TOTAL * i + metric_index mt))
      with (dbi_at (5 + (GSMTRC_TOTAL * i + metric_index mt)))
      by (unfold dbi_at, CORE_DBS; f_equal; lia).
    apply Htbl.
    rewrite lookup_app_r by (cbn [length global_names]; lia).
    change (length global_names) with 5%nat.
    replace (5 + (GSMTRC_TOTAL * i + metric_index mt) - 5)%nat
      with (GSMTRC_TOTAL * i + metric_index mt)%nat by lia.
    rewrite (lookup_concat_module_names ml i m _ Hi Hlt).
    apply lookup_table_name.
  - intros m mt Hnotin. now apply get_db_unregistered.
  - intros m m' mt mt' d H1 H2.
    apply (get_db_registered dir ml m mt d Hnd) in H1 as (i & Hi & E1).
    apply (get_db_registered dir ml m' mt' d Hnd) in H2 as (i' & Hi' & E2).
    pose proof (metric_index_lt mt). pose proof (metric_index_lt mt').
    unfold GSMTRC_TOTAL in *.
    assert (i = i' /\ metric_index mt = metric_index mt') as [-> Hmt] by lia.
    split; [congruence | now apply metric_index_inj].
  - exact Hg.
  - intros i name Hi. apply Htbl. now apply lookup_app_l_Some.
  - intros m mt d H1.
    apply (get_db_registered dir ml m mt d Hnd) in H1 as (i & _ & ->). lia.
Qed.


(** ** Lookups by int key *)

Lemma get_is32_eq (d : MDB_dbi) (k : Z) (g : Globals) :
  get_is32 (Some d) k g = (option_map xstrdup (tbl g d !! int_bytes k), g).
Proof.
  unfold get_is32, mdb_get, bind, ret. rewrite span_int_key.
  now destruct (tbl g d !! int_bytes k).
Qed.

Lemma xstrdup_terminated (s rest : list byte) :
  ~ In x00 s -> xstrdup (s ++ x00 :: rest) = s.
Proof.
  unfold xstrdup. induction s as [|b s IH]; intros Hs.
  - reflexivity.
  - cbn [app strlen]. destruct (decide (b = x00)) as [->|Hb].
    + exfalso. apply Hs. now left.
    + cbn [take]. f_equal. apply IH. intros H. apply Hs. now right.
Qed.

Lemma xstrdup_str_data (v : list byte) :
  In x00 v -> xstrdup (span (str_data v)) = xstrdup v.
Proof.
  intros Hv. unfold span, str_data. cbn [mv_size mv_data].
  rewrite take_terminator by exact Hv.
  apply xstrdup_terminated, xstrdup_no_NUL.
Qed.

Lemma int_bytes_inj (k k' : Z) :
  is_int k -> is_int k' -> int_bytes k = int_bytes k' -> k = k'.
Proof.
  intros Hk Hk' E. apply (f_equal load_int) in E.
  now rewrite !load_int_bytes, !to_int_id in E.
Qed.

Lemma length_int_bytes (k : Z) : length (int_bytes k) = sizeof_int.
Proof. apply length_le_bytes. Qed.

(** The int-keyed string tables that have a getter. *)
Lemma string_table_round_trip (mt : GSMetric)
    (ins : GModule -> Z -> list byte -> Db (Outcome Z))
    (get : GModule -> Z -> Db (option (list byte))) (m : GModule) :
  (forall g k v d, get_db g m mt = Some d -> ins m k v g = ins_is32 (Some d) k v g) ->
  (forall g k d, get_db g m mt = Some d -> get m k g = get_is32 (Some d) k g) ->
  forall g k v, get_db g m mt <> None -> In x00 v ->
    result (ins m k v) g = Returned 0 /\
    result (get m k) (after (ins m k v) g) = Some (xstrdup v).
Proof.
  intros Hins Hget g k v Hd Hv.
  destruct (get_db g m mt) as [d|] eqn:E; [clear Hd|congruence].
  unfold result, after. rewrite (Hins g k v d E), ins_is32_eq. cbn [fst snd].
  split; [reflexivity|].
  rewrite (Hget _ k d) by exact E. rewrite get_is32_eq. cbn [fst].
  rewrite tbl_put, lookup_insert_eq. cbn [option_map].
  now rewrite xstrdup_str_data.
Qed.

Ltac resolve_string_table :=
  intros; unfold db_insert_datamap, db_insert_method, db_insert_protocol,
    db_insert_rootmap, db_get_datamap, db_get_method, db_get_protocol,
    bind, read;
  match goal with
  | Hd : get_db _ _ _ = _ |- _ => rewrite Hd
  end; reflexivity.

(** X3: a NUL-terminated string stored with db_insert_datamap,
    db_insert_method or db_insert_protocol in a table that resolves is
    read back by the matching getter, under the same int key, as the
    string up to its terminator; the insert returns 0. *)
Theorem string_value_round_trip (m : GModule) (g : Globals) (k : Z)
    (v : list byte) :
  In x00 v ->
  (get_db g m MTRC_DATAMAP <> None ->
     result (db_insert_datamap m k v) g = Returned 0 /\
     result (db_get_datamap m k) (after (db_insert_datamap m k v) g)
     = Some (xstrdup v)) /\
  (get_db g m MTRC_METHODS <> None ->
     result (db_insert_method m k v) g = Returned 0 /\
     result (db_get_method m k) (after (db_insert_method m k v) g)
     = Some (xstrdup v)) /\
  (get_db g m MTRC_PROTOCOLS <> None ->
     result (db_insert_protocol m k v) g = Returned 0 /\
     result (db_get_protocol m k) (after (db_insert_protocol m k v) g)
     = Some (xstrdup v)).
Proof.
  intros Hv. split; [|split]; intros Hd.
  - apply (string_table_round_trip MTRC_DATAMAP db_insert_datamap
             db_get_datamap m); auto; resolve_string_table.
  - apply (string_table_round_trip MTRC_METHODS db_insert_method
             db_get_method m); auto; resolve_string_table.
  - apply (string_table_round_trip MTRC_PROTOCOLS db_insert_protocol
             db_get_protocol m); auto; resolve_string_table.
Qed.

Lemma db_insert_datamap_eq (m : GModule) (k : Z) (v : list byte)
    (g : Globals) (d : MDB_dbi) :
  get_db g m MTRC_DATAMAP = Some d ->
  db_insert_datamap m k v g
  = (Returned 0, put g d (int_bytes k) (span (str_data v))).
Proof.
  intros Hd. unfold db_insert_datamap, bind, read. rewrite Hd.
  apply ins_is32_eq.
Qed.

Lemma db_get_size_datamap_eq (m : GModule) (g : Globals) (d : MDB_dbi) :
  get_db g m MTRC_DATAMAP = Some d ->
  db_get_size_datamap m g = (to_uint32 (Z.of_nat (size (tbl g d))), g).
Proof.
  intros Hd. unfold db_get_size_datamap, bind, read. now rewrite Hd.
Qed.

(** X4: db_insert_datamap replaces: after a second insert under a key
    the getter reads the second string and db_get_size_datamap has not
    moved, while the insert under a key that was absent raises
    db_get_size_datamap by one (below the uint32_t range). *)
Theorem datamap_insert_replaces (m : GModule) (g : Globals) (d : MDB_dbi)
    (k : Z) (v1 v2 : list byte) :
  get_db g m MTRC_DATAMAP = Some d -> In x00 v2 ->
  let g1 := after (db_insert_datamap m k v1) g in
  let g2 := after (db_insert_datamap m k v2) g1 in
  result (db_get_datamap m k) g2 = Some (xstrdup v2) /\
  result (db_get_size_datamap m) g2 = result (db_get_size_datamap m) g1 /\
  (tbl g d !! int_bytes k = None ->
   Z.of_nat (size (tbl g d)) < 2 ^ 32 - 1 ->
   result (db_get_size_datamap m) g1 = result (db_get_size_datamap m) g + 1).
Proof.
  intros Hd Hv g1 g2.
  assert (E1 : g1 = put g d (int_bytes k) (span (str_data v1))).
  { unfold g1, after. now rewrite (db_insert_datamap_eq m k v1 g d Hd). }
  assert (Hd1 : get_db g1 m MTRC_DATAMAP = Some d) by (rewrite E1; exact Hd).
  assert (E2 : g2 = put g1 d (int_bytes k) (span (str_data v2))).
  { unfold g2, after. now rewrite (db_insert_datamap_eq m k v2 g1 d Hd1). }
  assert (Hd2 : get_db g2 m MTRC_DATAMAP = Some d) by (rewrite E2; exact Hd1).
  clearbody g1 g2.
  split; [|split].
  - unfold result, db_get_datamap, bind, read. rewrite Hd2, get_is32_eq.
    cbn [fst]. rewrite E2, tbl_put, lookup_insert_eq. cbn [option_map].
    now rewrite xstrdup_str_data.
  - unfold result. rewrite (db_get_size_datamap_eq m g2 d Hd2).
    rewrite (db_get_size_datamap_eq m g1 d Hd1). cbn [fst].
    rewrite E2, tbl_put. f_equal. f_equal.
    apply map_size_insert_Some.
    rewrite E1, tbl_put, lookup_insert_eq. eauto.
  - intros Hk Hsz. unfold result.
    rewrite (db_get_size_datamap_eq m g1 d Hd1).
    rewrite (db_get_size_datamap_eq m g d Hd). cbn [fst].
    rewrite E1, tbl_put, map_size_insert_None by exact Hk.
    unfold to_uint32. rewrite !Z.mod_small by lia. lia.
Qed.

Lemma get_db_registry (g g' : Globals) (m : GModule) (mt : GSMetric) :
  registry g' = registry g -> get_db g' m mt = get_db g m mt.
Proof.
  unfold registry, get_db. intros E.
  assert (Hs : db_storage g' = db_storage g) by congruence.
  now rewrite Hs.
Qed.

(** What the getters by int key read: the registry and the entry under
    the key in every table. *)
Lemma int_getters_frame (g g' : Globals) (m : GModule) (k : Z) :
  registry g' = registry g ->
  (forall d, tbl g' d !! int_bytes k = tbl g d !! int_bytes k) ->
  result (db_get_hits m k) g' = result (db_get_hits m k) g /\
  result (db_get_visitors m k) g' = result (db_get_visitors m k) g /\
  result (db_get_bw m k) g' = result (db_get_bw m k) g /\
  result (db_get_cumts m k) g' = result (db_get_cumts m k) g /\
  result (db_get_maxts m k) g' = result (db_get_maxts m k) g /\
  result (db_get_datamap m k) g' = result (db_get_datamap m k) g /\
  result (db_get_method m k) g' = result (db_get_method m k) g /\
  result (db_get_protocol m k) g' = result (db_get_protocol m k) g.
Proof.
  intros Hr Hk.
  repeat apply conj;
    unfold result, db_get_hits, db_get_visitors, db_get_bw, db_get_cumts,
      db_get_maxts, db_get_datamap, db_get_method, db_get_protocol, bind, read;
    rewrite (get_db_registry g g' m _ Hr);
    match goal with
    | |- context [match ?db with Some _ => _ | None => _ end] =>
        destruct db as [d|]; [|reflexivity]
    end;
    rewrite ?get_ii32_eq, ?get_iu64_eq, ?get_is32_eq; cbn [fst];
    unfold stored_int, stored_uint64; now rewrite Hk.
Qed.

(** X5: an int key is filed under its four bytes, and two different ints
    under different bytes; so a write call made under the int key [k]
    leaves what each of the eight getters that read one entry
    (db_get_hits, db_get_visitors, db_get_bw, db_get_cumts, db_get_maxts,
    db_get_datamap, db_get_method, db_get_protocol) reads under another
    int key [k'] as it was.  db_get_root is not among them: it goes on
    from the root id it reads to the rootmap entry under that id. *)
Theorem distinct_int_keys_independent (g : Globals) (k k' : Z) :
  is_int k -> is_int k' -> k <> k' ->
  length (int_bytes k) = 4%nat /\ int_bytes k <> int_bytes k' /\
  (forall w m, write_key w = int_bytes k ->
     let g' := after (run_write w) g in
     result (db_get_hits m k') g' = result (db_get_hits m k') g /\
     result (db_get_visitors m k') g' = result (db_get_visitors m k') g /\
     result (db_get_bw m k') g' = result (db_get_bw m k') g /\
     result (db_get_cumts m k') g' = result (db_get_cumts m k') g /\
     result (db_get_maxts m k') g' = result (db_get_maxts m k') g /\
     result (db_get_datamap m k') g' = result (db_get_datamap m k') g /\
     result (db_get_method m k') g' = result (db_get_method m k') g /\
     result (db_get_protocol m k') g' = result (db_get_protocol m k') g).
Proof.
  intros Hk Hk' Hne.
  assert (Hb : int_bytes k <> int_bytes k').
  { intros E. apply Hne. now apply int_bytes_inj. }
  split; [apply length_int_bytes|]. split; [exact Hb|].
  intros w m Hw. cbv zeta.
  destruct (run_write_frame w g) as [Hr Hf].
  apply int_getters_frame; [exact Hr|].
  intros d. apply Hf. right. congruence.
Qed.

(** ** Root and rootmap together *)

Lemma db_insert_root_eq (m : GModule) (k v : Z) (g : Globals) (d : MDB_dbi) :
  get_db g m MTRC_ROOT = Some d ->
  db_insert_root m k v g
  = (Returned 0, put g d (int_bytes k) (int_bytes v)).
Proof.
  intros Hd. unfold db_insert_root, bind, read. rewrite Hd. apply ins_ii32_eq.
Qed.

Lemma db_insert_rootmap_eq (m : GModule) (k : Z) (v : list byte) (g : Globals)
    (d : MDB_dbi) :
  get_db g m MTRC_ROOTMAP = Some d ->
  db_insert_rootmap m k v g
  = (Returned 0, put g d (int_bytes k) (span (str_data v))).
Proof.
  intros Hd. unfold db_insert_rootmap, bind, read. rewrite Hd.
  apply ins_is32_eq.
Qed.

(** X6: when the root and rootmap tables of a module resolve to
    different tables, a key given the nonzero root id [root] by
    db_insert_root, and a NUL-terminated string filed under [root] by
    db_insert_rootmap, in either order, make db_get_root answer that
    string for the key. *)
Theorem root_round_trip (m : GModule) (g : Globals) (hashroot hashrootmap : MDB_dbi)
    (k root : Z) (v : list byte) :
  get_db g m MTRC_ROOT = Some hashroot ->
  get_db g m MTRC_ROOTMAP = Some hashrootmap ->
  hashroot <> hashrootmap ->
  is_int root -> root <> 0 -> In x00 v ->
  result (db_get_root m k)
    (after (db_insert_rootmap m root v) (after (db_insert_root m k root) g))
  = Some (xstrdup v) /\
  result (db_get_root m k)
    (after (db_insert_root m k root) (after (db_insert_rootmap m root v) g))
  = Some (xstrdup v).
Proof.
  intros Hr Hrm Hne Hroot Hnz Hv.
  assert (Hget : forall g',
            get_db g' m MTRC_ROOT = Some hashroot ->
            get_db g' m MTRC_ROOTMAP = Some hashrootmap ->
            tbl g' hashroot !! int_bytes k = Some (int_bytes root) ->
            tbl g' hashrootmap !! int_bytes root = Some (span (str_data v)) ->
            result (db_get_root m k) g' = Some (xstrdup v)).
  { intros g' H1 H2 H3 H4.
    unfold result, db_get_root, bind, read. rewrite H1, H2, get_ii32_eq.
    cbn [fst]. unfold stored_int. rewrite H3, load_int_bytes.
    rewrite to_int_id by exact Hroot.
    apply Z.eqb_neq in Hnz. rewrite Hnz. rewrite get_is32_eq. cbn [fst].
    rewrite H4. cbn [option_map]. now rewrite xstrdup_str_data. }
  split.
  - unfold after at 2. rewrite (db_insert_root_eq m k root g hashroot Hr).
    cbn [snd]. unfold after.
    rewrite (db_insert_rootmap_eq m root v _ hashrootmap) by exact Hrm.
    cbn [snd]. apply Hget; try assumption.
    + unfold put at 1. rewrite tbl_set_tbl_ne by congruence.
      rewrite tbl_put. apply lookup_insert_eq.
    + rewrite tbl_put. apply lookup_insert_eq.
  - unfold after at 2.
    rewrite (db_insert_rootmap_eq m root v g hashrootmap Hrm).
    cbn [snd]. unfold after.
    rewrite (db_insert_root_eq m k root _ hashroot) by exact Hr.
    cbn [snd]. apply Hget; try assumption.
    + rewrite tbl_put. apply lookup_insert_eq.
    + unfold put at 1. rewrite tbl_set_tbl_ne by congruence.
      rewrite tbl_put. apply lookup_insert_eq.
Qed.

(** ** The keys and ids of an interning table *)

Lemma db_intern_valid_returns (it : InternTable) (k : list byte) (g : Globals) :
  valid_key k -> exists r, result (db_intern it k) g = Returned r.
Proof.
  intros Hv. unfold result. destruct (intern_db g it) as [d|] eqn:Hd.
  - rewrite (db_intern_eq it g d k Hd). cbv zeta.
    rewrite key_size_ok_valid by exact Hv.
    destruct (found g d k) as [data|];
      [destruct (load_int data =? -1)|]; eauto.
  - rewrite (db_intern_none it g k Hd). eauto.
Qed.

Lemma serial_intern_valid_returns (it : InternTable) (ks : list (list byte)) :
  Forall valid_key ks ->
  forall g, exists rs, result (serial (db_intern it) ks) g = Returned rs.
Proof.
  induction 1 as [|k ks Hk _ IH]; intros g.
  - now exists [].
  - destruct (db_intern_valid_returns it k g Hk) as [r Hr].
    destruct (serial_cons_returned (db_intern it) k ks g r Hr) as [-> _].
    destruct (IH (after (db_intern it k) g)) as [rs ->]. eauto.
Qed.

Lemma intern_step (it : InternTable) (g : Globals) (d : MDB_dbi) (k : list byte) :
  intern_db g it = Some d ->
  let g1 := after (db_intern it k) g in
  (forall kb, is_Some (tbl g1 d !! kb) ->
              is_Some (tbl g d !! kb) \/ kb = key_bytes k) /\
  (forall kb, is_Some (tbl g d !! kb) -> is_Some (tbl g1 d !! kb)) /\
  (forall r, result (db_intern it k) g = Returned r ->
             valid_key k /\ is_Some (tbl g1 d !! key_bytes k)) /\
  (tbl g d !! key_bytes k = None -> valid_key k ->
   tbl g1 d = <[key_bytes k := int_bytes (next_id (tbl g d))]> (tbl g d)).
Proof.
  intros Hd. cbv zeta. unfold after, result.
  rewrite (db_intern_eq it g d k Hd). cbv zeta.
  destruct (decide (valid_key k)) as [Hv|Hv].
  - rewrite (key_size_ok_valid k Hv), (found_valid g d k Hv).
    assert (Hput :
      (forall kb, is_Some (tbl (put g d (key_bytes k)
                                  (int_bytes (next_id (tbl g d)))) d !! kb) ->
                  is_Some (tbl g d !! kb) \/ kb = key_bytes k) /\
      (forall kb, is_Some (tbl g d !! kb) ->
                  is_Some (tbl (put g d (key_bytes k)
                                  (int_bytes (next_id (tbl g d)))) d !! kb)) /\
      is_Some (tbl (put g d (key_bytes k)
                      (int_bytes (next_id (tbl g d)))) d !! key_bytes k)).
    { rewrite tbl_put. split; [|split].
      - intros kb. destruct (decide (key_bytes k = kb)) as [<-|Hne];
          [now right | rewrite lookup_insert_ne by exact Hne; now left].
      - intros kb. destruct (decide (key_bytes k = kb)) as [<-|Hne];
          [rewrite lookup_insert_eq; eauto
          | now rewrite lookup_insert_ne by exact Hne].
      - rewrite lookup_insert_eq. eauto. }
    destruct Hput as (P1 & P2 & P3).
    destruct (tbl g d !! key_bytes k) as [data|] eqn:Hk.
    + destruct (load_int data =? -1); cbn [fst snd].
      * split; [exact P1|]. split; [exact P2|]. split; [auto|]. discriminate.
      * split; [now left|]. split; [auto|].
        split; [|discriminate]. intros _ _. split; [exact Hv|].
        rewrite Hk. eauto.
    + cbn [fst snd]. split; [exact P1|]. split; [exact P2|].
      split; [auto|]. intros _ _. apply tbl_put.
  - rewrite (key_size_ok_invalid k Hv), (found_invalid g d k Hv).
    cbn [fst snd]. split; [now left|]. split; [auto|].
    split; [discriminate|]. intros _ Hv'. contradiction.
Qed.

Lemma serial_intern_keys (it : InternTable) (d : MDB_dbi) (ks : list (list byte)) :
  forall g, intern_db g it = Some d ->
  let g' := after (serial (db_intern it) ks) g in
  (forall kb, is_Some (tbl g' d !! kb) ->
              is_Some (tbl g d !! kb) \/ In kb (map key_bytes ks)) /\
  (forall kb, is_Some (tbl g d !! kb) -> is_Some (tbl g' d !! kb)) /\
  (size (tbl g d) <= size (tbl g' d))%nat /\
  (forall rs, result (serial (db_intern it) ks) g = Returned rs ->
     forall k, In k ks -> is_Some (tbl g' d !! key_bytes k)).
Proof.
  induction ks as [|k ks IH]; intros g Hd; cbv zeta.
  - cbn. split; [auto|]. split; [auto|]. split; [lia|]. intros _ _ _ [].
  - assert (Hd1 : intern_db (after (db_intern it k) g) it = Some d)
      by now rewrite intern_db_after.
    destruct (IH _ Hd1) as (I1 & I2 & I3 & I4). clear IH.
    destruct (intern_step it g d k Hd) as (S1 & S2 & S3 & _).
    pose proof (size_after_intern it d k g Hd) as S4.
    destruct (result (db_intern it k) g) as [r|msg] eqn:Hr.
    + destruct (serial_cons_returned (db_intern it) k ks g r Hr) as [Er Ea].
      rewrite Ea, Er. split; [|split; [|split]].
      * intros kb H. cbn [map In].
        destruct (I1 kb H) as [H1|H1]; [|auto].
        destruct (S1 kb H1) as [H2|H2]; auto.
      * intros kb H. apply I2, S2, H.
      * lia.
      * intros rs Hrs k' [<-|Hin].
        -- apply I2. now apply (S3 r).
        -- destruct (result (serial (db_intern it) ks)
                       (after (db_intern it k) g)) as [rs'|] eqn:Hrs';
             [|discriminate].
           now apply (I4 rs').
    + pose proof (serial_cons_exited (db_intern it) k ks g msg Hr) as Ex.
      assert (Ea : after (serial (db_intern it) (k :: ks)) g
                   = after (db_intern it k) g)
        by (unfold after at 1; now rewrite Ex).
      assert (Er : result (serial (db_intern it) (k :: ks)) g = Exited msg)
        by (unfold result; now rewrite Ex).
      rewrite Ea, Er. split; [|split; [|split]].
      * intros kb H. cbn [map In]. destruct (S1 kb H) as [H1|H1]; auto.
      * exact S2.
      * lia.
      * discriminate.
Qed.

(** X7: interning calls never remove a key.  After any serial calls on
    one interning table, a key that is in the table was there before or
    is the key of one of the calls; a key that was in the table still is;
    the table has not shrunk; and when all the calls have returned, the
    key of every call is in the table. *)
Theorem interning_adds_keys (it : InternTable) (g : Globals) (d : MDB_dbi)
    (ks : list (list byte)) :
  intern_db g it = Some d ->
  let g' := after (serial (db_intern it) ks) g in
  (forall kb, is_Some (tbl g' d !! kb) ->
              is_Some (tbl g d !! kb) \/ In kb (map key_bytes ks)) /\
  (forall kb, is_Some (tbl g d !! kb) -> is_Some (tbl g' d !! kb)) /\
  (size (tbl g d) <= size (tbl g' d))%nat /\
  (forall rs, result (serial (db_intern it) ks) g = Returned rs ->
     forall k, In k ks -> is_Some (tbl g' d !! key_bytes k)).
Proof. intros Hd. now apply serial_intern_keys. Qed.

Lemma serial_fresh_size (it : InternTable) (d : MDB_dbi) (ks : list (list byte)) :
  forall g, intern_db g it = Some d ->
  Forall valid_key ks ->
  NoDup (map key_bytes ks) ->
  (forall k, In k ks -> tbl g d !! key_bytes k = None) ->
  size (tbl (after (serial (db_intern it) ks) g) d)
  = (size (tbl g d) + length ks)%nat.
Proof.
  induction ks as [|k ks IH]; intros g Hd Hval Hnd Hfresh.
  - cbn. lia.
  - apply Forall_cons in Hval as [Hvk Hval].
    rewrite after_serial_cons by now apply db_intern_valid_returns.
    cbn [map] in Hnd.
    apply NoDup_cons in Hnd as [Hnotin Hnd].
    assert (Hk : tbl g d !! key_bytes k = None) by (apply Hfresh; now left).
    destruct (intern_step it g d k Hd) as (_ & _ & _ & E).
    specialize (E Hk Hvk).
    rewrite IH.
    + rewrite E, map_size_insert_None by exact Hk. cbn [length]. lia.
    + now rewrite intern_db_after.
    + exact Hval.
    + exact Hnd.
    + intros k' Hin. rewrite E, lookup_insert_ne.
      * apply Hfresh. now right.
      * intros Heq. apply Hnotin. rewrite Heq.
        apply list_elem_of_In. now apply in_map.
Qed.

(** X8: after n different keys, of 1 to 511 bytes each, were passed to
    db_insert_uniqmap on an empty uniqmap, db_get_size_uniqmap answers n
    (n below 2^32). *)
Theorem uniqmap_size_counts_keys (m : GModule) (g : Globals) (d : MDB_dbi)
    (ks : list (list byte)) :
  get_db g m MTRC_UNIQMAP = Some d ->
  tbl g d = ∅ ->
  Forall valid_key ks ->
  NoDup (map key_bytes ks) ->
  Z.of_nat (length ks) < 2 ^ 32 ->
  result (db_get_size_uniqmap m) (after (serial (db_insert_uniqmap m) ks) g)
  = Z.of_nat (length ks).
Proof.
  intros Hd Hempty Hval Hnd Hlen.
  change (serial (db_insert_uniqmap m) ks)
    with (serial (db_intern (UNIQMAP_OF m)) ks).
  pose proof (serial_fresh_size (UNIQMAP_OF m) d ks g Hd Hval Hnd) as Hs.
  rewrite Hempty, map_size_empty in Hs.
  pose proof (intern_db_after_serial_intern (UNIQMAP_OF m) (UNIQMAP_OF m) ks g)
    as Hd'.
  cbn [intern_db] in Hd'. rewrite Hd in Hd'.
  unfold result, db_get_size_uniqmap, bind, read. rewrite Hd'.
  unfold db_get_size, mdb_stat_entries. cbn [fst].
  rewrite Hs by (intros k _; apply lookup_empty).
  unfold to_uint32. rewrite Z.mod_small by lia. f_equal.
Qed.

Lemma serial_intern_size_le (it : InternTable) (d : MDB_dbi) (ks : list (list byte)) :
  forall g, intern_db g it = Some d ->
  (size (tbl (after (serial (db_intern it) ks) g) d)
   <= size (tbl g d) + length ks)%nat.
Proof.
  induction ks as [|k ks IH]; intros g Hd.
  - cbn. lia.
  - assert (Hd1 : intern_db (after (db_intern it k) g) it = Some d)
      by now rewrite intern_db_after.
    specialize (IH _ Hd1). cbn [length].
    pose proof (size_after_intern it d k g Hd) as Hs.
    destruct (after_serial_cons_cases (db_intern it) k ks g) as [E|E];
      rewrite E; lia.
Qed.

Lemma ids_bijective_after_intern (it : InternTable) (d : MDB_dbi)
    (k : list byte) (g : Globals) :
  intern_db g it = Some d ->
  ids_dense (tbl g d) -> ids_bijective (tbl g d) ->
  Z.of_nat (size (tbl g d)) < INT_MAX ->
  ids_bijective (tbl (after (db_intern it k) g) d).
Proof.
  intros Hd Hdense Hbij Hsz. unfold after.
  destruct (db_intern_cases it k g) as [[r E]|(d' & Hd' & Hvk & Hno & E)];
    rewrite E; cbn [snd]; [exact Hbij|].
  assert (d' = d) as -> by congruence.
  unfold result in Hno. rewrite get_si32_eq, (found_valid g d k Hvk) in Hno.
  cbn [fst] in Hno.
  rewrite tbl_put, next_id_small by lia.
  destruct (tbl g d !! key_bytes k) as [data|] eqn:Hk.
  { destruct (Hdense _ _ Hk) as [Hlo _]. lia. }
  destruct Hbij as [Hinj Hsur]. split.
  - intros k1 k2 d1 d2.
    destruct (decide (key_bytes k = k1)) as [<-|N1];
      destruct (decide (key_bytes k = k2)) as [<-|N2];
      rewrite ?lookup_insert_eq, ?lookup_insert_ne by assumption.
    + reflexivity.
    + intros [= <-] H2 Heq. apply Hdense in H2.
      rewrite load_int_bytes, to_int_id in Heq
        by (unfold is_int, INT_MIN, INT_MAX in *; lia).
      lia.
    + intros H1 [= <-] Heq. apply Hdense in H1.
      rewrite load_int_bytes, to_int_id in Heq
        by (unfold is_int, INT_MIN, INT_MAX in *; lia).
      lia.
    + apply Hinj.
  - intros i Hi. rewrite map_size_insert_None in Hi by exact Hk.
    destruct (decide (i = Z.of_nat (size (tbl g d)) + 1)) as [->|Hne].
    + exists (key_bytes k), (int_bytes (Z.of_nat (size (tbl g d)) + 1)).
      split; [apply lookup_insert_eq|].
      rewrite load_int_bytes. apply to_int_id.
      unfold is_int, INT_MIN, INT_MAX in *; lia.
    + destruct (Hsur i) as (k0 & d0 & H0 & Hv); [lia|].
      exists k0, d0. split; [|exact Hv].
      rewrite lookup_insert_ne; [exact H0|]. congruence.
Qed.

Lemma serial_ids_bijective (it : InternTable) (d : MDB_dbi) (ks : list (list byte)) :
  forall g : Globals,
  intern_db g it = Some d ->
  ids_dense (tbl g d) -> ids_bijective (tbl g d) ->
  Z.of_nat (size (tbl g d)) + Z.of_nat (length ks) <= INT_MAX ->
  ids_bijective (tbl (after (serial (db_intern it) ks) g) d).
Proof.
  induction ks as [|k ks IH]; intros g Hd Hdense Hbij Hsz.
  - exact Hbij.
  - cbn [length] in Hsz.
    assert (Hd1 : intern_db (after (db_intern it k) g) it = Some d)
      by now rewrite intern_db_after.
    pose proof (ids_dense_after_intern it d k g Hd Hdense ltac:(lia)) as Hdense1.
    pose proof (ids_bijective_after_intern it d k g Hd Hdense Hbij ltac:(lia))
      as Hbij1.
    pose proof (size_after_intern it d k g Hd) as Hs1.
    destruct (after_serial_cons_cases (db_intern it) k ks g) as [E|E];
      rewrite E; [|exact Hbij1].
    apply IH; [exact Hd1 | exact Hdense1 | exact Hbij1 | lia].
Qed.

(** X9: on a table that interning calls have filled from empty, INT_MAX
    calls at most, the ids are dense and unique: no two keys share an id
    and every number from 1 to the size of the table is the id of a key. *)
Theorem interned_ids_bijective (it : InternTable) (g : Globals) (d : MDB_dbi)
    (ks : list (list byte)) :
  intern_db g it = Some d ->
  tbl g d = ∅ ->
  Z.of_nat (length ks) <= INT_MAX ->
  ids_bijective (tbl (after (serial (db_intern it) ks) g) d).
Proof.
  intros Hd Hempty Hlen. apply serial_ids_bijective; auto.
  - intros k data. now rewrite Hempty, lookup_empty.
  - rewrite Hempty. split.
    + intros k k' data data'. now rewrite lookup_empty.
    + intros i. rewrite map_size_empty. lia.
  - rewrite Hempty, map_size_empty. lia.
Qed.

(** X10: on a uniqmap filled from empty by fewer than INT_MAX
    db_insert_uniqmap calls, with keys of 1 to 511 bytes, one more call
    tells a key that was seen from a new one: it answers 0 and changes
    nothing for a key of an earlier call; for any other key of 1 to 511
    bytes it answers the new id, the size of the table plus one, and files
    the key under it; and for any other key that is empty or longer it
    stops the process with the table as it was. *)
Theorem uniqmap_tells_seen_from_new (m : GModule) (g : Globals) (d : MDB_dbi)
    (ks : list (list byte)) (k : list byte) :
  get_db g m MTRC_UNIQMAP = Some d ->
  tbl g d = ∅ ->
  Forall valid_key ks ->
  Z.of_nat (length ks) < INT_MAX ->
  let g' := after (serial (db_insert_uniqmap m) ks) g in
  (In (key_bytes k) (map key_bytes ks) ->
   db_insert_uniqmap m k g' = (Returned 0, g')) /\
  (~ In (key_bytes k) (map key_bytes ks) ->
   db_insert_uniqmap m k g'
   = if decide (valid_key k)
     then (Returned (Z.of_nat (size (tbl g' d)) + 1),
           put g' d (key_bytes k)
             (int_bytes (Z.of_nat (size (tbl g' d)) + 1)))
     else (put_refused, g')).
Proof.
  intros Hd Hempty Hval Hlen. cbv zeta.
  change (serial (db_insert_uniqmap m) ks)
    with (serial (db_intern (UNIQMAP_OF m)) ks).
  change (db_insert_uniqmap m k) with (db_intern (UNIQMAP_OF m) k).
  assert (Hd0 : intern_db g (UNIQMAP_OF m) = Some d) by exact Hd.
  pose proof (intern_db_after_serial_intern (UNIQMAP_OF m) (UNIQMAP_OF m) ks g)
    as Hd'. rewrite Hd0 in Hd'.
  destruct (serial_intern_keys (UNIQMAP_OF m) d ks g Hd0)
    as (Hfrom & _ & _ & Hall).
  destruct (serial_intern_valid_returns (UNIQMAP_OF m) ks Hval g) as [rs Hrs].
  specialize (Hall rs Hrs).
  pose proof (serial_intern_size_le (UNIQMAP_OF m) d ks g Hd0) as Hsize.
  assert (Hdense : ids_dense (tbl (after (serial (db_intern (UNIQMAP_OF m)) ks) g) d)).
  { apply serial_ids_dense; auto.
    - intros k0 data. now rewrite Hempty, lookup_empty.
    - rewrite Hempty, map_size_empty. lia. }
  rewrite Hempty, map_size_empty in Hsize.
  remember (after (serial (db_intern (UNIQMAP_OF m)) ks) g) as g' eqn:Eg'.
  clear Eg'. split.
  - intros Hin. apply in_map_iff in Hin as (k0 & Hk0 & Hin).
    destruct (Hall k0 Hin) as [data Hk]. rewrite Hk0 in Hk.
    destruct (Hdense _ _ Hk) as [Hlo _].
    assert (Hv : valid_key k).
    { rewrite Forall_forall in Hval. apply list_elem_of_In, Hval in Hin.
      unfold valid_key in *. apply (f_equal (@length byte)) in Hk0.
      change (key_bytes k0) with (xstrdup k0) in Hk0.
      change (key_bytes k) with (xstrdup k) in Hk0.
      rewrite !length_xstrdup in Hk0. lia. }
    assert (Hf : found g' d k = Some data) by (apply found_Some; auto).
    now rewrite (db_intern_present (UNIQMAP_OF m) g' d k data Hd' Hf) by lia.
  - intros Hnotin.
    assert (Hk : tbl g' d !! key_bytes k = None).
    { destruct (tbl g' d !! key_bytes k) as [data|] eqn:E; [|reflexivity].
      destruct (Hfrom (key_bytes k)) as [H|H]; [eauto | | tauto].
      rewrite Hempty, lookup_empty in H. now destruct H. }
    destruct (decide (valid_key k)) as [Hv|Hv].
    + rewrite (db_intern_absent (UNIQMAP_OF m) g' d k Hd' Hk Hv).
      now rewrite next_id_small by lia.
    + apply (db_intern_refused (UNIQMAP_OF m) g' d k Hd'); [|exact Hv].
      unfold result. rewrite get_si32_eq. cbn [fst].
      now rewrite (found_invalid g' d k Hv).
Qed.

(** ** Export at the edges *)

Lemma cursor_scan_empty : cursor_scan ∅ = [].
Proof. unfold cursor_scan. now rewrite map_to_list_empty. Qed.

(** X11: the edges of db_parse_raw_data.  It reads [db_storage->env]
    before anything else (mdb.c:1081), so the storage must be there.  With
    the storage there, it returns NULL when the exported table of the
    module does not resolve; and for a table without entries it returns
    raw data with no item, size 0 and index 0, whatever the sort
    primitives do with the items they are given.  In both cases nothing is
    changed. *)
Theorem export_edge_cases (R S : relation GRawDataItem)
    (sort_num sort_str : GRawData -> Z -> GRawData) (m : GModule)
    (g : Globals) :
  (db_storage g <> None -> get_db g m (export_metric m) = None ->
     db_parse_raw_data sort_num sort_str m g = Some (None, g)) /\
  (forall d, sorts R sort_num -> sorts S sort_str ->
     get_db g m (export_metric m) = Some d -> tbl g d = ∅ ->
     db_parse_raw_data sort_num sort_str m g
     = Some (Some (empty_raw_data m), g)).
Proof.
  split.
  - intros Hs Hd. unfold db_parse_raw_data.
    destruct (db_storage g) as [st|]; [clear Hs|congruence]. f_equal.
    destruct m; cbn [export_metric] in Hd;
      unfold parse_raw_str_data, parse_raw_num_data, bind, read;
      now rewrite Hd.
  - intros d Hnum Hstr Hd Hempty.
    rewrite (db_parse_raw_data_eq sort_num sort_str m g d Hd). cbv zeta.
    rewrite Hempty, map_size_empty, cursor_scan_empty.
    cbn [fold_left]. f_equal. f_equal.
    change (to_uint32 (Z.of_nat 0)) with 0.
    change (init_new_raw_data m 0 (export_type m)) with (empty_raw_data m).
    assert (Hf : forall (T : relation GRawDataItem) f, sorts T f ->
              f (empty_raw_data m) 0 = empty_raw_data m).
    { intros T f Hsort.
      destruct (Hsort (empty_raw_data m) 0) as (H1 & H2 & H3 & H4 & _ & _ & H7);
        [cbn; lia|].
      change (Z.to_nat 0) with 0%nat in H7. rewrite !drop_0 in H7.
      destruct (f (empty_raw_data m) 0). cbn in *. now subst. }
    change (raw_idx (empty_raw_data m)) with 0.
    f_equal.
    destruct m; first [exact (Hf S sort_str Hstr) | exact (Hf R sort_num Hnum)].
Qed.

(** ** Reading never writes *)

(** X12: no getter, no size query and no export changes the globals:
    whatever they answer, the registry and all tables are as before. *)
Theorem reads_leave_globals (g : Globals) (m : GModule) (k : Z)
    (host : list byte) :
  after (db_get_hostname host) g = g /\
  after (db_get_datamap m k) g = g /\
  after (db_get_hits m k) g = g /\
  after (db_get_visitors m k) g = g /\
  after (db_get_bw m k) g = g /\
  after (db_get_cumts m k) g = g /\
  after (db_get_maxts m k) g = g /\
  after (db_get_method m k) g = g /\
  after (db_get_protocol m k) g = g /\
  after (db_get_root m k) g = g /\
  after (db_get_size_uniqmap m) g = g /\
  after (db_get_size_datamap m) g = g /\
  (forall no so r g',
     db_parse_raw_data no so m g = Some (r, g') -> g' = g).
Proof.
  repeat apply conj;
    try (unfold after, db_get_hostname, db_get_datamap, db_get_hits,
           db_get_visitors, db_get_bw, db_get_cumts, db_get_maxts,
           db_get_method, db_get_protocol, db_get_size_uniqmap,
           db_get_size_datamap, bind, read;
         match goal with
         | |- context [match ?db with Some _ => _ | None => _ end] =>
             destruct db as [d|]; reflexivity
         end).
  - unfold after, db_get_root, bind, read.
    destruct (get_db g m MTRC_ROOT) as [hr|]; [|reflexivity].
    destruct (get_db g m MTRC_ROOTMAP) as [hrm|]; [|reflexivity].
    rewrite get_ii32_eq.
    destruct (stored_int (tbl g hr) (int_bytes k) =? 0); reflexivity.
  - intros no so r g'. unfold db_parse_raw_data.
    destruct (db_storage g); [|discriminate].
    intros [= E]. apply (f_equal snd) in E. cbn [snd] in E. rewrite <- E.
    destruct m; unfold parse_raw_str_data, parse_raw_num_data, bind, read;
      match goal with
      | |- context [match ?db with Some _ => _ | None => _ end] =>
          destruct db as [d|]; reflexivity
      end.
Qed.

(** ** The names of the tables *)

Lemma string_app_inv_head (s a b : string) :
  (s ++ a)%string = (s ++ b)%string -> a = b.
Proof.
  induction s as [|c s IH]; cbn; intros E; [exact E|].
  injection E as E. now apply IH.
Qed.

(** X13: the name built for a table, ["%s-m%d"], tells the modules
    apart whatever the base name; over all modules, the names of their 14
    tables and of the 5 global tables are pairwise different. *)
Theorem table_names_distinct :
  (forall name m m', get_dbname name m = get_dbname name m' -> m = m') /\
  NoDup (global_names ++ concat (map module_names all_modules)).
Proof.
  split.
  - intros name m m' E. unfold get_dbname in E.
    apply string_app_inv_head in E.
    destruct m, m'; try reflexivity; vm_compute in E; discriminate.
  - apply (bool_decide_unpack _). vm_compute. exact I.
Qed.

(** ** Tables do not disturb each other *)

Lemma write_db_registry (g g' : Globals) (w : WriteCall) :
  registry g' = registry g -> write_db g' w = write_db g w.
Proof.
  intros E. pose proof (fun m mt => get_db_registry g g' m mt E) as Hg.
  unfold registry in E.
  destruct w; cbn [write_db]; try apply Hg; congruence.
Qed.

Lemma write_db_target (g : Globals) (w : WriteCall) (m : GModule)
    (mt : GSMetric) :
  write_target w = Some (m, mt) -> write_db g w = get_db g m mt.
Proof. destruct w; cbn; intros E; congruence. Qed.

Lemma write_db_global (g : Globals) (w : WriteCall) :
  write_target w = None ->
  write_db g w = ht_unique_keys g \/ write_db g w = ht_agent_keys g \/
  write_db g w = ht_agent_vals g.
Proof. destruct w; cbn; intros E; try discriminate; auto. Qed.

Lemma tbl_after_write_other (w : WriteCall) (g : Globals) (d : MDB_dbi) :
  write_db g w <> Some d -> tbl (after (run_write w) g) d = tbl g d.
Proof.
  intros H. apply map_eq. intros k.
  destruct (run_write_frame w g) as [_ Hf]. apply Hf. now left.
Qed.

Lemma registry_running (dir : gmap string table) (ml : list GModule)
    (ws : list WriteCall) :
  registry (running dir ml ws)
  = registry (after (ginit_storage ml) (boot dir)).
Proof.
  unfold running.
  apply (serial_invariant run_write
           (fun g => registry g
                     = registry (after (ginit_storage ml) (boot dir))));
    [|reflexivity].
  intros w g H. destruct (run_write_frame w g) as [Hr _]. congruence.
Qed.

(** What the registry that [ginit_storage] has set up says of the
    handles, in any globals that have this registry. *)
Lemma registry_facts (dir : gmap string table) (ml : list GModule)
    (g : Globals) :
  NoDup ml ->
  registry g = registry (after (ginit_storage ml) (boot dir)) ->
  (forall m m' mt mt' d,
     get_db g m mt = Some d -> get_db g m' mt' = Some d ->
     m = m' /\ mt = mt') /\
  (forall m mt d, get_db g m mt = Some d -> (6 < d)%N) /\
  global_tables g = (Some 2%N, Some 3%N, Some 4%N, Some 5%N, Some 6%N).
Proof.
  intros Hnd Hr.
  pose proof (fun m mt => get_db_registry _ _ m mt Hr) as Hg.
  destruct (ginit_storage_spec dir ml Hnd) as (_ & Hgt & _ & _).
  split; [|split].
  - intros m m' mt mt' d. rewrite !Hg. intros H1 H2.
    apply (get_db_registered dir ml m mt d Hnd) in H1 as (i & Hi & E1).
    apply (get_db_registered dir ml m' mt' d Hnd) in H2 as (i' & Hi' & E2).
    pose proof (metric_index_lt mt). pose proof (metric_index_lt mt').
    unfold GSMTRC_TOTAL in *.
    assert (i = i' /\ metric_index mt = metric_index mt') as [-> Hmt] by lia.
    split; [congruence | now apply metric_index_inj].
  - intros m mt d. rewrite Hg. intros H1.
    apply (get_db_registered dir ml m mt d Hnd) in H1 as (i & _ & ->). lia.
  - rewrite <- Hgt. unfold registry, global_tables in *. congruence.
Qed.

(** X14: in a storage set up by ginit_storage (module list without
    repetitions, any directory) and written to by any calls since, a
    write call leaves the table of every (module, metric) pair other than
    its own as it is, a call on a global table leaves all of them as they
    are, and a call on the table of a module leaves the five global tables
    as they are. *)
Theorem write_leaves_other_tables (dir : gmap string table)
    (ml : list GModule) (ws : list WriteCall) (w : WriteCall) :
  NoDup ml ->
  let g := running dir ml ws in
  (forall m mt d, write_target w <> Some (m, mt) ->
     get_db g m mt = Some d ->
     tbl (after (run_write w) g) d = tbl g d) /\
  (forall i, write_target w <> None -> (i < 5)%nat ->
     tbl (after (run_write w) g) (dbi_at i) = tbl g (dbi_at i)).
Proof.
  intros Hnd g.
  destruct (registry_facts dir ml g Hnd (registry_running dir ml ws))
    as (Hinj & Hlow & Hgt).
  split.
  - intros m mt d Hw Hd. apply tbl_after_write_other.
    destruct (write_target w) as [[m' mt']|] eqn:Ht.
    + rewrite (write_db_target g w m' mt' Ht). intros Hd'.
      destruct (Hinj m' m mt' mt d Hd' Hd) as [-> ->]. now apply Hw.
    + pose proof (Hlow m mt d Hd) as Hlt.
      unfold global_tables in Hgt.
      assert (Hk : ht_unique_keys g = Some 6%N /\ ht_agent_keys g = Some 2%N /\
                   ht_agent_vals g = Some 3%N).
      { repeat split; congruence. }
      destruct Hk as (K1 & K2 & K3).
      destruct (write_db_global g w Ht) as [E|[E|E]]; rewrite E;
        rewrite ?K1, ?K2, ?K3; intros [= <-]; lia.
  - intros i Hw Hi. apply tbl_after_write_other.
    destruct (write_target w) as [[m' mt']|] eqn:Ht; [|congruence].
    rewrite (write_db_target g w m' mt' Ht). intros Hd'.
    apply Hlow in Hd'. unfold dbi_at, CORE_DBS in Hd'. lia.
Qed.

Lemma write_db_not_hostnames (dir : gmap string table) (ml : list GModule)
    (g : Globals) (w : WriteCall) :
  NoDup ml ->
  registry g = registry (after (ginit_storage ml) (boot dir)) ->
  write_db g w <> Some 5%N.
Proof.
  intros Hnd Hr.
  destruct (registry_facts dir ml g Hnd Hr) as (_ & Hlow & Hgt).
  destruct (write_target w) as [[m mt]|] eqn:Ht.
  - rewrite (write_db_target g w m mt Ht). intros Hd.
    apply Hlow in Hd. lia.
  - unfold global_tables in Hgt.
    assert (Hk : ht_unique_keys g = Some 6%N /\ ht_agent_keys g = Some 2%N /\
                 ht_agent_vals g = Some 3%N) by (repeat split; congruence).
    destruct Hk as (K1 & K2 & K3).
    destruct (write_db_global g w Ht) as [E|[E|E]]; rewrite E;
      rewrite ?K1, ?K2, ?K3; discriminate.
Qed.

(** X15: no call of this interface writes to the hostnames table.  In a
    storage set up by ginit_storage and written to by any calls since,
    the table named db_hostnames holds what the directory held under that
    name when the process started; so over a directory without such a
    table db_get_hostname answers NULL for every host. *)
Theorem hostnames_never_written (dir : gmap string table)
    (ml : list GModule) (ws : list WriteCall) :
  NoDup ml ->
  let g := running dir ml ws in
  ht_hostnames g = Some 5%N /\
  tbl g 5%N = default ∅ (dir !! "db_hostnames"%string) /\
  (dir !! "db_hostnames"%string = None ->
   forall host, result (db_get_hostname host) g = None).
Proof.
  intros Hnd g.
  destruct (registry_facts dir ml g Hnd (registry_running dir ml ws))
    as (_ & _ & Hgt).
  destruct (ginit_storage_spec dir ml Hnd) as (_ & _ & Hop & _).
  assert (Hh : ht_hostnames g = Some 5%N)
    by (unfold global_tables in Hgt; congruence).
  assert (Ht : tbl g 5%N = default ∅ (dir !! "db_hostnames"%string)).
  { destruct Hop as (_ & _ & _ & Hop).
    rewrite <- (Hop 3%nat "db_hostnames"%string eq_refl).
    change (dbi_at 3) with 5%N. unfold g, running.
    apply (serial_invariant run_write
             (fun g' => registry g'
                        = registry (after (ginit_storage ml) (boot dir)) /\
                        tbl g' 5%N
                        = tbl (after (ginit_storage ml) (boot dir)) 5%N));
      [|split; reflexivity].
    intros w g' [Hr Ht]. destruct (run_write_frame w g') as [Hr' _].
    split; [congruence|]. rewrite <- Ht. apply tbl_after_write_other.
    now apply (write_db_not_hostnames dir ml). }
  split; [exact Hh|]. split; [exact Ht|].
  intros Hdir host.
  unfold result, db_get_hostname, bind, read. rewrite Hh.
  unfold get_ss32, mdb_get, bind, ret. cbn [fst].
  fold g. rewrite Ht, Hdir. cbn [default]. rewrite lookup_empty.
  now destruct (key_size_ok (mv_size (str_key host))).
Qed.

Lemma intern_db_registry (g g' : Globals) (it : InternTable) :
  registry g' = registry g -> intern_db g' it = intern_db g it.
Proof.
  intros E. pose proof (fun m mt => get_db_registry g g' m mt E) as Hg.
  unfold registry in E. destruct it; cbn [intern_db]; try apply Hg; congruence.
Qed.

Lemma has_id_after_write (dir : gmap string table) (ml : list GModule)
    (g : Globals) (w : WriteCall) (it : InternTable) (d : MDB_dbi)
    (k : list byte) (id : Z) :
  NoDup ml ->
  registry g = registry (after (ginit_storage ml) (boot dir)) ->
  intern_db g it = Some d -> id <> -1 ->
  has_id g d k id -> has_id (after (run_write w) g) d k id.
Proof.
  intros Hnd Hr Hd Hid H.
  destruct (registry_facts dir ml g Hnd Hr) as (Hinj & Hlow & Hgt).
  unfold global_tables in Hgt.
  assert (Hk : ht_unique_keys g = Some 6%N /\ ht_agent_keys g = Some 2%N /\
               ht_agent_vals g = Some 3%N) by (repeat split; congruence).
  destruct Hk as (K1 & K2 & K3).
  assert (Hother : write_db g w <> Some d ->
                   has_id (after (run_write w) g) d k id).
  { intros Hne. destruct H as (data & Hk & Hv). exists data.
    split; [|exact Hv]. rewrite <- Hk. unfold found, mdb_get. cbn [fst].
    now rewrite (tbl_after_write_other w g d Hne). }
  assert (Hmetric : forall m mt,
            mt <> MTRC_KEYMAP -> mt <> MTRC_UNIQMAP ->
            get_db g m mt <> Some d).
  { intros m mt N1 N2 Hm.
    destruct it; cbn [intern_db] in Hd.
    - destruct (Hinj _ _ _ _ _ Hm Hd) as [_ E]. now apply N1.
    - destruct (Hinj _ _ _ _ _ Hm Hd) as [_ E]. now apply N2.
    - pose proof (Hlow _ _ _ Hm). rewrite K1 in Hd. injection Hd as <-. lia.
    - pose proof (Hlow _ _ _ Hm). rewrite K2 in Hd. injection Hd as <-. lia. }
  clear Hr Hgt.
  destruct w;
    try (apply Hother; cbn [write_db]; apply Hmetric; discriminate).
  - apply (has_id_after_intern g d k id UNIQUE_KEYS); assumption.
  - apply (has_id_after_intern g d k id AGENT_KEYS); assumption.
  - apply Hother. cbn [write_db]. rewrite K3. intros [= <-].
    destruct it; cbn [intern_db] in Hd.
    + pose proof (Hlow _ _ _ Hd). lia.
    + pose proof (Hlow _ _ _ Hd). lia.
    + congruence.
    + congruence.
  - apply (has_id_after_intern g d k id (KEYMAP_OF m)); assumption.
  - apply (has_id_after_intern g d k id (UNIQMAP_OF m)); assumption.
Qed.

(** X16: an id is permanent. In a storage set up by ginit_storage and
    written to by any calls since, a key filed in an interning table
    with an id other than -1 keeps that id whatever write calls of the
    interface follow, on any table; the interning function then still
    answers with it (db_insert_uniqmap with 0). *)
Theorem interned_id_permanent (dir : gmap string table) (ml : list GModule)
    (ws ws' : list WriteCall) (it : InternTable) (d : MDB_dbi)
    (k : list byte) (id : Z) :
  NoDup ml ->
  let g := running dir ml ws in
  intern_db g it = Some d ->
  has_id g d k id -> id <> -1 ->
  let g' := after (serial run_write ws') g in
  has_id g' d k id /\
  db_intern it k g' = (Returned (present_result it id), g').
Proof.
  intros Hnd g Hd H Hid g'.
  assert (Hinv : registry g' = registry (after (ginit_storage ml) (boot dir)) /\
                 has_id g' d k id).
  { unfold g'.
    apply (serial_invariant run_write
             (fun g1 => registry g1
                        = registry (after (ginit_storage ml) (boot dir)) /\
                        has_id g1 d k id)).
    - intros w g1 [Hr1 H1]. destruct (run_write_frame w g1) as [Hr' _].
      split; [congruence|].
      apply (has_id_after_write dir ml g1 w it); try assumption.
      rewrite <- Hd. apply intern_db_registry.
      rewrite Hr1. symmetry. apply registry_running.
    - split; [apply registry_running | exact H]. }
  destruct Hinv as [Hr' H']. split; [exact H'|].
  assert (Hd' : intern_db g' it = Some d).
  { rewrite <- Hd. apply intern_db_registry.
    rewrite Hr'. symmetry. apply registry_running. }
  destruct H' as (data & Hk & Hv).
  rewrite (db_intern_present it _ d k data Hd' Hk) by congruence.
  now rewrite Hv.
Qed.

(** ** Past the range of int *)

Lemma digits_not_nil (p : positive) : digits p <> [].
Proof. destruct p; discriminate. Qed.

Lemma digits_inj (p q : positive) : digits p = digits q -> p = q.
Proof.
  revert q. induction p as [p IH|p IH|]; intros [q|q|]; cbn [digits];
    intros E; try discriminate E; try reflexivity.
  - injection E as E. f_equal. now apply IH.
  - injection E as E. now apply digits_not_nil in E.
  - injection E as E. f_equal. now apply IH.
  - injection E as E. symmetry in E. now apply digits_not_nil in E.
Qed.

Lemma digits_no_nul (p : positive) : ~ In x00 (digits p).
Proof.
  induction p as [p IH|p IH|]; cbn [digits In]; intros [H|H];
    try discriminate H; tauto.
Qed.

Lemma length_digits (p : positive) :
  forall k : nat, Z.pos p < 2 ^ Z.of_nat k ->
  (1 <= length (digits p) <= k)%nat.
Proof.
  induction p as [p IH|p IH|]; intros [|k] Hp; cbn [digits length];
    try (change (2 ^ Z.of_nat 0) with 1 in Hp; lia).
  - rewrite Nat2Z.inj_succ, Z.pow_succ_r in Hp by lia.
    specialize (IH k). lia.
  - rewrite Nat2Z.inj_succ, Z.pow_succ_r in Hp by lia.
    specialize (IH k). lia.
Qed.

Lemma strlen_terminated (l : list byte) :
  ~ In x00 l -> strlen (l ++ [x00]) = length l.
Proof.
  induction l as [|b l IH]; cbn [app strlen length In]; intros H.
  - now destruct (decide (x00 = x00)).
  - destruct (decide (b = x00)) as [->|_]; [tauto|]. f_equal. tauto.
Qed.

Lemma strlen_digit_key (i : nat) :
  strlen (digit_key i) = length (digits (Pos.of_succ_nat i)).
Proof. apply strlen_terminated, digits_no_nul. Qed.

Lemma key_bytes_digit_key (i : nat) :
  key_bytes (digit_key i) = digits (Pos.of_succ_nat i).
Proof.
  unfold key_bytes, span, str_key. cbn [mv_size mv_data].
  rewrite strlen_digit_key. unfold digit_key. now rewrite take_app_length.
Qed.

Lemma valid_digit_key (i : nat) :
  Z.of_nat i < 2 ^ 32 -> valid_key (digit_key i).
Proof.
  intros Hi. unfold valid_key, MDB_MAXKEYSIZE. rewrite strlen_digit_key.
  pose proof (length_digits (Pos.of_succ_nat i) 33) as H.
  change (2 ^ Z.of_nat 33) with (2 * 2 ^ 32) in H. lia.
Qed.

Lemma digit_keys_valid (n : nat) :
  Z.of_nat n <= 2 ^ 32 -> Forall valid_key (digit_keys n).
Proof.
  intros Hn. unfold digit_keys. apply Forall_forall. intros k Hk.
  apply list_elem_of_In, in_map_iff in Hk as (i & <- & Hi).
  apply in_seq in Hi. apply valid_digit_key. lia.
Qed.

Lemma key_bytes_digit_key_inj (i j : nat) :
  key_bytes (digit_key i) = key_bytes (digit_key j) -> i = j.
Proof.
  rewrite !key_bytes_digit_key. intros E. apply digits_inj in E. lia.
Qed.

Lemma digit_keys_NoDup (n : nat) : NoDup (map key_bytes (digit_keys n)).
Proof.
  unfold digit_keys. rewrite map_map.
  apply (NoDup_fmap_2_strong (fun i => key_bytes (digit_key i))).
  - intros i j _ _. apply key_bytes_digit_key_inj.
  - apply NoDup_ListNoDup, seq_NoDup.
Qed.

Lemma digit_key_fresh (n i : nat) :
  (n <= i)%nat -> ~ In (key_bytes (digit_key i)) (map key_bytes (digit_keys n)).
Proof.
  intros Hi H. unfold digit_keys in H. rewrite map_map in H.
  apply in_map_iff in H as (j & E & Hj). apply in_seq in Hj.
  apply key_bytes_digit_key_inj in E. lia.
Qed.

Lemma next_id_at (t : table) (z : Z) :
  Z.of_nat (size t) = z ->
  next_id t = to_int (if 0 <? z then to_uint64 (z + 1) else 1).
Proof. intros <-. reflexivity. Qed.

(** Interning [n] keys into an empty table, whatever [n]: the table
    holds [n] entries, and the next key has no id yet. *)
Lemma intern_digit_keys (it : InternTable) (g : Globals) (d : MDB_dbi)
    (n : nat) :
  intern_db g it = Some d -> tbl g d = ∅ -> Z.of_nat n < 2 ^ 32 ->
  let g' := after (serial (db_intern it) (digit_keys n)) g in
  size (tbl g' d) = n /\
  valid_key (digit_key n) /\
  result (get_si32 (Some d) (digit_key n)) g' = -1 /\
  db_intern it (digit_key n) g'
  = (Returned (next_id (tbl g' d)),
     put g' d (key_bytes (digit_key n)) (int_bytes (next_id (tbl g' d)))).
Proof.
  intros Hd Hempty Hn g'.
  assert (Hd' : intern_db g' it = Some d)
    by (unfold g'; now rewrite intern_db_after_serial_intern).
  assert (Hsize : size (tbl g' d) = n).
  { unfold g'. rewrite (serial_fresh_size it d (digit_keys n) g Hd).
    - rewrite Hempty, map_size_empty. unfold digit_keys.
      now rewrite length_map, length_seq.
    - apply digit_keys_valid. lia.
    - apply digit_keys_NoDup.
    - intros k _. now rewrite Hempty, lookup_empty. }
  assert (Hv : valid_key (digit_key n)) by now apply valid_digit_key.
  assert (Hk : tbl g' d !! key_bytes (digit_key n) = None).
  { destruct (tbl g' d !! key_bytes (digit_key n)) as [data|] eqn:E;
      [|reflexivity].
    destruct (serial_intern_keys it d (digit_keys n) g Hd) as (Hfrom & _).
    destruct (Hfrom (key_bytes (digit_key n))) as [H|H].
    - fold g'. rewrite E. eauto.
    - rewrite Hempty, lookup_empty in H. now destruct H.
    - now apply digit_key_fresh in H. }
  split; [exact Hsize|]. split; [exact Hv|]. split.
  - unfold result. rewrite get_si32_eq, (found_valid g' d _ Hv). cbn [fst].
    now rewrite Hk.
  - now apply db_intern_absent.
Qed.

(** At [INT_MAX] entries the next id is [INT_MIN]. *)
Lemma intern_at_INT_MAX (it : InternTable) (g : Globals) (d : MDB_dbi)
    (n : nat) :
  intern_db g it = Some d -> tbl g d = ∅ -> Z.of_nat n = INT_MAX ->
  let g' := after (serial (db_intern it) (digit_keys n)) g in
  valid_key (digit_key n) /\
  result (get_si32 (Some d) (digit_key n)) g' = -1 /\
  Z.of_nat (size (tbl g' d)) = INT_MAX /\
  result (db_intern it (digit_key n)) g' = Returned INT_MIN /\
  INT_MIN <> Z.of_nat (size (tbl g' d)) + 1 /\
  has_id (after (db_intern it (digit_key n)) g') d (digit_key n) INT_MIN.
Proof.
  intros Hd Hempty Hn g'.
  destruct (intern_digit_keys it g d n Hd Hempty) as (Hs & Hv & Hno & E);
    [unfold INT_MAX in Hn; lia|].
  fold g' in Hs, Hno, E.
  assert (Hs' : Z.of_nat (size (tbl g' d)) = INT_MAX) by (rewrite Hs; exact Hn).
  rewrite (next_id_INT_MAX _ Hs') in E.
  split; [exact Hv|]. split; [exact Hno|]. split; [exact Hs'|].
  split; [unfold result; now rewrite E|].
  split; [rewrite Hs'; unfold INT_MIN, INT_MAX; lia|].
  unfold after at 1. rewrite E. cbn [snd].
  exists (int_bytes INT_MIN). split.
  - rewrite (found_valid _ d _ Hv), tbl_put. apply lookup_insert_eq.
  - rewrite load_int_bytes. reflexivity.
Qed.

(** At 2^32 - 2 entries the next id is -1, the answer of the lookup for
    a key that has none. *)
Lemma intern_at_UINT_MAX_minus_1 (it : InternTable) (g : Globals) (d : MDB_dbi)
    (n : nat) :
  intern_db g it = Some d -> tbl g d = ∅ -> Z.of_nat n = 4294967294 ->
  let g' := after (db_intern it (digit_key n))
              (after (serial (db_intern it) (digit_keys n)) g) in
  has_id g' d (digit_key n) (-1) /\
  found g' d (digit_key n) <> None /\
  result (get_si32 (Some d) (digit_key n)) g' = -1.
Proof.
  intros Hd Hempty Hn.
  destruct (intern_digit_keys it g d n Hd Hempty) as (Hs & Hv & Hno & E);
    [lia|].
  cbv zeta in *.
  rewrite (next_id_at _ 4294967294) in E by (rewrite Hs; exact Hn).
  change (to_int (if 0 <? 4294967294 then to_uint64 (4294967294 + 1) else 1))
    with (-1) in E.
  unfold after at 1 3 5. rewrite E. cbn [snd].
  assert (Hk : found (put (after (serial (db_intern it) (digit_keys n)) g) d
                        (key_bytes (digit_key n)) (int_bytes (-1))) d
                 (digit_key n) = Some (int_bytes (-1))).
  { rewrite (found_valid _ d _ Hv), tbl_put. apply lookup_insert_eq. }
  split; [|split].
  - exists (int_bytes (-1)). split; [exact Hk|].
    rewrite load_int_bytes. reflexivity.
  - rewrite Hk. discriminate.
  - unfold result. rewrite get_si32_eq. cbn [fst]. rewrite Hk.
    rewrite load_int_bytes. reflexivity.
Qed.

Lemma raw_idx_fold_store_item (f : list byte * list byte -> GRawDataItem)
    (es : list (list byte * list byte)) :
  forall rd : GRawData, is_int (raw_idx rd) ->
  raw_idx (fold_left (fun rd e => store_item rd (f e)) es rd)
  = to_int (raw_idx rd + Z.of_nat (length es)).
Proof.
  induction es as [|e es IH]; intros rd Hrd; cbn [fold_left length].
  - rewrite Z.add_0_r. symmetry. now apply to_int_id.
  - rewrite IH by (cbn [store_item raw_idx]; apply to_int_range).
    cbn [store_item raw_idx]. rewrite to_int_add_l. f_equal. lia.
Qed.

Lemma int_bytes_inj_uint32 (a b : Z) :
  0 <= a < 2 ^ 32 -> 0 <= b < 2 ^ 32 -> int_bytes a = int_bytes b -> a = b.
Proof.
  intros Ha Hb E. apply (f_equal load_int) in E.
  rewrite !load_int_bytes in E. unfold to_int in E.
  change (2 ^ 32) with 4294967296 in *. change (2 ^ 31) with 2147483648 in *.
  Z.div_mod_to_equations. lia.
Qed.

Lemma size_one_hit_each (n : nat) :
  Z.of_nat n <= 2 ^ 32 -> size (one_hit_each n) = n.
Proof.
  intros Hn. unfold one_hit_each. rewrite map_size_list_to_map.
  - now rewrite length_map, length_seq.
  - rewrite <- list_fmap_compose.
    apply (NoDup_fmap_2_strong (fun i : nat => int_bytes (Z.of_nat i))).
    + intros i j Hi Hj E.
      apply list_elem_of_In, in_seq in Hi. apply list_elem_of_In, in_seq in Hj.
      apply int_bytes_inj_uint32 in E; lia.
    + apply NoDup_ListNoDup, seq_NoDup.
Qed.

Lemma fold_store_item_frame (f : list byte * list byte -> GRawDataItem)
    (es : list (list byte * list byte)) :
  forall rd : GRawData,
  let rd' := fold_left (fun rd e => store_item rd (f e)) es rd in
  raw_size rd' = raw_size rd /\ length (items rd') = length (items rd).
Proof.
  induction es as [|e es IH]; intros rd; cbv zeta; cbn [fold_left].
  - split; reflexivity.
  - destruct (IH (store_item rd (f e))) as [H1 H2]. rewrite H1, H2.
    cbn [store_item raw_size items]. split; [reflexivity|].
    apply length_insert.
Qed.

Lemma length_sort_items (R : relation GRawDataItem) `{!RelDecision R}
    (rd : GRawData) (n : Z) :
  length (items (sort_items R rd n)) = length (items rd).
Proof.
  unfold sort_items. cbn [items].
  rewrite length_app, merge_sort_Permutation, <- length_app.
  now rewrite take_drop.
Qed.

(** A process started over a directory in which the hits of REQUESTS
    hold [n] entries, [2^32] at most: what the export makes of their
    number. *)
Lemma export_one_hit_each (sort_num sort_str : GRawData -> Z -> GRawData)
    (n : nat) :
  Z.of_nat n <= 2 ^ 32 ->
  let dir : gmap string table :=
    <["db_hits-m1"%string := one_hit_each n]> ∅ in
  let g := after (ginit_storage [REQUESTS]) (boot dir) in
  get_db g REQUESTS (export_metric REQUESTS) = Some 12%N /\
  size (tbl g 12%N) = n /\
  exists raw,
    db_parse_raw_data sort_num sort_str REQUESTS g
    = Some (Some (sort_num raw (raw_idx raw)), g) /\
    raw_idx raw = to_int (Z.of_nat n) /\
    raw_size raw = to_uint32 (Z.of_nat n) /\
    length (items raw) = Z.to_nat (to_uint32 (Z.of_nat n)).
Proof.
  intros Hn dir g.
  assert (Hnd : NoDup [REQUESTS]) by (apply NoDup_singleton).
  destruct (ginit_storage_spec dir [REQUESTS] Hnd) as (_ & _ & Hop & Hdb).
  fold g in Hop, Hdb.
  assert (Hd : get_db g REQUESTS (export_metric REQUESTS) = Some 12%N)
    by exact (Hdb 0%nat REQUESTS MTRC_HITS eq_refl).
  assert (Ht : tbl g 12%N = one_hit_each n).
  { destruct Hop as (_ & _ & _ & Hop).
    change 12%N with (dbi_at 10).
    rewrite (Hop 10%nat "db_hits-m1"%string eq_refl).
    unfold dir. now rewrite lookup_insert_eq. }
  assert (Hs : size (tbl g 12%N) = n)
    by (rewrite Ht; now apply size_one_hit_each).
  split; [exact Hd|]. split; [exact Hs|].
  rewrite (db_parse_raw_data_eq sort_num sort_str REQUESTS g 12%N Hd).
  cbv zeta. cbn match. eexists. split; [reflexivity|].
  rewrite raw_idx_fold_store_item
    by (cbn [init_new_raw_data raw_idx]; unfold is_int, INT_MIN, INT_MAX; lia).
  destruct (fold_store_item_frame (export_item REQUESTS)
              (cursor_scan (tbl g 12%N))
              (init_new_raw_data REQUESTS
                 (to_uint32 (Z.of_nat (size (tbl g 12%N))))
                 (export_type REQUESTS))) as [F1 F2].
  cbv zeta in F1, F2. rewrite F1, F2.
  rewrite length_cursor_scan, Hs.
  cbn [init_new_raw_data raw_idx raw_size items].
  split; [reflexivity|]. split; [reflexivity|]. apply length_replicate.
Qed.

(** * Worked cases *)

Ltac in_range := unfold is_int, is_uint64, INT_MIN, INT_MAX; lia.
Ltac all_in_range := repeat (constructor; [in_range|]); constructor.
Ltac by_evaluation := vm_compute; first [reflexivity | discriminate].
Ltac valid_keys :=
  repeat (constructor; [unfold valid_key; vm_compute; lia|]); constructor.

Lemma intern_present_key_untouched_witness :
  let g := after (db_insert_agent_key (cstr "firefox")) started in
  db_intern AGENT_KEYS (cstr "firefox") g = (Returned 1, g) /\
  (after (db_intern AGENT_KEYS (cstr "chrome")) g <> g ->
   result (get_si32 (Some 2%N) (cstr "chrome")) g = -1).
Proof.
  intros g.
  assert (Hd : intern_db g AGENT_KEYS = Some 2%N) by by_evaluation.
  destruct (intern_present_key_untouched AGENT_KEYS g 2%N (cstr "firefox") Hd)
    as [H1 _].
  destruct (intern_present_key_untouched AGENT_KEYS g 2%N (cstr "chrome") Hd)
    as [_ H2].
  assert (Ha : found g 2%N (cstr "firefox") = Some (int_bytes 1))
    by by_evaluation.
  assert (Hb : load_int (int_bytes 1) <> -1) by by_evaluation.
  specialize (H1 _ Ha Hb).
  rewrite load_int_bytes in H1.
  change (to_int 1) with 1 in H1. cbn [present_result] in H1.
  split; [exact H1 | exact H2].
Defined.

(** C1 as stated fails: db_insert_uniqmap, called with a key that is
    filed under the id 1, returns 0 and not the id. *)
Lemma db_insert_uniqmap_present_returns_0 :
  let g := after (db_insert_uniqmap VISITORS (cstr "20161030|10.0.0.1|curl"))
             started in
  result (get_si32 (get_db g VISITORS MTRC_UNIQMAP)
            (cstr "20161030|10.0.0.1|curl")) g = 1 /\
  result (db_insert_uniqmap VISITORS (cstr "20161030|10.0.0.1|curl")) g
  = Returned 0 /\
  result (db_insert_uniqmap VISITORS (cstr "20161030|10.0.0.1|curl")) g
  <> Returned (result (get_si32 (get_db g VISITORS MTRC_UNIQMAP)
                         (cstr "20161030|10.0.0.1|curl")) g).
Proof. cbv zeta. split; [|split]; by_evaluation. Qed.

Lemma accumulate_sum_witness :
  result (db_get_hits VISITORS 1)
    (after (serial (db_insert_hits VISITORS 1) [3; 5]) started) = 8 /\
  result (db_get_visitors VISITORS 1)
    (after (serial (db_insert_visitor VISITORS 1) [3; 5]) started) = 8 /\
  result (db_get_bw VISITORS 1)
    (after (serial (db_insert_bw VISITORS 1) [3; 5]) started) = 8 /\
  result (db_get_cumts VISITORS 1)
    (after (serial (db_insert_cumts VISITORS 1) [3; 5]) started) = 8 /\
  stored_uint64
    (tbl (after (serial (db_insert_meta_data VISITORS (cstr "bytes")) [3; 5])
            started) 20%N) (key_bytes (cstr "bytes")) = 8.
Proof.
  destruct (accumulate_sum VISITORS started [3; 5]) as (H1 & H2 & H3 & H4 & H5).
  split; [|split; [|split; [|split]]].
  - rewrite (H1 1); [by_evaluation | by_evaluation | all_in_range |].
    vm_compute. repeat split; discriminate.
  - rewrite (H2 1); [by_evaluation | by_evaluation | all_in_range |].
    vm_compute. repeat split; discriminate.
  - rewrite (H3 1); by_evaluation.
  - rewrite (H4 1); by_evaluation.
  - rewrite (H5 (cstr "bytes") 20%N);
      [by_evaluation | by_evaluation | unfold valid_key; vm_compute; lia].
Defined.

(** C2 as stated fails: 2^64 - 1 and then 1 added to a bandwidth counter
    that was absent leave 0, not 2^64; and db_insert_meta_data, whose key
    is a string, stops the process on the empty key and stores nothing. *)
Lemma accumulate_uint64_wraps :
  result (db_get_bw VISITORS 1) started = 0 /\
  result (db_get_bw VISITORS 1)
    (after (serial (db_insert_bw VISITORS 1) [2 ^ 64 - 1; 1]) started) = 0 /\
  sum [2 ^ 64 - 1; 1] = 2 ^ 64 /\
  result (db_get_bw VISITORS 1)
    (after (serial (db_insert_bw VISITORS 1) [2 ^ 64 - 1; 1]) started)
  <> result (db_get_bw VISITORS 1) started + sum [2 ^ 64 - 1; 1] /\
  db_insert_meta_data VISITORS (cstr "") 5 started = (put_refused, started) /\
  stored_uint64
    (tbl (after (serial (db_insert_meta_data VISITORS (cstr "")) [5]) started)
       20%N) (key_bytes (cstr ""))
  <> stored_uint64 (tbl started 20%N) (key_bytes (cstr "")) + sum [5].
Proof. split; [|split; [|split; [|split; [|split]]]]; by_evaluation. Qed.

Lemma intern_fresh_key_next_id_witness :
  db_intern (KEYMAP_OF REQUESTS) (cstr "/index.html") started =
  (Returned (Z.of_nat (size (tbl started 21%N)) + 1),
   put started 21%N (key_bytes (cstr "/index.html"))
     (int_bytes (Z.of_nat (size (tbl started 21%N)) + 1))) /\
  result (serial (db_intern (KEYMAP_OF REQUESTS))
            [cstr "/a"; cstr "/b"; cstr "/c"]) started = Returned [1; 2; 3].
Proof.
  assert (Hd : intern_db started (KEYMAP_OF REQUESTS) = Some 21%N)
    by by_evaluation.
  destruct (intern_fresh_key_next_id (KEYMAP_OF REQUESTS) started 21%N Hd)
    as [H1 H2].
  split.
  - apply H1; [unfold valid_key; vm_compute; lia | by_evaluation
              | by_evaluation].
  - rewrite H2.
    + reflexivity.
    + by_evaluation.
    + valid_keys.
    + apply (bool_decide_unpack _). vm_compute. exact I.
    + by_evaluation.
Defined.

(** C3 as stated fails, "for every string key" and whatever the size of
    the table: the empty key has no id and gets none, the call stops the
    process; and in a keymap that holds INT_MAX entries a key of a few
    bytes that has no id gets INT_MIN, not the size of the table plus
    one. *)
Lemma intern_refuses_empty_key_and_wraps_at_INT_MAX :
  db_intern (KEYMAP_OF REQUESTS) (cstr "") started = (put_refused, started) /\
  result (get_si32 (Some 21%N) (cstr "")) started = -1 /\
  (let g := after (serial (db_intern (KEYMAP_OF REQUESTS))
                     (digit_keys (Z.to_nat INT_MAX))) started in
   valid_key (digit_key (Z.to_nat INT_MAX)) /\
   result (get_si32 (Some 21%N) (digit_key (Z.to_nat INT_MAX))) g = -1 /\
   Z.of_nat (size (tbl g 21%N)) = INT_MAX /\
   result (db_intern (KEYMAP_OF REQUESTS) (digit_key (Z.to_nat INT_MAX))) g
   = Returned INT_MIN /\
   INT_MIN <> Z.of_nat (size (tbl g 21%N)) + 1).
Proof.
  split; [by_evaluation|]. split; [by_evaluation|].
  assert (Hd : intern_db started (KEYMAP_OF REQUESTS) = Some 21%N)
    by by_evaluation.
  assert (He : tbl started 21%N = ∅) by by_evaluation.
  assert (Hn : Z.of_nat (Z.to_nat INT_MAX) = INT_MAX)
    by (apply Z2Nat.id; unfold INT_MAX; lia).
  revert Hn. generalize (Z.to_nat INT_MAX). intros n Hn.
  destruct (intern_at_INT_MAX (KEYMAP_OF REQUESTS) started 21%N n Hd He Hn)
    as (H1 & H2 & H3 & H4 & H5 & _).
  cbv zeta. split; [exact H1|]. split; [exact H2|]. split; [exact H3|].
  split; [exact H4 | exact H5].
Qed.

Lemma intern_stable_after_first_witness :
  let g2 := after (serial intern_call
                     [(KEYMAP_OF VISITORS, cstr "/b");
                      (UNIQMAP_OF VISITORS, cstr "/a");
                      (KEYMAP_OF VISITORS, cstr "/a")])
              (after (db_intern (KEYMAP_OF VISITORS) (cstr "/a")) started) in
  result (db_intern (KEYMAP_OF VISITORS) (cstr "/a")) g2
  = Returned (present_result (KEYMAP_OF VISITORS) 1) /\
  result (get_si32 (intern_db g2 (KEYMAP_OF VISITORS)) (cstr "/a")) g2 = 1.
Proof.
  apply (intern_stable_after_first (KEYMAP_OF VISITORS) started (cstr "/a") 1);
    by_evaluation.
Defined.

(** C4 as stated fails: the first db_insert_uniqmap call on a key
    returns its new id 1, the second one returns 0. *)
Lemma db_insert_uniqmap_second_call_returns_0 :
  result (get_si32 (get_db started HOSTS MTRC_UNIQMAP)
            (cstr "20161030|192.168.0.7|Mozilla")) started = -1 /\
  result (db_insert_uniqmap HOSTS (cstr "20161030|192.168.0.7|Mozilla"))
    started = Returned 1 /\
  result (db_insert_uniqmap HOSTS (cstr "20161030|192.168.0.7|Mozilla"))
    (after (db_insert_uniqmap HOSTS (cstr "20161030|192.168.0.7|Mozilla"))
       started) = Returned 0.
Proof. split; [|split]; by_evaluation. Qed.


Lemma export_complete_sorted_witness :
  let g := after (serial (db_insert_hits REQUESTS 1) [3; 5]) started in
  exists rd,
    db_parse_raw_data (sort_items (num_le SORT_DESC))
      (sort_items (str_le SORT_ASC)) REQUESTS g = Some (Some rd, g) /\
    raw_module rd = REQUESTS /\ raw_type rd = export_type REQUESTS /\
    raw_size rd = Z.of_nat (size (tbl g 26%N)) /\
    raw_idx rd = Z.of_nat (size (tbl g 26%N)) /\
    length (items rd) = size (tbl g 26%N) /\
    Permutation (items rd)
      (map (fun e => {| key := load_int (fst e);
                        value := export_value REQUESTS (snd e) |})
         (map_to_list (tbl g 26%N))) /\
    StronglySorted (export_le SORT_DESC SORT_ASC REQUESTS) (items rd) /\
    (forall k data, is_int k -> tbl g 26%N !! int_bytes k = Some data ->
       In {| key := k; value := export_value REQUESTS data |} (items rd)).
Proof.
  intros g.
  assert (Hd : get_db g REQUESTS (export_metric REQUESTS) = Some 26%N)
    by by_evaluation.
  assert (Hs : Z.of_nat (size (tbl g 26%N)) <= INT_MAX) by by_evaluation.
  exact (export_complete_sorted SORT_DESC SORT_ASC
           (sort_items (num_le SORT_DESC)) (sort_items (str_le SORT_ASC))
           REQUESTS g 26%N (sort_items_sorts _) (sort_items_sorts _) Hd Hs).
Defined.

(** C6 as stated fails.  Over a directory in which the hits of REQUESTS
    hold 2^31 entries, the count of items of the exported raw data, an
    int, is INT_MIN and not the size of the table; and when they hold
    2^32 entries, the size taken as a uint32_t is 0 and the array is
    allocated for no item at all. *)
Lemma export_counts_in_int :
  (let dir : gmap string table :=
     <["db_hits-m1"%string := one_hit_each (Z.to_nat 2147483648)]> ∅ in
   let g := after (ginit_storage [REQUESTS]) (boot dir) in
   get_db g REQUESTS (export_metric REQUESTS) = Some 12%N /\
   Z.of_nat (size (tbl g 12%N)) = 2147483648 /\
   exists rd,
     db_parse_raw_data (sort_items (num_le SORT_DESC))
       (sort_items (str_le SORT_ASC)) REQUESTS g = Some (Some rd, g) /\
     raw_idx rd = INT_MIN /\
     raw_idx rd <> Z.of_nat (size (tbl g 12%N))) /\
  (let dir : gmap string table :=
     <["db_hits-m1"%string := one_hit_each (Z.to_nat 4294967296)]> ∅ in
   let g := after (ginit_storage [REQUESTS]) (boot dir) in
   get_db g REQUESTS (export_metric REQUESTS) = Some 12%N /\
   Z.of_nat (size (tbl g 12%N)) = 4294967296 /\
   exists rd,
     db_parse_raw_data (sort_items (num_le SORT_DESC))
       (sort_items (str_le SORT_ASC)) REQUESTS g = Some (Some rd, g) /\
     raw_size rd = 0 /\ length (items rd) = 0%nat).
Proof.
  split.
  - assert (Hn : Z.of_nat (Z.to_nat 2147483648) = 2147483648)
      by (apply Z2Nat.id; lia).
    revert Hn. generalize (Z.to_nat 2147483648). intros n Hn. cbv zeta.
    destruct (export_one_hit_each (sort_items (num_le SORT_DESC))
                (sort_items (str_le SORT_ASC)) n)
      as (Hd & Hs & raw & E & Hidx & _); [lia|].
    split; [exact Hd|]. split; [lia|].
    eexists. split; [exact E|].
    change (raw_idx (sort_items (num_le SORT_DESC) raw (raw_idx raw)))
      with (raw_idx raw).
    rewrite Hidx, Hs, Hn. change (to_int 2147483648) with INT_MIN.
    split; [reflexivity|]. unfold INT_MIN. lia.
  - assert (Hn : Z.of_nat (Z.to_nat 4294967296) = 4294967296)
      by (apply Z2Nat.id; lia).
    revert Hn. generalize (Z.to_nat 4294967296). intros n Hn. cbv zeta.
    destruct (export_one_hit_each (sort_items (num_le SORT_DESC))
                (sort_items (str_le SORT_ASC)) n)
      as (Hd & Hs & raw & E & _ & Hsize & Hlen); [lia|].
    split; [exact Hd|]. split; [lia|].
    eexists. split; [exact E|].
    rewrite length_sort_items.
    change (raw_size (sort_items (num_le SORT_DESC) raw (raw_idx raw)))
      with (raw_size raw).
    rewrite Hsize, Hlen, Hn. split; reflexivity.
Qed.

Lemma unavailable_tables_witness :
  module_unavailable started OS /\
  (forall mt, get_db globals0 OS mt = None) /\
  module_unavailable (after (ginit_storage [VISITORS]) globals0) OS /\
  global_unavailable globals0.
Proof.
  destruct (unavailable_tables started OS) as (H1 & _ & H3 & _).
  destruct (unavailable_tables globals0 OS) as (_ & H2 & _ & H4 & _).
  split; [|split; [|split]].
  - apply H1. intros mt; destruct mt; by_evaluation.
  - apply H2. reflexivity.
  - apply H3. cbn. intuition discriminate.
  - apply H4; reflexivity.
Defined.

(** C7 as stated fails: before initialisation db_get_bw answers 0, which
    is neither -1 nor -1 converted to its unsigned return type. *)
Lemma db_get_bw_uninitialised_returns_0 :
  result (db_get_bw VISITORS 1) globals0 = 0 /\
  result (db_get_bw VISITORS 1) globals0 <> -1 /\
  result (db_get_bw VISITORS 1) globals0 <> to_uint64 (-1) /\
  result (db_get_size_uniqmap VISITORS) globals0 <> -1.
Proof. split; [|split; [|split]]; by_evaluation. Qed.

Lemma cstr_terminated (s : string) : In x00 (cstr s).
Proof. unfold cstr. apply in_or_app. right. now left. Qed.


Lemma interned_ids_at_least_1_witness :
  let g' := after (serial (db_intern UNIQUE_KEYS)
                     [cstr "a|1"; cstr "b|2"; cstr "a|1"]) started in
  (forall k data, tbl g' 6%N !! k = Some data -> 1 <= load_int data) /\
  (forall k, result (get_si32 (Some 6%N) k) g' = -1 <->
             found g' 6%N k = None).
Proof.
  apply (interned_ids_at_least_1 UNIQUE_KEYS started 6%N); by_evaluation.
Defined.

(** C9 as stated fails: the id filed for the key that comes after
    INT_MAX others is INT_MIN, below 1; and the id filed for the key that
    comes after 2^32 - 2 others is -1, so that the lookup answers -1 for
    a key that is in the table. *)
Lemma interned_id_INT_MIN_and_minus_1 :
  (let g := after (db_intern UNIQUE_KEYS (digit_key (Z.to_nat INT_MAX)))
              (after (serial (db_intern UNIQUE_KEYS)
                        (digit_keys (Z.to_nat INT_MAX))) started) in
   has_id g 6%N (digit_key (Z.to_nat INT_MAX)) INT_MIN /\ INT_MIN < 1) /\
  (let g := after (db_intern UNIQUE_KEYS (digit_key (Z.to_nat 4294967294)))
              (after (serial (db_intern UNIQUE_KEYS)
                        (digit_keys (Z.to_nat 4294967294))) started) in
   has_id g 6%N (digit_key (Z.to_nat 4294967294)) (-1) /\
   found g 6%N (digit_key (Z.to_nat 4294967294)) <> None /\
   result (get_si32 (Some 6%N) (digit_key (Z.to_nat 4294967294))) g = -1).
Proof.
  assert (Hd : intern_db started UNIQUE_KEYS = Some 6%N) by by_evaluation.
  assert (He : tbl started 6%N = ∅) by by_evaluation.
  split.
  - assert (Hn : Z.of_nat (Z.to_nat INT_MAX) = INT_MAX)
      by (apply Z2Nat.id; unfold INT_MAX; lia).
    revert Hn. generalize (Z.to_nat INT_MAX). intros n Hn.
    destruct (intern_at_INT_MAX UNIQUE_KEYS started 6%N n Hd He Hn)
      as (_ & _ & _ & _ & _ & H).
    cbv zeta. split; [exact H | reflexivity].
  - assert (Hn : Z.of_nat (Z.to_nat 4294967294) = 4294967294)
      by (apply Z2Nat.id; lia).
    revert Hn. generalize (Z.to_nat 4294967294). intros n Hn.
    exact (intern_at_UINT_MAX_minus_1 UNIQUE_KEYS started 6%N n Hd He Hn).
Qed.

Lemma db_get_root_zero_is_null_witness :
  let g := after (db_insert_root VISITORS 3 0) started in
  let g' := after (db_insert_rootmap VISITORS 2 (cstr "/blog"))
              (after (db_insert_root VISITORS 3 2) started) in
  db_get_root VISITORS 3 g = (None, g) /\
  db_get_root VISITORS 3 g'
  = get_is32 (Some 8%N) (result (get_ii32 (Some 11%N) 3) g') g'.
Proof.
  intros g g'.
  destruct (db_get_root_zero_is_null VISITORS g 3) as (H1 & _ & _).
  destruct (db_get_root_zero_is_null VISITORS g' 3) as (_ & _ & H3).
  split.
  - apply H1. by_evaluation.
  - apply (H3 11%N 8%N); by_evaluation.
Defined.

(** The scenario of the specification, run from start to end: two agents
    are interned, the first one again, hits are accumulated for the key 1
    of a module and its hits are exported. *)
Example end_to_end_scenario :
  let run :=
    try* a := db_insert_agent_key (cstr "firefox") in
    try* b := db_insert_agent_key (cstr "chrome") in
    try* c := db_insert_agent_key (cstr "firefox") in
    try db_insert_hits REQUESTS 1 3 in
    try db_insert_hits REQUESTS 1 5 in
    let* h := db_get_hits REQUESTS 1 in
    returns (a, b, c, h) in
  result run started = Returned (1, 2, 1, 8) /\
  option_map (fun r => option_map items (fst r))
    (db_parse_raw_data (sort_items (num_le SORT_DESC))
       (sort_items (str_le SORT_ASC)) REQUESTS (after run started))
  = Some (Some [ {| key := 1; value := ivalue 8 |} ]).
Proof. split; by_evaluation. Qed.

(** ** Worked cases of the further properties *)

Lemma NoDup_three_modules : NoDup [VISITORS; REQUESTS; HOSTS].
Proof. apply (bool_decide_unpack _). vm_compute. exact I. Qed.

(** A directory in which an earlier run has left the hits of REQUESTS:
    the table is reopened with its entry. *)
Lemma ginit_storage_registry_witness :
  let dir : gmap string table :=
    <["db_hits-m1"%string := <[int_bytes 1 := int_bytes 3]> ∅]> ∅ in
  let g := after (ginit_storage [VISITORS; REQUESTS; HOSTS]) (boot dir) in
  result (ginit_storage [VISITORS; REQUESTS; HOSTS]) (boot dir) = Returned tt /\
  (forall m mt, In m [VISITORS; REQUESTS; HOSTS] ->
     exists d, get_db g m mt = Some d /\
               tbl g d = default ∅ (dir !! table_name m mt)) /\
  (forall m mt, ~ In m [VISITORS; REQUESTS; HOSTS] -> get_db g m mt = None) /\
  (forall m m' mt mt' d,
     get_db g m mt = Some d -> get_db g m' mt' = Some d ->
     m = m' /\ mt = mt') /\
  global_tables g = (Some 2%N, Some 3%N, Some 4%N, Some 5%N, Some 6%N) /\
  (forall i name, global_names !! i = Some name ->
     tbl g (dbi_at i) = default ∅ (dir !! name)) /\
  (forall m mt d, get_db g m mt = Some d -> (6 < d)%N).
Proof.
  exact (ginit_storage_registry
           (<["db_hits-m1"%string := <[int_bytes 1 := int_bytes 3]> ∅]> ∅)
           [VISITORS; REQUESTS; HOSTS] NoDup_three_modules).
Defined.

(** The same run: the hits filed by the earlier run are read back. *)
Example reopened_table_keeps_entries :
  let dir : gmap string table :=
    <["db_hits-m1"%string := <[int_bytes 1 := int_bytes 3]> ∅]> ∅ in
  let g := after (ginit_storage [VISITORS; REQUESTS; HOSTS]) (boot dir) in
  table_name REQUESTS MTRC_HITS = "db_hits-m1"%string /\
  result (db_get_hits REQUESTS 1) g = 3 /\
  result (db_get_hits VISITORS 1) g = 0.
Proof. cbv zeta. split; [|split]; by_evaluation. Qed.

Lemma string_value_round_trip_witness :
  (result (db_insert_datamap VISITORS 1 (cstr "/index.html")) started
   = Returned 0 /\
   result (db_get_datamap VISITORS 1)
     (after (db_insert_datamap VISITORS 1 (cstr "/index.html")) started)
   = Some (xstrdup (cstr "/index.html"))) /\
  (result (db_insert_method VISITORS 1 (cstr "/index.html")) started
   = Returned 0 /\
   result (db_get_method VISITORS 1)
     (after (db_insert_method VISITORS 1 (cstr "/index.html")) started)
   = Some (xstrdup (cstr "/index.html"))) /\
  (result (db_insert_protocol VISITORS 1 (cstr "/index.html")) started
   = Returned 0 /\
   result (db_get_protocol VISITORS 1)
     (after (db_insert_protocol VISITORS 1 (cstr "/index.html")) started)
   = Some (xstrdup (cstr "/index.html"))).
Proof.
  assert (H1 : get_db started VISITORS MTRC_DATAMAP <> None) by by_evaluation.
  assert (H2 : get_db started VISITORS MTRC_METHODS <> None) by by_evaluation.
  assert (H3 : get_db started VISITORS MTRC_PROTOCOLS <> None)
    by by_evaluation.
  destruct (string_value_round_trip VISITORS started 1 (cstr "/index.html")
              (cstr_terminated "/index.html")) as (A & B & C).
  split; [exact (A H1)|]. split; [exact (B H2) | exact (C H3)].
Defined.

Lemma datamap_insert_replaces_witness :
  let g1 := after (db_insert_datamap VISITORS 1 (cstr "/a")) started in
  let g2 := after (db_insert_datamap VISITORS 1 (cstr "/b")) g1 in
  result (db_get_datamap VISITORS 1) g2 = Some (xstrdup (cstr "/b")) /\
  result (db_get_size_datamap VISITORS) g2
  = result (db_get_size_datamap VISITORS) g1 /\
  result (db_get_size_datamap VISITORS) g1
  = result (db_get_size_datamap VISITORS) started + 1.
Proof.
  assert (Hd : get_db started VISITORS MTRC_DATAMAP = Some 9%N)
    by by_evaluation.
  assert (Hk : tbl started 9%N !! int_bytes 1 = None) by by_evaluation.
  assert (Hs : Z.of_nat (size (tbl started 9%N)) < 2 ^ 32 - 1)
    by by_evaluation.
  destruct (datamap_insert_replaces VISITORS started 9%N 1 (cstr "/a")
              (cstr "/b") Hd (cstr_terminated "/b")) as (A & B & C).
  split; [exact A|]. split; [exact B | exact (C Hk Hs)].
Defined.

Lemma distinct_int_keys_independent_witness :
  length (int_bytes 1) = 4%nat /\ int_bytes 1 <> int_bytes 2 /\
  (let g' := after (run_write (W_hits VISITORS 1 3)) started in
   result (db_get_hits VISITORS 2) g' = result (db_get_hits VISITORS 2) started /\
   result (db_get_visitors VISITORS 2) g'
   = result (db_get_visitors VISITORS 2) started /\
   result (db_get_bw VISITORS 2) g' = result (db_get_bw VISITORS 2) started /\
   result (db_get_cumts VISITORS 2) g'
   = result (db_get_cumts VISITORS 2) started /\
   result (db_get_maxts VISITORS 2) g'
   = result (db_get_maxts VISITORS 2) started /\
   result (db_get_datamap VISITORS 2) g'
   = result (db_get_datamap VISITORS 2) started /\
   result (db_get_method VISITORS 2) g'
   = result (db_get_method VISITORS 2) started /\
   result (db_get_protocol VISITORS 2) g'
   = result (db_get_protocol VISITORS 2) started).
Proof.
  assert (H1 : is_int 1) by in_range.
  assert (H2 : is_int 2) by in_range.
  assert (H3 : 1 <> 2) by lia.
  destruct (distinct_int_keys_independent started 1 2 H1 H2 H3)
    as (A & B & C).
  split; [exact A|]. split; [exact B|].
  exact (C (W_hits VISITORS 1 3) VISITORS eq_refl).
Defined.

(** What X5 leaves out: db_get_root under the key 2 changes with a write
    under the key 1, the root id found under 2. *)
Example db_get_root_follows_the_root_id :
  let g := after (db_insert_root VISITORS 2 1) started in
  let g' := after (run_write (W_rootmap VISITORS 1 (cstr "/"))) g in
  write_key (W_rootmap VISITORS 1 (cstr "/")) = int_bytes 1 /\
  result (db_get_root VISITORS 2) g = None /\
  result (db_get_root VISITORS 2) g' = Some (xstrdup (cstr "/")).
Proof. cbv zeta. split; [|split]; by_evaluation. Qed.

Lemma root_round_trip_witness :
  result (db_get_root VISITORS 1)
    (after (db_insert_rootmap VISITORS 2 (cstr "/"))
       (after (db_insert_root VISITORS 1 2) started))
  = Some (xstrdup (cstr "/")) /\
  result (db_get_root VISITORS 1)
    (after (db_insert_root VISITORS 1 2)
       (after (db_insert_rootmap VISITORS 2 (cstr "/")) started))
  = Some (xstrdup (cstr "/")).
Proof.
  assert (H1 : get_db started VISITORS MTRC_ROOT = Some 11%N) by by_evaluation.
  assert (H2 : get_db started VISITORS MTRC_ROOTMAP = Some 8%N)
    by by_evaluation.
  assert (H3 : 11%N <> 8%N) by discriminate.
  assert (H4 : is_int 2) by in_range.
  assert (H5 : 2 <> 0) by lia.
  exact (root_round_trip VISITORS started 11%N 8%N 1 2 (cstr "/")
           H1 H2 H3 H4 H5 (cstr_terminated "/")).
Defined.

Lemma interning_adds_keys_witness :
  let g' := after (serial (db_intern AGENT_KEYS)
                     [cstr "firefox"; cstr "chrome"]) started in
  (forall kb, is_Some (tbl g' 2%N !! kb) ->
              is_Some (tbl started 2%N !! kb) \/
              In kb (map key_bytes [cstr "firefox"; cstr "chrome"])) /\
  (forall kb, is_Some (tbl started 2%N !! kb) -> is_Some (tbl g' 2%N !! kb)) /\
  (size (tbl started 2%N) <= size (tbl g' 2%N))%nat /\
  (forall rs, result (serial (db_intern AGENT_KEYS)
                        [cstr "firefox"; cstr "chrome"]) started = Returned rs ->
     forall k, In k [cstr "firefox"; cstr "chrome"] ->
               is_Some (tbl g' 2%N !! key_bytes k)).
Proof.
  assert (Hd : intern_db started AGENT_KEYS = Some 2%N) by by_evaluation.
  exact (interning_adds_keys AGENT_KEYS started 2%N
           [cstr "firefox"; cstr "chrome"] Hd).
Defined.

(** A call with the empty key stops the process and files nothing: the
    key of a call need not be in the table afterwards. *)
Example empty_key_is_not_filed :
  db_intern AGENT_KEYS (cstr "") started = (put_refused, started) /\
  tbl (after (serial (db_intern AGENT_KEYS) [cstr ""; cstr "chrome"]) started)
    2%N = ∅.
Proof. split; by_evaluation. Qed.

Lemma uniqmap_size_counts_keys_witness :
  result (db_get_size_uniqmap VISITORS)
    (after (serial (db_insert_uniqmap VISITORS)
              [cstr "a"; cstr "b"; cstr "c"]) started)
  = Z.of_nat (length [cstr "a"; cstr "b"; cstr "c"]).
Proof.
  assert (Hd : get_db started VISITORS MTRC_UNIQMAP = Some 10%N)
    by by_evaluation.
  assert (He : tbl started 10%N = ∅) by by_evaluation.
  assert (Hv : Forall valid_key [cstr "a"; cstr "b"; cstr "c"]) by valid_keys.
  assert (Hn : NoDup (map key_bytes [cstr "a"; cstr "b"; cstr "c"]))
    by (apply (bool_decide_unpack _); vm_compute; exact I).
  assert (Hl : Z.of_nat (length [cstr "a"; cstr "b"; cstr "c"]) < 2 ^ 32)
    by by_evaluation.
  exact (uniqmap_size_counts_keys VISITORS started 10%N
           [cstr "a"; cstr "b"; cstr "c"] Hd He Hv Hn Hl).
Defined.

Lemma interned_ids_bijective_witness :
  ids_bijective
    (tbl (after (serial (db_intern (KEYMAP_OF VISITORS))
                   [cstr "a"; cstr "b"; cstr "a"]) started) 7%N).
Proof.
  assert (Hd : intern_db started (KEYMAP_OF VISITORS) = Some 7%N)
    by by_evaluation.
  assert (He : tbl started 7%N = ∅) by by_evaluation.
  assert (Hl : Z.of_nat (length [cstr "a"; cstr "b"; cstr "a"]) <= INT_MAX)
    by by_evaluation.
  exact (interned_ids_bijective (KEYMAP_OF VISITORS) started 7%N
           [cstr "a"; cstr "b"; cstr "a"] Hd He Hl).
Defined.

Lemma uniqmap_tells_seen_from_new_witness :
  let g' := after (serial (db_insert_uniqmap VISITORS) [cstr "a"; cstr "b"])
              started in
  db_insert_uniqmap VISITORS (cstr "a") g' = (Returned 0, g') /\
  db_insert_uniqmap VISITORS (cstr "c") g'
  = (if decide (valid_key (cstr "c"))
     then (Returned (Z.of_nat (size (tbl g' 10%N)) + 1),
           put g' 10%N (key_bytes (cstr "c"))
             (int_bytes (Z.of_nat (size (tbl g' 10%N)) + 1)))
     else (put_refused, g')) /\
  db_insert_uniqmap VISITORS (cstr "") g'
  = (if decide (valid_key (cstr ""))
     then (Returned (Z.of_nat (size (tbl g' 10%N)) + 1),
           put g' 10%N (key_bytes (cstr ""))
             (int_bytes (Z.of_nat (size (tbl g' 10%N)) + 1)))
     else (put_refused, g')).
Proof.
  assert (Hd : get_db started VISITORS MTRC_UNIQMAP = Some 10%N)
    by by_evaluation.
  assert (He : tbl started 10%N = ∅) by by_evaluation.
  assert (Hv : Forall valid_key [cstr "a"; cstr "b"]) by valid_keys.
  assert (Hl : Z.of_nat (length [cstr "a"; cstr "b"]) < INT_MAX)
    by by_evaluation.
  assert (Hin : In (key_bytes (cstr "a"))
                  (map key_bytes [cstr "a"; cstr "b"]))
    by (left; reflexivity).
  assert (Hout : ~ In (key_bytes (cstr "c"))
                     (map key_bytes [cstr "a"; cstr "b"])).
  { intros H. vm_compute in H. destruct H as [H|[H|[]]]; discriminate H. }
  assert (Hout' : ~ In (key_bytes (cstr ""))
                      (map key_bytes [cstr "a"; cstr "b"])).
  { intros H. vm_compute in H. destruct H as [H|[H|[]]]; discriminate H. }
  split; [|split].
  - exact (proj1 (uniqmap_tells_seen_from_new VISITORS started 10%N
                    [cstr "a"; cstr "b"] (cstr "a") Hd He Hv Hl) Hin).
  - exact (proj2 (uniqmap_tells_seen_from_new VISITORS started 10%N
                    [cstr "a"; cstr "b"] (cstr "c") Hd He Hv Hl) Hout).
  - exact (proj2 (uniqmap_tells_seen_from_new VISITORS started 10%N
                    [cstr "a"; cstr "b"] (cstr "") Hd He Hv Hl) Hout').
Defined.

Lemma export_edge_cases_witness :
  db_parse_raw_data (sort_items (num_le SORT_DESC))
    (sort_items (str_le SORT_ASC)) OS started = Some (None, started) /\
  db_parse_raw_data (sort_items (num_le SORT_DESC))
    (sort_items (str_le SORT_ASC)) REQUESTS started
  = Some (Some (empty_raw_data REQUESTS), started).
Proof.
  assert (H1 : db_storage started <> None) by by_evaluation.
  assert (H2 : get_db started OS (export_metric OS) = None) by by_evaluation.
  assert (H3 : get_db started REQUESTS (export_metric REQUESTS) = Some 26%N)
    by by_evaluation.
  assert (H4 : tbl started 26%N = ∅) by by_evaluation.
  split.
  - exact (proj1 (export_edge_cases (num_le SORT_DESC) (str_le SORT_ASC)
                    (sort_items (num_le SORT_DESC))
                    (sort_items (str_le SORT_ASC)) OS started) H1 H2).
  - exact (proj2 (export_edge_cases (num_le SORT_DESC) (str_le SORT_ASC)
                    (sort_items (num_le SORT_DESC))
                    (sort_items (str_le SORT_ASC)) REQUESTS started)
             26%N (sort_items_sorts _) (sort_items_sorts _) H3 H4).
Defined.

Lemma write_leaves_other_tables_witness :
  let g := running ∅ [VISITORS; REQUESTS; HOSTS] [W_hits VISITORS 1 3] in
  (forall m mt d, write_target (W_hits VISITORS 2 5) <> Some (m, mt) ->
     get_db g m mt = Some d ->
     tbl (after (run_write (W_hits VISITORS 2 5)) g) d = tbl g d) /\
  (forall i, write_target (W_hits VISITORS 2 5) <> None -> (i < 5)%nat ->
     tbl (after (run_write (W_hits VISITORS 2 5)) g) (dbi_at i)
     = tbl g (dbi_at i)).
Proof.
  exact (write_leaves_other_tables ∅ [VISITORS; REQUESTS; HOSTS]
           [W_hits VISITORS 1 3] (W_hits VISITORS 2 5) NoDup_three_modules).
Defined.

Lemma hostnames_never_written_witness :
  let dir : gmap string table :=
    <["db_hostnames"%string :=
        <[key_bytes (cstr "192.0.2.1") := cstr "example.net"]> ∅]> ∅ in
  let g := running dir [VISITORS; REQUESTS; HOSTS]
             [W_agent_key (cstr "firefox"); W_hits HOSTS 1 3;
              W_datamap HOSTS 1 (cstr "192.0.2.1")] in
  ht_hostnames g = Some 5%N /\
  tbl g 5%N = default ∅ (dir !! "db_hostnames"%string) /\
  (dir !! "db_hostnames"%string = None ->
   forall host, result (db_get_hostname host) g = None).
Proof.
  exact (hostnames_never_written
           (<["db_hostnames"%string :=
                <[key_bytes (cstr "192.0.2.1") := cstr "example.net"]> ∅]> ∅)
           [VISITORS; REQUESTS; HOSTS]
           [W_agent_key (cstr "firefox"); W_hits HOSTS 1 3;
            W_datamap HOSTS 1 (cstr "192.0.2.1")]
           NoDup_three_modules).
Defined.

(** Over the same directory db_get_hostname answers with the name an
    earlier run has left; over a new directory it answers NULL. *)
Example db_get_hostname_reads_the_directory :
  let dir : gmap string table :=
    <["db_hostnames"%string :=
        <[key_bytes (cstr "192.0.2.1") := cstr "example.net"]> ∅]> ∅ in
  result (db_get_hostname (cstr "192.0.2.1"))
    (running dir [VISITORS; REQUESTS; HOSTS] [W_hits HOSTS 1 3])
  = Some (xstrdup (cstr "example.net")) /\
  result (db_get_hostname (cstr "192.0.2.1"))
    (running ∅ [VISITORS; REQUESTS; HOSTS] [W_hits HOSTS 1 3]) = None.
Proof. cbv zeta. split; by_evaluation. Qed.

Lemma interned_id_permanent_witness :
  let g := running ∅ [VISITORS; REQUESTS; HOSTS]
             [W_keymap VISITORS (cstr "/index")] in
  let g' := after (serial run_write
                     [W_hits VISITORS 1 3; W_keymap VISITORS (cstr "/about");
                      W_datamap VISITORS 1 (cstr "/index")]) g in
  has_id g' 7%N (cstr "/index") 1 /\
  db_intern (KEYMAP_OF VISITORS) (cstr "/index") g'
  = (Returned (present_result (KEYMAP_OF VISITORS) 1), g').
Proof.
  assert (Hd : intern_db (running ∅ [VISITORS; REQUESTS; HOSTS]
                            [W_keymap VISITORS (cstr "/index")])
                 (KEYMAP_OF VISITORS) = Some 7%N) by by_evaluation.
  assert (Hh : has_id (running ∅ [VISITORS; REQUESTS; HOSTS]
                         [W_keymap VISITORS (cstr "/index")])
                 7%N (cstr "/index") 1).
  { exists (int_bytes 1). split; by_evaluation. }
  assert (Hid : 1 <> -1) by lia.
  exact (interned_id_permanent ∅ [VISITORS; REQUESTS; HOSTS]
           [W_keymap VISITORS (cstr "/index")]
           [W_hits VISITORS 1 3; W_keymap VISITORS (cstr "/about");
            W_datamap VISITORS 1 (cstr "/index")]
           (KEYMAP_OF VISITORS) 7%N (cstr "/index") 1
           NoDup_three_modules Hd Hh Hid).
Defined.
